(* ===== verification/_CoqProject ===== *)
-Q . S2P
Prelude.v
Tokens.v
Construct.v
Graph.v
Deploy.v
Scheduler.v
TreeMap.v
Resources.v
Typing.v
SonarStack.v
StackProperties.v
OrderFree.v
Provision.v
Runtime.v
App.v
