(* ===== verification/Prelude.v ===== *)
(** * SonarQubeCDK: a verification development

    The repository declares, with the AWS CDK, the infrastructure of a
    SonarQube installation: [src/sonar/sonar_stack.py] holds one class,
    [SonarStack], whose constructor declares a virtual network, a database
    credential, a security group, an Aurora cluster, an ECS cluster with its
    host bootstrap commands, a task role, and a load-balanced service with
    its container limits; [src/app.py] instantiates the stack under the id
    ["sonar"] and synthesises it.  The constructor is straight-line code that
    calls constructors of the CDK and mutates the objects they return.

    ** Files

    - [Prelude] (this file): the state-and-error monad [StateErr] in which
      the constructor is written, its notation (scope [build_scope]), its
      laws, the total-correctness triples [triple] and the failure
      judgement [raises] in which the contract of the constructor and its
      consequences are stated, with their rules, and the shared lemmas on
      lists and paths.
    - [Tokens]: deferred values.  [Token] is a reference to an attribute of
      a declared construct that is only known after provisioning; [TString]
      is a string with embedded tokens, as a list of fragments, with the
      equivalence [tstr_equiv] that merges adjacent literals; [py_format] is
      Python's [str.format] on such strings (line 81 of the stack);
      [resolve] is the resolution of a tokenised string under an environment
      of provisioned values.
    - [Construct]: the construct tree of the CDK, generic in the type of the
      resources: a [Tree] is the list of declared constructs in declaration
      order, keyed by their path; [declare] adds a child to a scope and fails
      on a duplicate id, a missing scope or an unresolved reference;
      [mutate] updates a declared construct in place, which is how the
      aliasing of the Python objects ([self.sg], [asg.user_data], the default
      container) is modelled: a handle is a path into the shared tree.  The
      invariant [tree_ok] and its preservation by every operation are here.
    - [Resources]: the resources the stack declares, one [Record] per CDK
      construct with the keyword arguments of the source as fields, the enums
      of the CDK as [Inductive] types, the sum [Resource] of all of them and
      its instance of the interface [Referencing] (which constructs a
      resource refers to), and the CDK operations the stack calls:
      [add_ingress_rule], [add_commands], [grant_read], [add_ulimits],
      [secret_value_from_json], [socket_address].
    - [Graph]: the dependency graph of a tree (an edge for every
      reference), closedness (no dangling reference), the executable check
      [topo_orderedb] that every construct refers to earlier constructs only,
      the theorem that such a graph is acyclic, and what acyclicity gives
      without an order.  [scoped] is the tree in which a construct depends
      on its scope as well as on what it refers to.
    - [Deploy]: the provisioning engine as far as the graph constrains it,
      generic in the type of the resources: the state of a deployment is the
      list of the constructs created so far, a step [deploy_step] creates a
      construct that is [ready] (declared, not created, its dependencies
      created).  The engine is given the tree [scoped t], so that a
      construct is created after its scope and after what it refers to.
    - [Scheduler]: the interface [Scheduler] of the choice of the next
      construct, the creation loop [deploy_all], and two schedulers, by
      declaration order ([next_ready], which [deploy] runs) and by reverse
      declaration order ([last_ready]).
    - [TreeMap]: the tree as a finite map from paths to constructs
      ([tree_map]), the declaration API on such maps ([map_declare],
      [map_read], [map_write], [map_mutate]), the equivalence [tree_equiv]
      of two trees that hold the same constructs, and the judgements
      [refines] and [order_free] of a build.
    - [Typing]: the kinds of construct the signatures of the library ask
      for ([typed_refs], [well_typed], [tree_typed]).
    - [SonarStack]: the constructor of [sonar_stack.py], block by block in
      the order of the source ([create_vpc], [create_db_secret], [create_sg],
      [create_database], [create_cluster], [create_task_role],
      [create_task], [add_container_ulimits], composed by
      [SonarStack_init]), the declarative description [sonar_graph] of the
      graph it is meant to build, the run of the constructor and its
      contract [SonarStack_init_triple]: run in any well-formed tree under
      a fresh id, it succeeds and extends the tree by exactly
      [sonar_graph].
    - [StackProperties]: the properties of the constructor, each a triple
      derived from the contract, the failures of the constructor, and the
      properties of its blocks.
    - [OrderFree]: every operation of the library, every block and the
      constructor are [order_free].
    - [Provision]: the stack under the engine: the values [env_of] of the
      deferred tokens during a deployment, the outputs [engine_outputs] of
      an engine that gives every database endpoint the port of its engine,
      the range checks [engine_accepts] the constructor leaves to the
      engine, and what the constructor guarantees of every deployment of
      the tree it returns.
    - [Runtime]: the service when it starts: the secret store
      ([credentials_stored], [generated_store], [get_secret_value]), the
      identity service ([may_read], [may_assume]), the start of the
      container ([container_start]: the role is assumed, the environment
      resolved, every secret fetched under the role), the credential the
      database is created with ([master_login]), and the tree
      [without_grants] in which a role is as [iam.Role] leaves it.
    - [App]: [app.py]: the application root, the stack under the id
      ["sonar"], and the structural properties of the synthesised graph and
      of its deployment and of the start of its service.

    ** How the model corresponds to the code

    A Python object of the CDK is a node of the tree and a Python variable
    that holds it is the path of the node, so [self.sg], [asg.user_data]
    and [container] are handles and a mutator called through any of them
    changes the one shared node.  A statement [x = K(scope, id, ...)] is
    [x <- K scope id props], a method call [x.m(...)] that returns nothing
    is [m x ... ;;; _], and an exception is the [inl] branch of the monad,
    which ends the run.  The [**kwargs] of the constructor are a finite map
    from names to values that [SonarStack_init] hands to [Stack], as line 9
    hands them to [super().__init__].  The keyword arguments of a call are a record
    ([sg_props], [database_props], [service_props], ...) whose fields are
    the handles and literals of the source.  The blocks are named after
    the comments of the source and take as arguments the handles that the
    source reads from [self].

    The secret store, the identity service and the container service run
    after the program has ended.  Their definitions in [Runtime] follow the
    specification and read the declarations only: a secret of the
    container is the field of the stored document its declaration names,
    served when an inline statement of the role of the service allows
    [secretsmanager:GetSecretValue] on that secret; managed policies are
    not looked into, and the role the service is declared with is the one
    identity of the service, as in the specification.

    ** What the theorems show

    - the monad laws and the rules of the triples (Prelude);
    - [py_format] is the grammar [Formats] followed by [normalize]; its
      value on brace-free text and on a replacement field, its errors,
      that it invents no token and that it commutes with [resolve]
      (Tokens);
    - every operation on the tree preserves [tree_ok]; [declare] fails
      exactly on its three guards; what a lookup returns after [declare]
      and [mutate]; the class [preserving] of builds that keep the
      invariant, closed under the combinators (Construct);
    - a tree in declaration order is closed and has no dependency cycle;
      the executable checks [closedb] and [topo_orderedb] decide the
      relational definitions (Graph);
    - the run of each library operation on each branch (Resources);
    - refinement: in every well-formed tree, for every declared scope and
      free id, the constructor returns the handles [sonar_handles] and the
      tree extended by exactly [sonar_graph]
      ([SonarStack_init_correct]); it returns exactly when the scope is
      declared and the id is free ([SonarStack_init_succeeds_iff],
      [SonarStack_init_duplicate], [SonarStack_init_no_scope],
      [SonarStack_init_two_stacks]); it changes
      nothing it did not declare ([SonarStack_init_frame]); its keyword
      arguments reach the stack construct and nothing else
      ([SonarStack_init_kwargs]);
    - the properties of section 8 of the specification, each stated of
      the tree the constructor returns: no dangling reference
      ([SonarStack_init_no_dangling]), declaration order and acyclicity
      ([SonarStack_init_acyclic]), the eleven dependency edges
      ([SonarStack_init_dependencies]), the credential by reference only
      ([credential_by_reference]), the ingress port against the port of
      the engine ([ingress_port_mismatch]: the rule opens 3306, the
      engine listens on 5432), the grants of the task role
      ([task_role_grants]), the deferred JDBC URL ([jdbc_url_deferred]),
      the bootstrap commands ([bootstrap_commands_installed]), the
      service ([service_configuration]), the ulimit
      ([container_ulimits]), the handles ([SonarStack_init_handles]);
    - the map view: [tree_map] takes a lookup in the tree to a lookup in
      the map; every operation of the API refines its counterpart on maps
      ([declare_refines], [read_refines], [write_refines],
      [mutate_refines], closed under [bind]), so a build that is made of
      them is [order_free]; closedness, acyclicity, readiness, the steps
      and the deployments of the engine are [Proper] for [tree_equiv]
      (TreeMap); the constructor, run in two trees that hold the same
      constructs in different orders, raises the same error or returns the
      same handles and equivalent trees with the same deployments
      ([SonarStack_init_order_free]);
    - typing: the typed references of a resource are its references, a
      typed tree has no dangling reference, every mutator of the library
      and every well-typed declaration keeps a tree typed (Typing); the
      constructor hands every construct arguments of the kinds its
      signature asks for ([SonarStack_init_typed]);
    - the blocks on their own: the four [add_commands] calls are one
      ([configure_hosts_equiv]); the errors of a block run on a tree that
      lacks what it needs ([configure_hosts_no_capacity],
      [create_sg_unresolved_vpc], [create_task_role_wrong_secret],
      [create_task_wrong_db], [add_container_ulimits_missing]); the
      template of the URL ([jdbc_template_format],
      [jdbc_url_format_resolve]);
    - the engine, for every tree: a deployment creates declared constructs
      once each and after their dependencies ([deployed_ok], an invariant
      of [deploy_step] by rule induction), takes at most as many steps as
      the tree has constructs and is strongly normalising; on a closed tree
      without cycle it is never stuck before it is complete; two complete
      deployments differ by the order only; two consecutive creations of
      which the second does not depend on the first can be exchanged
      (Deploy);
    - the schedulers, against the interface: every run of the loop is a
      deployment, and on a closed tree without cycle it creates every
      construct; the two schedulers implement the interface; by
      declaration order the constructs are created in the order of
      declaration when that order respects the dependencies (Scheduler);
    - the stack under the engine, each stated of the tree the constructor
      returns: every order of creation respects the scopes and the eleven
      edges ([sonar_deploy_order]); from a tree without cycle every
      scheduler creates every construct, no deployment is stuck and every
      one can be completed ([sonar_deploy_live]); the creations of two
      stacks can be interleaved ([sonar_stacks_interleave]); every
      deployment ends, within twelve steps more than before the call
      ([sonar_deploy_terminates]); the scheduler by declaration order
      creates the constructs in the order of the source, and every
      complete deployment the same constructs ([sonar_deploy_schedule]);
      the JDBC URL has no value before the database is created and the
      right one when the service is ([sonar_url_provisioned]); that URL
      names port 5432, which the security group of the database does not
      admit ([sonar_service_refused]); every number the constructor passes
      is within the range the engine accepts ([sonar_within_bounds]);
    - the service of the stack when it starts, each stated of the tree
      the constructor returns: before the database exists the start fails
      for want of the URL, and once the service is created it starts with
      the JDBC URL of the database and with the user name and the
      password the database was created with, whatever password the store
      generated ([sonar_service_credentials]); the role of the stack may
      read the credential of the database and no other secret, is assumed
      by the container service only, and without the grant of line 79
      the start is refused ([sonar_role_access]);
    - the program: [app.py] runs without error and leaves a well-formed,
      closed, acyclic tree of thirteen constructs ([main_sound]); the
      end-to-end scenario of the specification ([main_scenario]); the
      template of the stack and the synthesised assembly
      ([stack_template_sonar], [synth_main_result]); its deployment by the
      two schedulers ([main_deploy]); the start of its service on a
      concrete engine and store ([main_start]).

    Theorems about a run of the constructor are total: they state that
    the constructor returns and what it returns, under the hypotheses that
    the tree is well formed, the scope declared and the id free.  Each is
    applied, in a lemma named after it, to the run of [app.py].

    ** Bounds and fuel

    One definition uses fuel: the creation loop [deploy_all] of the engine,
    which [deploy_with] and [deploy] run with as many steps as the tree has
    constructs.  That is enough: a step creates one construct that was not
    created, so a deployment of a tree of [n] constructs has at most [n]
    steps ([deployed_ok_length]), and with that fuel the loop ends in a
    state where the scheduler chooses nothing, which on a closed tree
    without cycle is a complete deployment ([deploy_all_complete],
    [deploy_with_complete]).  Every other function is structurally
    recursive on a string or a list.  Python integers are
    unbounded and are modelled by [Z]; the ranges the engine imposes on them
    are the checks of [engine_accepts].

    ** Not modelled

    The CDK itself is not part of the repository.  Its behaviour is modelled
    only as far as the stack depends on it and the specification describes
    it: the construct tree with its duplicate-id and reference checks, the
    attributes the stack reads and the mutators it calls.  Defaults the
    source does not set (address space of the network, subnets, generated
    names), the children the library creates below the load-balanced
    service other than the task definition and its container, and the
    CloudFormation serialisation are outside the model.  Of the provisioning
    engine only the creation of constructs in an order compatible with
    their scopes and references, the values of the tokens, the port of a
    database endpoint and the range checks are modelled, from the
    specification; updates, deletion, rollback after a
    failed creation, quotas and the resources themselves are not, as nothing
    of the repository runs at deploy time.  Of the secret store and the
    identity service only what the declarations of the stack constrain is
    modelled: the fields of a generated credential, access by inline
    statement, the trust policy of a role.  The contents of the managed
    policy the role is given, the execution role the library creates
    beside the task role, rotation of the credential, and whole-document
    and parameter-store secrets (which the stack does not use, and for
    which [inject_secret] answers [Unsupported]) are not.  The container
    image is a name the stack passes on: the registry, the pull and the
    process inside the container are not modelled, nor are the load
    balancer, its listener and its health checks, of which the stack sets
    nothing but the port of the container.  The serialisation of the
    template to JSON is the library's; [synth] stops at the template as a
    value.  The import statements of the two files bind names of the
    library and have no counterpart in the model. *)

From stdpp Require Export base tactics option list strings.
From Stdlib Require Export ZArith.

Create HintDb build discriminated.
Create Rewrite HintDb build.

Declare Scope build_scope.
Delimit Scope build_scope with build.

(** ** The state-and-error monad *)

Section state_error.
Context {S E : Type}.

Definition StateErr (A : Type) : Type := S → E + (A * S).

Definition ret {A} (a : A) : StateErr A := λ s, inr (a, s).

Definition bind {A B} (m : StateErr A) (k : A → StateErr B) : StateErr B :=
  λ s, match m s with
       | inl e => inl e
       | inr (a, s') => k a s'
       end.

Definition raise {A} (e : E) : StateErr A := λ _, inl e.

Definition lift_sum {A} (r : E + A) : StateErr A :=
  λ s, match r with
       | inl e => inl e
       | inr a => inr (a, s)
       end.

Definition map_inr {A B} (f : A → B) (r : E + A) : E + B :=
  match r with
  | inl e => inl e
  | inr a => inr (f a)
  end.

(** Total-correctness triples: from every state that satisfies [P], the
    computation [m] returns (it raises no error) a value and a state
    related to the initial state by [Q]. *)
Definition triple {A} (P : S → Prop) (m : StateErr A) (Q : S → A → S → Prop) : Prop :=
  ∀ s, P s → ∃ a s', m s = inr (a, s') ∧ Q s a s'.

(** [raises P m e]: from every state that satisfies [P], [m] fails with [e]. *)
Definition raises {A} (P : S → Prop) (m : StateErr A) (e : E) : Prop :=
  ∀ s, P s → m s = inl e.

End state_error.

Arguments StateErr : clear implicits.
Arguments map_inr {E A B} f r : assert.

Notation "x <- m ;; k" := (bind m (λ x, k))
  (at level 100, m at next level, right associativity,
   format "'[v' x  <-  m  ;; '/' k ']'") : build_scope.
Notation "m ;;; k" := (bind m (λ _, k))
  (at level 100, right associativity,
   format "'[v' m  ;;; '/' k ']'") : build_scope.

Local Open Scope build_scope.

(** ** Laws and run equations *)

Section state_error_laws.
Context {S E : Type}.
Implicit Types (s : S) (e : E).

Lemma bind_ret_l {A B} (a : A) (k : A → StateErr S E B) s :
  bind (ret a) k s = k a s.
Proof. done. Qed.

Lemma bind_ret_r {A} (m : StateErr S E A) s : bind m ret s = m s.
Proof. unfold bind, ret. by destruct (m s) as [|[]]. Qed.

Lemma bind_assoc {A B C} (m : StateErr S E A) (k : A → StateErr S E B)
    (h : B → StateErr S E C) s :
  bind (bind m k) h s = bind m (λ a, bind (k a) h) s.
Proof. unfold bind. by destruct (m s) as [|[]]. Qed.

Lemma bind_ok {A B} (m : StateErr S E A) (k : A → StateErr S E B) s a s' :
  m s = inr (a, s') → bind m k s = k a s'.
Proof. unfold bind. by intros ->. Qed.

Lemma bind_err {A B} (m : StateErr S E A) (k : A → StateErr S E B) s e :
  m s = inl e → bind m k s = inl e.
Proof. unfold bind. by intros ->. Qed.

Lemma bind_ext_l {A B} (m m' : StateErr S E A) (k : A → StateErr S E B) s :
  m s = m' s → bind m k s = bind m' k s.
Proof. unfold bind. by intros ->. Qed.

(** Two builds that start alike are equal when what follows is, from the
    states the start can leave. *)
Lemma bind_ext_r {A B} (m : StateErr S E A) (k1 k2 : A → StateErr S E B) s :
  (∀ a s', m s = inr (a, s') → k1 a s' = k2 a s') → bind m k1 s = bind m k2 s.
Proof. intros H. unfold bind. destruct (m s) as [e|[a s']]; auto. Qed.

Lemma bind_inr_inv {A B} (m : StateErr S E A) (k : A → StateErr S E B) s b s2 :
  bind m k s = inr (b, s2) →
  ∃ a s1, m s = inr (a, s1) ∧ k a s1 = inr (b, s2).
Proof. unfold bind. destruct (m s) as [|[a s1]]; [done | eauto]. Qed.

Lemma bind_inl_inv {A B} (m : StateErr S E A) (k : A → StateErr S E B) s e :
  bind m k s = inl e →
  m s = inl e ∨ ∃ a s1, m s = inr (a, s1) ∧ k a s1 = inl e.
Proof. unfold bind. destruct (m s) as [|[a s1]]; [naive_solver | eauto]. Qed.

Lemma lift_sum_inr {A} (r : E + A) (a : A) s :
  r = inr a → lift_sum r s = inr (a, s).
Proof. by intros ->. Qed.

Lemma lift_sum_inl {A} (r : E + A) e s :
  r = inl e → @lift_sum S E A r s = inl e.
Proof. by intros ->. Qed.

End state_error_laws.

(** ** Rules of the triples *)

Section triples.
Context {S E : Type}.
Implicit Types (s : S) (P : S → Prop).

Lemma triple_ret {A} P (a : A) :
  triple (E:=E) P (ret a) (λ s b s', b = a ∧ s' = s).
Proof. intros s _. by exists a, s. Qed.

Lemma triple_conseq {A} (P P' : S → Prop) (Q Q' : S → A → S → Prop)
    (m : StateErr S E A) :
  triple P m Q →
  (∀ s, P' s → P s) →
  (∀ s a s', P' s → Q s a s' → Q' s a s') →
  triple P' m Q'.
Proof.
  intros Hm HP HQ s Hs. destruct (Hm s (HP s Hs)) as (a & s' & Hrun & Hq).
  exists a, s'. eauto.
Qed.

Lemma triple_bind {A B} P (m : StateErr S E A) (k : A → StateErr S E B)
    (Q : S → A → S → Prop) (R : S → B → S → Prop) :
  triple P m Q →
  (∀ s0 a, triple (λ s1, P s0 ∧ Q s0 a s1) (k a) (λ _ b s2, R s0 b s2)) →
  triple P (bind m k) R.
Proof.
  intros Hm Hk s Hs. destruct (Hm s Hs) as (a & s1 & Hrun & Hq).
  destruct (Hk s a s1 (conj Hs Hq)) as (b & s2 & Hrun' & Hr).
  exists b, s2. by rewrite (bind_ok _ _ _ _ _ Hrun).
Qed.

Lemma raises_bind_l {A B} P (m : StateErr S E A) (k : A → StateErr S E B) e :
  raises P m e → raises P (bind m k) e.
Proof. intros Hm s Hs. by apply bind_err, Hm. Qed.

Lemma raises_bind_r {A B} P (m : StateErr S E A) (k : A → StateErr S E B) Q e :
  triple P m Q →
  (∀ s0 a, raises (λ s1, P s0 ∧ Q s0 a s1) (k a) e) →
  raises P (bind m k) e.
Proof.
  intros Hm Hk s Hs. destruct (Hm s Hs) as (a & s1 & Hrun & Hq).
  rewrite (bind_ok _ _ _ _ _ Hrun). by eapply Hk.
Qed.

Lemma triple_not_raises {A} P (m : StateErr S E A) Q e s :
  triple P m Q → P s → m s ≠ inl e.
Proof. intros Hm Hs. destruct (Hm s Hs) as (a & s' & -> & _). done. Qed.

End triples.

(** ** Strings *)

Lemma string_app_cons c (s1 s2 : string) :
  String c s1 +:+ s2 = String c (s1 +:+ s2).
Proof. reflexivity. Qed.

Lemma string_app_nil_l (s : string) : EmptyString +:+ s = s.
Proof. reflexivity. Qed.

Lemma string_app_nil_r (s : string) : s +:+ EmptyString = s.
Proof. induction s as [|c s IH]; [done|]. by rewrite string_app_cons, IH. Qed.

Lemma string_app_assoc (s1 s2 s3 : string) :
  (s1 +:+ s2) +:+ s3 = s1 +:+ (s2 +:+ s3).
Proof. induction s1 as [|c s1 IH]; [done|]. by rewrite !string_app_cons, IH. Qed.

Lemma string_app_eq_nil (s1 s2 : string) : s1 +:+ s2 = EmptyString → s1 = EmptyString ∧ s2 = EmptyString.
Proof. destruct s1; [done|]. rewrite string_app_cons. discriminate. Qed.

#[export] Hint Rewrite string_app_cons string_app_nil_l string_app_nil_r
  string_app_assoc : build.

(** ** Lists and paths *)

(** A construct path: the identifiers from the root of the tree down to the
    construct. *)
Abbreviation Path := (list string).

Section lists.
Context {A : Type}.
Implicit Types (l k : list A) (x y : A).

Lemma snoc_inj l k x y : l ++ [x] = k ++ [y] → l = k ∧ x = y.
Proof. intros H. by apply app_inj_tail in H. Qed.

Lemma snoc_ne l x y : x ≠ y → l ++ [x] ≠ l ++ [y].
Proof. intros Hxy H. by apply snoc_inj in H as [_ ?]. Qed.

Lemma snoc_ne_self l x : l ++ [x] ≠ l.
Proof.
  intros H. apply (f_equal length) in H. rewrite length_app in H. simpl in H. lia.
Qed.

Lemma app_ne_self l k : k ≠ [] → l ++ k ≠ l.
Proof.
  intros Hk H. apply Hk. apply (app_inv_head l). by rewrite app_nil_r.
Qed.

Lemma filter_none (P : A → Prop) `{!∀ a, Decision (P a)} l :
  Forall (λ a, ¬ P a) l → filter P l = [].
Proof. induction 1; [done|]. by rewrite filter_cons_False. Qed.

Lemma filter_all (P : A → Prop) `{!∀ a, Decision (P a)} l :
  Forall P l → filter P l = l.
Proof.
  induction 1 as [|x l ? ? IH]; [done|]. rewrite filter_cons_True by done. by f_equal.
Qed.

(** A list is not an extension of itself by one element. *)
Lemma prefix_snoc_not (l : list A) (a : A) : ¬ (l ++ [a]) `prefix_of` l.
Proof.
  intros H%prefix_length. rewrite length_app in H. simpl in H. lia.
Qed.

Lemma fmap_fst_pair {B} (b : B) (l : list A) : ((., b) <$> l).*1 = l.
Proof. rewrite <- list_fmap_compose. apply list_fmap_id. Qed.

Lemma forallb_ext (f g : A → bool) l :
  (∀ a, f a = g a) → forallb f l = forallb g l.
Proof. intros H. induction l as [|a l IH]; simpl; [done|]. by rewrite H, IH. Qed.

Lemma find_app_skip (f : A → bool) l k :
  (∀ a, a ∈ l → f a = false) → find f (l ++ k) = find f k.
Proof.
  induction l as [|a l IH]; intros Hl; [done|]. cbn [app find].
  rewrite Hl by left. apply IH. intros b Hb. apply Hl. by right.
Qed.

Lemma Forall_elem_of_weaken (xs l l' : list A) :
  Forall (.∈ l) xs → l ⊆ l' → Forall (.∈ l') xs.
Proof. intros H Hsub. eapply Forall_impl; [done|]. intros x. apply Hsub. Qed.

End lists.

#[export] Hint Resolve snoc_ne snoc_ne_self app_ne_self : build.

(** ** Tactics *)

(** [str_neq] proves that two distinct string literals differ. *)
Ltac str_neq := let H := fresh in intros H; discriminate H.

(** [path_neq] proves disequalities between paths that extend a common
    prefix by distinct literal identifiers. *)
(** [elem_of_list] proves [x ∈ l] for an [x] displayed in [l]. *)
Ltac elem_of_list :=
  solve [repeat first [apply list_elem_of_here | apply list_elem_of_further]].

Ltac path_neq :=
  rewrite <- ?app_assoc; cbn [app];
  solve
    [ apply snoc_ne_self
    | apply not_eq_sym, snoc_ne_self
    | apply app_ne_self; discriminate
    | apply not_eq_sym, app_ne_self; discriminate
    | let H := fresh in intros H; apply app_inv_head in H; discriminate H
    | discriminate ].

(** [run_step lem by tac] runs the first computation of a [bind] with the
    run equation [lem], whose premises [tac] must prove, and continues with
    the rest of the build. *)
Tactic Notation "run_step" uconstr(lem) "by" tactic3(tac) :=
  eapply eq_trans; [eapply bind_ok; eapply lem; solve [tac]|]; cbv beta iota.

Tactic Notation "run_step" uconstr(lem) := run_step lem by done.

(** ** Induction principles and sums *)

(** Induction on the length of a string, for scanners that look one
    character ahead. *)
Lemma string_len_ind (P : string → Prop) :
  (∀ s, (∀ s', String.length s' < String.length s → P s') → P s) →
  ∀ s, P s.
Proof.
  intros Hstep s. remember (String.length s) as n eqn:Hn.
  revert s Hn. induction (lt_wf n) as [n _ IH]. intros s ->.
  apply Hstep. intros s' Hlt. by eapply IH.
Qed.

Lemma map_inr_inv {E A B} (f : A → B) (r : E + A) (b : B) :
  map_inr f r = inr b → ∃ a, r = inr a ∧ b = f a.
Proof. destruct r; [done|]. intros [= <-]. eauto. Qed.

Lemma map_inr_inr {E A B} (f : A → B) (a : A) : map_inr (E:=E) f (inr a) = inr (f a).
Proof. done. Qed.

Lemma map_inr_compose {E A B C} (f : A → B) (g : B → C) (r : E + A) :
  map_inr g (map_inr f r) = map_inr (g ∘ f) r.
Proof. by destruct r. Qed.
