(* ===== verification/Tokens.v ===== *)
(** * Tokens: deferred values, tokenised strings and [str.format]

    A value of a resource that is only known once the resource is
    provisioned (the address of the database) is a [Token]; a string that
    embeds such values is a [TString], a list of literal and token
    fragments.  Two lists denote the same string when they agree after
    adjacent literals are merged ([tstr_equiv]).  [py_format] is Python's
    [str.format] restricted to automatically numbered replacement fields,
    which is what the stack uses to build the JDBC URL; [resolve] is what
    the provisioning engine does with a tokenised string. *)

From Stdlib Require Import Ascii.
From S2P Require Import Prelude.

(** ** Data *)

(** A deferred attribute [tok_attr] of the construct at [tok_target]. *)
Record Token := mkToken { tok_target : Path; tok_attr : string }.

Inductive Frag :=
| FLit (s : string)
| FTok (t : Token).

Abbreviation TString := (list Frag).

#[export] Instance Token_eq_dec : EqDecision Token.
Proof. solve_decision. Defined.

#[export] Instance Frag_eq_dec : EqDecision Frag.
Proof. solve_decision. Defined.

(** The errors of [str.format]: [ValueError] for a lone brace, [IndexError]
    when the replacement fields outnumber the arguments; a named, numbered
    or formatted field is outside the fragment that is modelled. *)
Inductive FormatError :=
| SingleOpenBrace
| SingleCloseBrace
| IndexOutOfRange
| UnsupportedField.

#[export] Instance FormatError_eq_dec : EqDecision FormatError.
Proof. solve_decision. Defined.

(** ** Operations *)

Definition lit (s : string) : TString := [FLit s].

Definition frag_tokens (f : Frag) : list Token :=
  match f with
  | FLit _ => []
  | FTok t => [t]
  end.

Definition tokens_of (ts : TString) : list Token := ts ≫= frag_tokens.

Definition is_literal (ts : TString) : bool :=
  forallb (λ f, match f with FLit _ => true | FTok _ => false end) ts.

(** [frag_cons f r] puts [f] in front of the canonical string [r]: a literal
    merges with a literal that follows it, and an empty literal vanishes. *)
Definition frag_cons (f : Frag) (r : TString) : TString :=
  match f, r with
  | FLit s, FLit s' :: r' => FLit (s +:+ s') :: r'
  | FLit EmptyString, _ => r
  | _, _ => f :: r
  end.

Definition normalize (ts : TString) : TString := foldr frag_cons [] ts.

Definition tstr_equiv (a b : TString) : Prop := normalize a = normalize b.

#[export] Instance tstr_equiv_inst : Equiv TString := tstr_equiv.

Fixpoint brace_free (s : string) : bool :=
  match s with
  | EmptyString => true
  | String c s' =>
      negb (Ascii.eqb c "{"%char) && negb (Ascii.eqb c "}"%char) && brace_free s'
  end.

(** One literal fragment per character. *)
Fixpoint lits (s : string) : TString :=
  match s with
  | EmptyString => []
  | String c s' => FLit (String c EmptyString) :: lits s'
  end.

(** The scanner of [str.format]: doubled braces are escapes, ["{}"] takes
    the next argument, anything else after a brace is an error. *)
Fixpoint format_go (tpl : string) (args : list TString) : FormatError + TString :=
  match tpl with
  | EmptyString => inr []
  | String c rest =>
      if Ascii.eqb c "{"%char then
        match rest with
        | EmptyString => inl SingleOpenBrace
        | String d rest' =>
            if Ascii.eqb d "{"%char then map_inr (cons (FLit "{")) (format_go rest' args)
            else if Ascii.eqb d "}"%char then
              match args with
              | [] => inl IndexOutOfRange
              | a :: args' => map_inr (app a) (format_go rest' args')
              end
            else inl UnsupportedField
        end
      else if Ascii.eqb c "}"%char then
        match rest with
        | EmptyString => inl SingleCloseBrace
        | String d rest' =>
            if Ascii.eqb d "}"%char then map_inr (cons (FLit "}")) (format_go rest' args)
            else inl SingleCloseBrace
        end
      else map_inr (cons (FLit (String c EmptyString))) (format_go rest args)
  end.

(** [tpl.format( *args )], the result in canonical form. *)
Definition py_format (tpl : string) (args : list TString) : FormatError + TString :=
  map_inr normalize (format_go tpl args).

Definition frag_resolve (env : Token → option string) (f : Frag) : option string :=
  match f with
  | FLit s => Some s
  | FTok t => env t
  end.

(** The string a tokenised string stands for once [env] gives the value of
    its tokens; [None] while a token has no value. *)
Fixpoint resolve (env : Token → option string) (ts : TString) : option string :=
  match ts with
  | [] => Some EmptyString
  | f :: ts' =>
      s ← frag_resolve env f; r ← resolve env ts'; Some (s +:+ r)
  end.

(** The environment before provisioning: no token has a value. *)
Definition unprovisioned : Token → option string := λ _, None.

(** ** Specification of the scanner

    [Formats tpl args r]: the template [tpl] applied to [args] yields the
    fragments [r]; one rule per production of the format-string grammar. *)
Inductive Formats : string → list TString → TString → Prop :=
| Formats_nil args :
    Formats EmptyString args []
| Formats_char c rest args r :
    c ≠ "{"%char → c ≠ "}"%char →
    Formats rest args r →
    Formats (String c rest) args (FLit (String c EmptyString) :: r)
| Formats_open rest args r :
    Formats rest args r →
    Formats (String "{" (String "{" rest)) args (FLit "{" :: r)
| Formats_close rest args r :
    Formats rest args r →
    Formats (String "}" (String "}" rest)) args (FLit "}" :: r)
| Formats_field rest a args r :
    Formats rest args r →
    Formats (String "{" (String "}" rest)) (a :: args) (a ++ r).

(** The shapes of a template the scanner distinguishes. *)
Inductive HeadView : string → Prop :=
| HV_nil : HeadView EmptyString
| HV_char c rest : c ≠ "{"%char → c ≠ "}"%char → HeadView (String c rest)
| HV_open_open rest : HeadView (String "{" (String "{" rest))
| HV_field rest : HeadView (String "{" (String "}" rest))
| HV_open_end : HeadView (String "{" EmptyString)
| HV_open_other d rest :
    d ≠ "{"%char → d ≠ "}"%char → HeadView (String "{" (String d rest))
| HV_close_close rest : HeadView (String "}" (String "}" rest))
| HV_close_end : HeadView (String "}" EmptyString)
| HV_close_other d rest : d ≠ "}"%char → HeadView (String "}" (String d rest)).

(** ** Canonical form and equivalence *)

Section normalize.
Implicit Types (f : Frag) (r x y a b ts : TString) (s : string).

Lemma frag_cons_empty r : frag_cons (FLit EmptyString) r = r.
Proof. by destruct r as [|[]]. Qed.

Lemma frag_cons_tok t r : frag_cons (FTok t) r = FTok t :: r.
Proof. done. Qed.

Lemma frag_cons_lit_lit s s' r : frag_cons (FLit s) (FLit s' :: r) = FLit (s +:+ s') :: r.
Proof. by destruct s. Qed.

Lemma frag_cons_lit_app s s' y :
  frag_cons (FLit (s +:+ s')) y = frag_cons (FLit s) (frag_cons (FLit s') y).
Proof.
  destruct y as [|[t|t] y].
  - destruct s'; [by rewrite string_app_nil_r, !frag_cons_empty|].
    destruct s; done.
  - by rewrite !frag_cons_lit_lit, string_app_assoc.
  - destruct s'; [by rewrite string_app_nil_r, !frag_cons_empty|].
    destruct s; done.
Qed.

Lemma normalize_cons f ts : normalize (f :: ts) = frag_cons f (normalize ts).
Proof. done. Qed.

Lemma foldr_frag_cons_comm f x r :
  foldr frag_cons r (frag_cons f x) = frag_cons f (foldr frag_cons r x).
Proof.
  destruct f as [s|t]; [|done].
  destruct x as [|[s'|t] x].
  - destruct s; [by rewrite !frag_cons_empty | done].
  - rewrite frag_cons_lit_lit. cbn [foldr]. by rewrite frag_cons_lit_app.
  - destruct s; [by rewrite !frag_cons_empty | done].
Qed.

Lemma foldr_frag_cons_normalize r a :
  foldr frag_cons r (normalize a) = foldr frag_cons r a.
Proof.
  induction a as [|f a IH]; [done|].
  by rewrite normalize_cons, foldr_frag_cons_comm, IH.
Qed.

Lemma normalize_app a b : normalize (a ++ b) = foldr frag_cons (normalize b) a.
Proof. unfold normalize. by rewrite foldr_app. Qed.

Lemma normalize_idemp ts : normalize (normalize ts) = normalize ts.
Proof. apply foldr_frag_cons_normalize. Qed.

Lemma normalize_app_normalize a b :
  normalize (normalize a ++ normalize b) = normalize (a ++ b).
Proof. by rewrite !normalize_app, normalize_idemp, foldr_frag_cons_normalize. Qed.

#[export] Instance tstr_equiv_equivalence : Equivalence (≡@{TString}).
Proof.
  unfold equiv, tstr_equiv_inst, tstr_equiv. split.
  - by intros ?.
  - by intros ??.
  - intros ??? -> ->. done.
Qed.

#[export] Instance tstr_equiv_dec : RelDecision (≡@{TString}).
Proof. intros a b. unfold equiv, tstr_equiv_inst, tstr_equiv. apply _. Defined.

#[export] Instance normalize_proper : Proper ((≡) ==> (=)) normalize.
Proof. by intros ???. Qed.

#[export] Instance tstr_app_proper : Proper ((≡) ==> (≡) ==> (≡)) (@app Frag).
Proof.
  intros a a' Ha b b' Hb. unfold equiv, tstr_equiv_inst, tstr_equiv in *.
  by rewrite <- (normalize_app_normalize a b), Ha, Hb, normalize_app_normalize.
Qed.

#[export] Instance tstr_cons_proper f : Proper ((≡) ==> (≡)) (cons f).
Proof. intros a a' Ha. apply (tstr_app_proper [f] [f]); done. Qed.

Lemma normalize_equiv ts : normalize ts ≡ ts.
Proof. apply normalize_idemp. Qed.

Lemma normalize_lits_app s r : normalize (lits s ++ r) = frag_cons (FLit s) (normalize r).
Proof.
  induction s as [|c s IH]; [by rewrite frag_cons_empty|].
  cbn [lits app]. by rewrite normalize_cons, IH, <- frag_cons_lit_app.
Qed.

Lemma lits_equiv s : lits s ≡ lit s.
Proof.
  unfold equiv, tstr_equiv_inst, tstr_equiv.
  by rewrite <- (app_nil_r (lits s)), normalize_lits_app.
Qed.

Lemma tokens_of_cons f ts : tokens_of (f :: ts) = frag_tokens f ++ tokens_of ts.
Proof. done. Qed.

Lemma tokens_of_app a b : tokens_of (a ++ b) = tokens_of a ++ tokens_of b.
Proof. unfold tokens_of. apply bind_app. Qed.

Lemma tokens_of_frag_cons f r : tokens_of (frag_cons f r) = tokens_of (f :: r).
Proof. destruct f as [[|]|], r as [|[]]; done. Qed.

Lemma tokens_of_normalize ts : tokens_of (normalize ts) = tokens_of ts.
Proof.
  induction ts as [|f ts IH]; [done|].
  by rewrite normalize_cons, tokens_of_frag_cons, !tokens_of_cons, IH.
Qed.

#[export] Instance tokens_of_proper : Proper ((≡) ==> (=)) tokens_of.
Proof.
  intros a b Hab. by rewrite <- (tokens_of_normalize a), Hab, tokens_of_normalize.
Qed.

Lemma tokens_of_lits s : tokens_of (lits s) = [].
Proof. induction s; done. Qed.

Lemma is_literal_tokens ts : is_literal ts = true ↔ tokens_of ts = [].
Proof.
  induction ts as [|[s|t] ts IH]; [done | exact IH | split; intros H; simplify_eq/=].
Qed.

End normalize.

(** ** The scanner *)

Section format.
Implicit Types (tpl pre post rest : string) (args : list TString) (r a : TString).

Lemma head_view tpl : HeadView tpl.
Proof.
  destruct tpl as [|c rest]; [apply HV_nil|].
  destruct (decide (c = "{"%char)) as [->|Hc].
  - destruct rest as [|d rest]; [apply HV_open_end|].
    destruct (decide (d = "{"%char)) as [->|]; [apply HV_open_open|].
    destruct (decide (d = "}"%char)) as [->|]; [apply HV_field|].
    by apply HV_open_other.
  - destruct (decide (c = "}"%char)) as [->|]; [|by apply HV_char].
    destruct rest as [|d rest]; [apply HV_close_end|].
    destruct (decide (d = "}"%char)) as [->|]; [apply HV_close_close|].
    by apply HV_close_other.
Qed.

Lemma ascii_eqb_ne (c d : ascii) : c ≠ d → Ascii.eqb c d = false.
Proof. by intros ?; apply Ascii.eqb_neq. Qed.

Lemma format_go_char c rest args :
  c ≠ "{"%char → c ≠ "}"%char →
  format_go (String c rest) args
  = map_inr (cons (FLit (String c EmptyString))) (format_go rest args).
Proof.
  intros H1 H2. cbn [format_go].
  by rewrite (ascii_eqb_ne c "{"%char), (ascii_eqb_ne c "}"%char).
Qed.

Lemma format_go_open_other d rest args :
  d ≠ "{"%char → d ≠ "}"%char →
  format_go (String "{" (String d rest)) args = inl UnsupportedField.
Proof.
  intros H1 H2. cbn [format_go].
  by rewrite (ascii_eqb_ne d "{"%char), (ascii_eqb_ne d "}"%char).
Qed.

Lemma format_go_close_other d rest args :
  d ≠ "}"%char →
  format_go (String "}" (String d rest)) args = inl SingleCloseBrace.
Proof. intros H1. cbn [format_go]. by rewrite (ascii_eqb_ne d "}"%char). Qed.

Lemma format_go_open_open rest args :
  format_go (String "{" (String "{" rest)) args
  = map_inr (cons (FLit "{")) (format_go rest args).
Proof. done. Qed.

Lemma format_go_close_close rest args :
  format_go (String "}" (String "}" rest)) args
  = map_inr (cons (FLit "}")) (format_go rest args).
Proof. done. Qed.

Lemma format_go_field rest a args :
  format_go (String "{" (String "}" rest)) (a :: args)
  = map_inr (app a) (format_go rest args).
Proof. done. Qed.

Lemma format_go_field_nil rest :
  format_go (String "{" (String "}" rest)) [] = inl IndexOutOfRange.
Proof. done. Qed.

Lemma format_go_sound tpl args r : format_go tpl args = inr r → Formats tpl args r.
Proof.
  revert args r. induction tpl as [tpl IH] using string_len_ind.
  intros args r H. destruct (head_view tpl) as [|c rest| | | | | | |].
  - injection H as <-. apply Formats_nil.
  - rewrite format_go_char in H by done.
    apply map_inr_inv in H as (r0 & H & ->). apply Formats_char; [done..|].
    apply IH; [simpl; lia | done].
  - rewrite format_go_open_open in H.
    apply map_inr_inv in H as (r0 & H & ->). apply Formats_open.
    apply IH; [simpl; lia | done].
  - destruct args as [|a args]; [done|]. rewrite format_go_field in H.
    apply map_inr_inv in H as (r0 & H & ->). apply Formats_field.
    apply IH; [simpl; lia | done].
  - done.
  - by rewrite format_go_open_other in H.
  - rewrite format_go_close_close in H.
    apply map_inr_inv in H as (r0 & H & ->). apply Formats_close.
    apply IH; [simpl; lia | done].
  - done.
  - by rewrite format_go_close_other in H.
Qed.

Lemma format_go_complete tpl args r : Formats tpl args r → format_go tpl args = inr r.
Proof.
  induction 1 as [|c rest args r ?? _ IH|rest args r _ IH|rest args r _ IH
                  |rest a args r _ IH]; [done|..].
  - by rewrite format_go_char, IH.
  - by rewrite format_go_open_open, IH.
  - by rewrite format_go_close_close, IH.
  - by rewrite format_go_field, IH.
Qed.

Lemma format_go_brace_free pre rest args :
  brace_free pre = true →
  format_go (pre +:+ rest) args = map_inr (app (lits pre)) (format_go rest args).
Proof.
  induction pre as [|c pre IH]; intros Hpre.
  - rewrite string_app_nil_l. by destruct (format_go rest args).
  - cbn [brace_free] in Hpre. apply andb_prop in Hpre as [Hc Hpre].
    apply andb_prop in Hc as [Hc1 Hc2].
    apply negb_true_iff, Ascii.eqb_neq in Hc1, Hc2.
    rewrite string_app_cons, format_go_char, IH by done.
    by destruct (format_go rest args).
Qed.

End format.

(** ** Resolution *)

Section resolve.
Context (env : Token → option string).
Implicit Types (a b r ts : TString) (s : string) (f : Frag).

Lemma resolve_cons f ts :
  resolve env (f :: ts)
  = s ← frag_resolve env f; r ← resolve env ts; Some (s +:+ r).
Proof. done. Qed.

Lemma resolve_cons_lit s ts :
  resolve env (FLit s :: ts) = String.append s <$> resolve env ts.
Proof. rewrite resolve_cons. by destruct (resolve env ts). Qed.

Lemma resolve_app a b :
  resolve env (a ++ b)
  = x ← resolve env a; y ← resolve env b; Some (x +:+ y).
Proof.
  induction a as [|f a IH].
  - cbn [app resolve]. by destruct (resolve env b).
  - cbn [app]. rewrite !resolve_cons, IH.
    destruct (frag_resolve env f), (resolve env a), (resolve env b); simpl; try done.
    by rewrite string_app_assoc.
Qed.

Lemma resolve_frag_cons f r : resolve env (frag_cons f r) = resolve env (f :: r).
Proof.
  destruct f as [s|t]; [|done]. destruct r as [|[s'|t] r].
  - by destruct s.
  - rewrite frag_cons_lit_lit, !resolve_cons. simpl.
    destruct (resolve env r); simpl; [|done]. by rewrite string_app_assoc.
  - destruct s; [|done]. rewrite frag_cons_empty, resolve_cons_lit.
    by destruct (resolve env (FTok t :: r)).
Qed.

Lemma resolve_normalize ts : resolve env (normalize ts) = resolve env ts.
Proof.
  induction ts as [|f ts IH]; [done|].
  by rewrite normalize_cons, resolve_frag_cons, !resolve_cons, IH.
Qed.

#[export] Instance resolve_proper : Proper ((≡) ==> (=)) (resolve env).
Proof.
  intros a b Hab. by rewrite <- (resolve_normalize a), Hab, resolve_normalize.
Qed.

Lemma resolve_lit s : resolve env (lit s) = Some s.
Proof. simpl. by rewrite string_app_nil_r. Qed.

Lemma resolve_lits s : resolve env (lits s) = Some s.
Proof. by rewrite (lits_equiv s), resolve_lit. Qed.

Lemma resolve_Some_iff ts :
  is_Some (resolve env ts) ↔ Forall (λ t, is_Some (env t)) (tokens_of ts).
Proof.
  induction ts as [|[s|t] ts IH].
  - split; [constructor | by eexists].
  - rewrite resolve_cons, tokens_of_cons. simpl. rewrite <- IH.
    destruct (resolve env ts); simpl; split; intros [? ?]; by eauto.
  - rewrite resolve_cons, tokens_of_cons. simpl. rewrite Forall_cons, <- IH.
    destruct (env t), (resolve env ts); simpl; split;
      try (intros [[? ?] [? ?]]); try (intros [? ?]); by eauto.
Qed.

End resolve.

(** ** Properties of [py_format] *)

Section format_properties.
Implicit Types (tpl pre post : string) (args : list TString) (r a : TString).

Lemma resolve_literal_env env env' ts :
  tokens_of ts = [] → resolve env ts = resolve env' ts.
Proof.
  induction ts as [|[s|t] ts IH]; [done| |done].
  intros Hts. by rewrite !resolve_cons_lit, IH.
Qed.

Lemma Formats_tokens tpl args r t :
  Formats tpl args r → t ∈ tokens_of r → ∃ a, a ∈ args ∧ t ∈ tokens_of a.
Proof.
  induction 1 as [|c rest args r ?? _ IH|rest args r _ IH|rest args r _ IH
                  |rest a args r _ IH]; [by intros ?%elem_of_nil|auto..|].
  rewrite tokens_of_app, elem_of_app. intros [Ht|Ht].
  - exists a. split; [left | done].
  - destruct (IH Ht) as (a' & ? & ?). exists a'. split; [by right | done].
Qed.

Lemma Formats_resolve env tpl args r ss :
  Formats tpl args r →
  Forall2 (λ a s, resolve env a = Some s) args ss →
  ∃ r', Formats tpl (lit <$> ss) r' ∧ tokens_of r' = []
        ∧ resolve env r = resolve env r'.
Proof.
  intros HF. revert ss.
  induction HF as [|c rest args r ?? _ IH|rest args r _ IH|rest args r _ IH
                   |rest a args r _ IH]; intros ss Hss.
  - exists []. split; [apply Formats_nil | done].
  - destruct (IH ss Hss) as (r' & ? & ? & Hr). eexists. split; [by apply Formats_char|].
    by rewrite !resolve_cons_lit, Hr.
  - destruct (IH ss Hss) as (r' & ? & ? & Hr). eexists. split; [by apply Formats_open|].
    by rewrite !resolve_cons_lit, Hr.
  - destruct (IH ss Hss) as (r' & ? & ? & Hr). eexists. split; [by apply Formats_close|].
    by rewrite !resolve_cons_lit, Hr.
  - apply Forall2_cons_inv_l in Hss as (s & ss' & Ha & Hss & ->).
    destruct (IH ss' Hss) as (r' & ? & ? & Hr). exists (lit s ++ r').
    split; [by apply Formats_field|]. split; [by rewrite tokens_of_app|].
    by rewrite !resolve_app, Ha, resolve_lit, Hr.
Qed.

(** The scanner implements the grammar: [py_format] returns the canonical
    form of the fragments the grammar derives, and fails when it derives
    none. *)
Theorem py_format_spec tpl args r :
  py_format tpl args = inr r ↔ ∃ r0, Formats tpl args r0 ∧ r = normalize r0.
Proof.
  unfold py_format. split.
  - intros (r0 & H & ->)%map_inr_inv. eauto using format_go_sound.
  - intros (r0 & H & ->). by rewrite (format_go_complete _ _ _ H).
Qed.

(** A template without braces is returned as it is, whatever the arguments. *)
Theorem py_format_literal tpl args :
  brace_free tpl = true → py_format tpl args = inr (normalize (lit tpl)).
Proof.
  intros H. unfold py_format.
  rewrite <- (string_app_nil_r tpl), format_go_brace_free by done.
  rewrite string_app_nil_r. cbn [format_go]. rewrite !map_inr_inr, app_nil_r.
  f_equal. apply lits_equiv.
Qed.

(** One replacement field: the text before it, the first argument, and the
    rest of the template formatted with the remaining arguments. *)
Theorem py_format_field pre post a args r :
  brace_free pre = true →
  py_format post args = inr r →
  py_format (pre +:+ "{}" +:+ post) (a :: args)
  = inr (normalize (FLit pre :: a ++ r)).
Proof.
  intros Hpre (r0 & H & ->)%py_format_spec. unfold py_format.
  rewrite format_go_brace_free by done. change ("{}" +:+ post) with (String "{" (String "}" post)).
  rewrite format_go_field, (format_go_complete _ _ _ H), !map_inr_inr. f_equal.
  rewrite normalize_lits_app, normalize_cons. f_equal.
  apply tstr_app_proper; [done|]. symmetry. apply normalize_equiv.
Qed.

(** A replacement field with no argument left is Python's [IndexError]. *)
Theorem py_format_index_error pre post :
  brace_free pre = true →
  py_format (pre +:+ "{}" +:+ post) [] = inl IndexOutOfRange.
Proof.
  intros Hpre. unfold py_format. by rewrite format_go_brace_free.
Qed.

(** Formatting invents no token: every token of the result is a token of
    one of the arguments. *)
Theorem py_format_tokens tpl args r t :
  py_format tpl args = inr r →
  t ∈ tokens_of r →
  ∃ a, a ∈ args ∧ t ∈ tokens_of a.
Proof.
  intros (r0 & H & ->)%py_format_spec. rewrite tokens_of_normalize.
  by eapply Formats_tokens.
Qed.

(** Formatting commutes with resolution: resolving the formatted string
    under [env] gives the string that formatting the resolved arguments
    gives. *)
Theorem py_format_resolve env tpl args ss r :
  py_format tpl args = inr r →
  Forall2 (λ a s, resolve env a = Some s) args ss →
  ∃ r', py_format tpl (lit <$> ss) = inr r'
        ∧ is_literal r' = true
        ∧ resolve env r = resolve unprovisioned r'.
Proof.
  intros (r0 & H & ->)%py_format_spec Hss.
  destruct (Formats_resolve env _ _ _ _ H Hss) as (r' & H' & Htok & Hr).
  exists (normalize r'). split; [apply py_format_spec; eauto|].
  split; [by rewrite is_literal_tokens, tokens_of_normalize|].
  rewrite !resolve_normalize, Hr. by apply resolve_literal_env.
Qed.

(** A string that embeds a token has no value before provisioning. *)
Theorem resolve_unprovisioned ts :
  tokens_of ts ≠ [] → resolve unprovisioned ts = None.
Proof.
  intros Hts. destruct (resolve unprovisioned ts) eqn:Hr; [|done].
  assert (is_Some (resolve unprovisioned ts)) as H%resolve_Some_iff by eauto.
  destruct (tokens_of ts) as [|t ?]; [done|].
  by apply Forall_cons in H as [[? ?] _].
Qed.

(** A literal string resolves to the same value under every environment. *)
Theorem resolve_literal env ts :
  is_literal ts = true →
  is_Some (resolve env ts) ∧ resolve env ts = resolve unprovisioned ts.
Proof.
  intros Hts%is_literal_tokens. split; [|by apply resolve_literal_env].
  apply resolve_Some_iff. by rewrite Hts.
Qed.

End format_properties.
