(* ===== verification/Construct.v ===== *)
(** * Construct: the construct tree

    Every construct of the CDK is created inside a scope under an
    identifier: [Construct(scope, id)] adds a child [id] to [scope] and
    raises an error when the scope already has a child of that name.  The
    tree is kept here as the list of the declared constructs in declaration
    order, each with its path; a handle on a construct (a Python object
    reference) is its path, so that every alias of a construct reads and
    mutates the same entry.  The file is generic in the type of resources:
    all it needs is [refs], the constructs a resource refers to. *)

From S2P Require Import Prelude Tokens.

(** ** Data *)

(** The errors of a build.  [DuplicateId], [NoSuchConstruct] and
    [UnresolvedReference] are the checks of the declaration API; the others
    are the Python errors the constructor of the stack can run into. *)
Inductive BuildError :=
| DuplicateId (p : Path)
| NoSuchConstruct (p : Path)
| UnresolvedReference (p q : Path)
| WrongKind (p : Path)
| NoAttribute (p : Path) (attr : string)
| FormatFailure (e : FormatError).

#[export] Instance BuildError_eq_dec : EqDecision BuildError.
Proof. solve_decision. Defined.

(** What a resource promises to the tree: the constructs it refers to. *)
Class Referencing (R : Type) := refs : R → list Path.
#[export] Hint Mode Referencing ! : typeclass_instances.

Abbreviation Tree R := (list (Path * R)).
Abbreviation Build R := (StateErr (Tree R) BuildError).

(** ** Operations *)

Section tree.
Context {R : Type} `{!Referencing R}.
Implicit Types (t : Tree R) (p q scope : Path) (id : string) (r : R).

Definition paths t : list Path := t.*1.

Fixpoint tree_lookup p t : option R :=
  match t with
  | [] => None
  | (q, r) :: t' => if decide (p = q) then Some r else tree_lookup p t'
  end.

Fixpoint tree_update p (r' : R) t : Tree R :=
  match t with
  | [] => []
  | (q, r) :: t' =>
      if decide (p = q) then (q, r') :: t' else (q, r) :: tree_update p r' t'
  end.

(** The first of [qs] that is not declared in [t]. *)
Fixpoint unresolved t (qs : list Path) : option Path :=
  match qs with
  | [] => None
  | q :: qs' => if decide (q ∈ paths t) then unresolved t qs' else Some q
  end.

(** [Construct(scope, id)] holding the resource [r]: the scope must be
    declared, the identifier free in it, and every construct [r] refers to
    declared.  The handle on the new construct is returned. *)
Definition declare scope id r : Build R Path :=
  λ t,
    let p := scope ++ [id] in
    if decide (scope ∈ paths t) then
      if decide (p ∈ paths t) then inl (DuplicateId p)
      else match unresolved t (refs r) with
           | Some q => inl (UnresolvedReference p q)
           | None => inr (p, t ++ [(p, r)])
           end
    else inl (NoSuchConstruct scope).

(** Dereference a handle. *)
Definition read p : Build R R :=
  λ t, match tree_lookup p t with
       | Some r => inr (r, t)
       | None => inl (NoSuchConstruct p)
       end.

(** Store [r'] in the construct at [p], after the reference check. *)
Definition write p (r' : R) : Build R unit :=
  λ t, match unresolved t (refs r') with
       | Some q => inl (UnresolvedReference p q)
       | None => inr ((), tree_update p r' t)
       end.

(** Mutate the construct at [p] in place with the method [f]. *)
Definition mutate p (f : R → BuildError + R) : Build R unit :=
  (r <- read p ;;
   r' <- lift_sum (f r) ;;
   write p r')%build.

(** ** Invariant *)

(** No two constructs share a path; every construct but the root has its
    scope in the tree; every reference resolves. *)
Record tree_ok t : Prop := TreeOk {
  ok_nodup : NoDup (paths t);
  ok_scope : ∀ scope id, scope ++ [id] ∈ paths t → scope ∈ paths t;
  ok_closed : ∀ p r q, (p, r) ∈ t → q ∈ refs r → q ∈ paths t
}.

(** [preserving m]: whenever [m] returns, it returns a well-formed tree if
    it was given one. *)
Definition preserving {A} (m : Build R A) : Prop :=
  ∀ t a t', tree_ok t → m t = inr (a, t') → tree_ok t'.

End tree.

(** ** Lookup and update *)

Section tree_lemmas.
Context {R : Type} `{!Referencing R}.
Implicit Types (t : Tree R) (p q scope : Path) (id : string) (r : R).

Lemma paths_app t1 t2 : paths (t1 ++ t2) = paths t1 ++ paths t2.
Proof. apply fmap_app. Qed.

Lemma paths_cons p r t : paths ((p, r) :: t) = p :: paths t.
Proof. done. Qed.

Lemma paths_snoc t p r : paths (t ++ [(p, r)]) = paths t ++ [p].
Proof. apply paths_app. Qed.

Lemma elem_of_paths p t : p ∈ paths t ↔ ∃ r, (p, r) ∈ t.
Proof.
  unfold paths. rewrite list_elem_of_fmap. split.
  - intros ([q r] & -> & ?). by exists r.
  - intros (r & ?). by exists (p, r).
Qed.

Lemma tree_lookup_cons_eq p r t : tree_lookup p ((p, r) :: t) = Some r.
Proof. simpl. by rewrite decide_True. Qed.

Lemma tree_lookup_cons_ne p q r t :
  p ≠ q → tree_lookup p ((q, r) :: t) = tree_lookup p t.
Proof. intros. simpl. by rewrite decide_False. Qed.

Lemma tree_lookup_None p t : tree_lookup p t = None ↔ p ∉ paths t.
Proof.
  induction t as [|[q r] t IH]; simpl.
  - split; [intros _; apply not_elem_of_nil | done].
  - rewrite not_elem_of_cons. case_decide; naive_solver.
Qed.

Lemma tree_lookup_is_Some p t : is_Some (tree_lookup p t) ↔ p ∈ paths t.
Proof.
  rewrite <- not_eq_None_Some, tree_lookup_None.
  split; [apply dec_stable | by intros ??].
Qed.

Lemma tree_lookup_Some_elem p r t : tree_lookup p t = Some r → (p, r) ∈ t.
Proof.
  induction t as [|[q r'] t IH]; simpl; [done|].
  case_decide as Hpq; [intros [= ->]; subst; left | right; auto].
Qed.

Lemma tree_lookup_elem p r t :
  NoDup (paths t) → (p, r) ∈ t → tree_lookup p t = Some r.
Proof.
  induction t as [|[q r'] t IH]; [by intros _ ?%elem_of_nil|].
  rewrite paths_cons, NoDup_cons. intros [Hq Hnd] [[= -> ->]|Hin]%elem_of_cons.
  - apply tree_lookup_cons_eq.
  - rewrite tree_lookup_cons_ne; [auto|].
    intros ->. apply Hq, elem_of_paths. eauto.
Qed.

Lemma tree_lookup_app p t1 t2 :
  tree_lookup p (t1 ++ t2)
  = match tree_lookup p t1 with
    | Some r => Some r
    | None => tree_lookup p t2
    end.
Proof.
  induction t1 as [|[q r] t1 IH]; simpl; [done|]. by case_decide.
Qed.

Lemma tree_lookup_app_l p r t1 t2 :
  tree_lookup p t1 = Some r → tree_lookup p (t1 ++ t2) = Some r.
Proof. intros H. by rewrite tree_lookup_app, H. Qed.

Lemma tree_lookup_app_r p t1 t2 :
  p ∉ paths t1 → tree_lookup p (t1 ++ t2) = tree_lookup p t2.
Proof. intros H%tree_lookup_None. by rewrite tree_lookup_app, H. Qed.

Lemma tree_update_cons_eq p r r' t :
  tree_update p r' ((p, r) :: t) = (p, r') :: t.
Proof. simpl. by rewrite decide_True. Qed.

Lemma tree_update_cons_ne p q r r' t :
  p ≠ q → tree_update p r' ((q, r) :: t) = (q, r) :: tree_update p r' t.
Proof. intros. simpl. by rewrite decide_False. Qed.

Lemma paths_update p r t : paths (tree_update p r t) = paths t.
Proof.
  induction t as [|[q r'] t IH]; simpl; [done|].
  case_decide; [done|]. by rewrite !paths_cons, IH.
Qed.

Lemma tree_update_notin p r t : p ∉ paths t → tree_update p r t = t.
Proof.
  induction t as [|[q r'] t IH]; simpl; [done|].
  rewrite not_elem_of_cons. intros [? ?]. rewrite decide_False by done.
  by rewrite IH.
Qed.

Lemma tree_update_app_r p r t1 t2 :
  p ∉ paths t1 → tree_update p r (t1 ++ t2) = t1 ++ tree_update p r t2.
Proof.
  induction t1 as [|[q r'] t1 IH]; simpl; [done|].
  rewrite not_elem_of_cons. intros [? ?]. rewrite decide_False by done.
  by rewrite IH.
Qed.

Lemma tree_lookup_update_eq p r t :
  p ∈ paths t → tree_lookup p (tree_update p r t) = Some r.
Proof.
  induction t as [|[q r'] t IH]; simpl; [by intros ?%elem_of_nil|].
  rewrite elem_of_cons. intros Hp. case_decide as Hpq.
  - subst. apply tree_lookup_cons_eq.
  - rewrite tree_lookup_cons_ne by done. destruct Hp; [done | auto].
Qed.

Lemma tree_lookup_update_ne p q r t :
  p ≠ q → tree_lookup q (tree_update p r t) = tree_lookup q t.
Proof.
  intros Hpq. induction t as [|[q' r'] t IH]; simpl; [done|].
  case_decide as Hp; simpl.
  - subst. by rewrite !decide_False by done.
  - by rewrite IH.
Qed.

Lemma tree_lookup_update p r r0 t :
  tree_lookup p t = Some r0 → tree_lookup p (tree_update p r t) = Some r.
Proof. intros H. apply tree_lookup_update_eq, tree_lookup_is_Some. eauto. Qed.

Lemma tree_update_update p r1 r2 t :
  tree_update p r2 (tree_update p r1 t) = tree_update p r2 t.
Proof.
  induction t as [|[q r] t IH]; simpl; [done|].
  case_decide; simpl; rewrite ?decide_True, ?decide_False by done; [done|].
  by rewrite IH.
Qed.

Lemma elem_of_update p r q r' t :
  (q, r') ∈ tree_update p r t → (q = p ∧ r' = r) ∨ (q, r') ∈ t.
Proof.
  induction t as [|[q' r''] t IH]; simpl; [auto|].
  case_decide as Hp; rewrite !elem_of_cons; [naive_solver|].
  intros [?|?%IH]; naive_solver.
Qed.

Lemma unresolved_None t qs : unresolved t qs = None ↔ Forall (.∈ paths t) qs.
Proof.
  induction qs as [|q qs IH]; simpl; [by split; [constructor|]|].
  rewrite Forall_cons. case_decide; naive_solver.
Qed.

Lemma unresolved_Some t qs q :
  unresolved t qs = Some q → q ∈ qs ∧ q ∉ paths t.
Proof.
  induction qs as [|q' qs IH]; simpl; [done|].
  case_decide.
  - intros [? ?]%IH. split; [by right | done].
  - intros [= ->]. split; [by left | done].
Qed.

End tree_lemmas.

(** ** The operations, equationally *)

Section operations.
Context {R : Type} `{!Referencing R}.
Implicit Types (t : Tree R) (p q scope : Path) (id : string) (r : R)
  (f : R → BuildError + R).

Lemma declare_run scope id r t :
  scope ∈ paths t →
  scope ++ [id] ∉ paths t →
  Forall (.∈ paths t) (refs r) →
  declare scope id r t = inr (scope ++ [id], t ++ [(scope ++ [id], r)]).
Proof.
  intros Hs Hp Hr%unresolved_None. unfold declare.
  by rewrite decide_True, decide_False, Hr.
Qed.

Lemma declare_inv scope id r t p t' :
  declare scope id r t = inr (p, t') →
  p = scope ++ [id] ∧ t' = t ++ [(p, r)] ∧ scope ∈ paths t
  ∧ (p ∉ paths t) ∧ Forall (.∈ paths t) (refs r).
Proof.
  unfold declare. repeat case_decide; try done.
  destruct (unresolved t (refs r)) eqn:Hr; [done|].
  intros [= <- <-]. by apply unresolved_None in Hr.
Qed.

Lemma declare_no_scope scope id r t :
  scope ∉ paths t → declare scope id r t = inl (NoSuchConstruct scope).
Proof. intros. unfold declare. by rewrite decide_False. Qed.

Lemma declare_duplicate scope id r t :
  scope ∈ paths t → scope ++ [id] ∈ paths t →
  declare scope id r t = inl (DuplicateId (scope ++ [id])).
Proof. intros. unfold declare. by rewrite !decide_True. Qed.

Lemma declare_unresolved scope id r t q :
  scope ∈ paths t → scope ++ [id] ∉ paths t →
  unresolved t (refs r) = Some q →
  declare scope id r t = inl (UnresolvedReference (scope ++ [id]) q).
Proof.
  intros ?? Hq. unfold declare. by rewrite decide_True, decide_False, Hq.
Qed.

Lemma read_run p r t : tree_lookup p t = Some r → read p t = inr (r, t).
Proof. unfold read. by intros ->. Qed.

Lemma read_missing p t : p ∉ paths t → read p t = inl (NoSuchConstruct p).
Proof. intros H%tree_lookup_None. unfold read. by rewrite H. Qed.

Lemma write_run p r t :
  Forall (.∈ paths t) (refs r) → write p r t = inr ((), tree_update p r t).
Proof. intros Hr%unresolved_None. unfold write. by rewrite Hr. Qed.

Lemma mutate_run p f r r' t :
  tree_lookup p t = Some r →
  f r = inr r' →
  Forall (.∈ paths t) (refs r') →
  mutate p f t = inr ((), tree_update p r' t).
Proof.
  intros Hp Hf Hr. unfold mutate.
  rewrite (bind_ok _ _ _ _ _ (read_run _ _ _ Hp)).
  rewrite (bind_ok _ _ _ _ _ (lift_sum_inr _ _ _ Hf)).
  by apply write_run.
Qed.

Lemma mutate_inv p f t u t' :
  mutate p f t = inr (u, t') →
  ∃ r r', tree_lookup p t = Some r ∧ f r = inr r'
          ∧ Forall (.∈ paths t) (refs r') ∧ t' = tree_update p r' t.
Proof.
  unfold mutate, bind, read, lift_sum, write.
  destruct (tree_lookup p t) as [r|] eqn:Hp; [|done].
  destruct (f r) as [|r'] eqn:Hf; [done|].
  destruct (unresolved t (refs r')) eqn:Hr; [done|].
  intros [= <-]. apply unresolved_None in Hr. by exists r, r'.
Qed.

Lemma mutate_missing p f t :
  p ∉ paths t → mutate p f t = inl (NoSuchConstruct p).
Proof. intros. unfold mutate. by apply bind_err, read_missing. Qed.

Lemma mutate_rejected p f r e t :
  tree_lookup p t = Some r → f r = inl e → mutate p f t = inl e.
Proof.
  intros Hp Hf. unfold mutate.
  rewrite (bind_ok _ _ _ _ _ (read_run _ _ _ Hp)).
  by apply bind_err, lift_sum_inl.
Qed.

End operations.

(** ** Preservation of the invariant *)

Section invariant.
Context {R : Type} `{!Referencing R}.
Implicit Types (t : Tree R) (p q scope : Path) (id : string) (r : R)
  (f : R → BuildError + R).

Lemma tree_ok_singleton r : refs r = [] → tree_ok [([], r)].
Proof.
  intros Hr. split.
  - apply NoDup_singleton.
  - intros scope id [H|[]%elem_of_nil]%elem_of_cons. by destruct scope.
  - intros p r' q [[= -> ->]|[]%elem_of_nil]%elem_of_cons. rewrite Hr.
    by intros ?%elem_of_nil.
Qed.

Lemma tree_ok_snoc t scope id r :
  tree_ok t →
  scope ∈ paths t →
  scope ++ [id] ∉ paths t →
  Forall (.∈ paths t) (refs r) →
  tree_ok (t ++ [(scope ++ [id], r)]).
Proof.
  intros [Hnd Hsc Hcl] Hs Hp Hr. split.
  - rewrite paths_snoc. apply NoDup_app. split_and!; [done| |apply NoDup_singleton].
    intros x Hx ->%list_elem_of_singleton. done.
  - intros scope' id'. rewrite paths_snoc, !elem_of_app, list_elem_of_singleton.
    intros [H|[-> _]%snoc_inj]; [left; eauto | by left].
  - intros p r' q. rewrite elem_of_app, list_elem_of_singleton, paths_snoc, elem_of_app.
    intros [H|[= -> ->]] Hq; left; [eauto|].
    by eapply Forall_forall in Hr.
Qed.

Lemma tree_ok_update t p r :
  tree_ok t →
  Forall (.∈ paths t) (refs r) →
  tree_ok (tree_update p r t).
Proof.
  intros [Hnd Hsc Hcl] Hr. split; rewrite ?paths_update; [done..|].
  intros q r' x [[-> ->]|Hin]%elem_of_update Hx; [|eauto].
  by eapply Forall_forall in Hr.
Qed.

(** The descendants of an undeclared path are undeclared. *)
Lemma tree_ok_descendants t p q : tree_ok t → p ∉ paths t → p ++ q ∉ paths t.
Proof.
  intros Hok Hp. induction q as [|id q IH] using rev_ind.
  - by rewrite app_nil_r.
  - rewrite app_assoc. intros Hin. by apply IH, (ok_scope _ Hok _ id).
Qed.

Lemma declare_preserves_ok scope id r t p t' :
  tree_ok t → declare scope id r t = inr (p, t') → tree_ok t'.
Proof.
  intros Hok (-> & -> & ? & ? & ?)%declare_inv. by apply tree_ok_snoc.
Qed.

Lemma mutate_preserves_ok p f t u t' :
  tree_ok t → mutate p f t = inr (u, t') → tree_ok t'.
Proof.
  intros Hok (r & r' & _ & _ & ? & ->)%mutate_inv. by apply tree_ok_update.
Qed.

Lemma read_preserves p t r t' : read p t = inr (r, t') → t' = t.
Proof. unfold read. destruct (tree_lookup p t); [by intros [= _ <-] | done]. Qed.

(** Declaring keeps the constructs that are there, as they are. *)
Lemma declare_frame scope id r t p t' q r0 :
  declare scope id r t = inr (p, t') →
  tree_lookup q t = Some r0 → tree_lookup q t' = Some r0.
Proof.
  intros (-> & -> & _)%declare_inv ?. by apply tree_lookup_app_l.
Qed.

Lemma declare_lookup scope id r t p t' :
  declare scope id r t = inr (p, t') → tree_lookup p t' = Some r.
Proof.
  intros (-> & -> & _ & Hp & _)%declare_inv.
  rewrite tree_lookup_app_r by done. apply tree_lookup_cons_eq.
Qed.

Lemma mutate_lookup p f t u t' :
  mutate p f t = inr (u, t') →
  ∃ r r', tree_lookup p t = Some r ∧ f r = inr r' ∧ tree_lookup p t' = Some r'.
Proof.
  intros (r & r' & Hp & Hf & _ & ->)%mutate_inv. exists r, r'.
  split_and!; [done..|]. apply tree_lookup_update_eq, tree_lookup_is_Some. eauto.
Qed.

Lemma mutate_frame p f t u t' q :
  mutate p f t = inr (u, t') → p ≠ q → tree_lookup q t' = tree_lookup q t.
Proof.
  intros (r & r' & _ & _ & _ & ->)%mutate_inv ?. by apply tree_lookup_update_ne.
Qed.

End invariant.

(** ** Builds that preserve the invariant

    [preserving] is closed under the combinators of the monad, so that the
    preservation of the invariant by a build follows its syntax. *)

Section preserving.
Context {R : Type} `{!Referencing R}.
Implicit Types (t : Tree R) (p scope : Path) (id : string) (r : R).

Lemma preserving_ret {A} (a : A) : preserving (R:=R) (ret a).
Proof. by intros t ? t' ? [= _ <-]. Qed.

Lemma preserving_raise {A} e : preserving (R:=R) (raise (A:=A) e).
Proof. by intros t ? t' ?. Qed.

Lemma preserving_lift_sum {A} (x : BuildError + A) :
  preserving (R:=R) (lift_sum x).
Proof. intros t a t' ?. unfold lift_sum. destruct x; [done|]. by intros [= _ <-]. Qed.

Lemma preserving_bind {A B} (m : Build R A) (k : A → Build R B) :
  preserving m → (∀ a, preserving (k a)) → preserving (R:=R) (bind m k).
Proof.
  intros Hm Hk t b t2 Hok (a & t1 & H1 & H2)%bind_inr_inv.
  eapply Hk; [|exact H2]. by eapply Hm.
Qed.

Lemma preserving_declare scope id r : preserving (R:=R) (declare scope id r).
Proof. intros t a t' ??. by eapply declare_preserves_ok. Qed.

Lemma preserving_read p : preserving (R:=R) (read p).
Proof. by intros t a t' ? ->%read_preserves. Qed.

Lemma preserving_mutate p f : preserving (R:=R) (mutate p f).
Proof. intros t a t' ??. by eapply mutate_preserves_ok. Qed.

End preserving.

#[export] Hint Resolve preserving_ret preserving_raise preserving_lift_sum
  preserving_declare preserving_read preserving_mutate : build.

(** [solve_preserving] proves [preserving m] for a build [m] made of the
    combinators of the monad and the operations of the tree, unfolding the
    definitions it meets. *)
Ltac head_of t :=
  lazymatch t with
  | ?f _ => head_of f
  | _ => t
  end.

Ltac preserving_step :=
  lazymatch goal with
  | |- preserving (bind _ _) => apply preserving_bind; [|intros ?]
  | |- preserving (match ?x with _ => _ end) => destruct x
  | |- preserving ?m =>
      first [ solve [auto with build]
            | let h := head_of m in progress unfold h ]
  end.

Ltac solve_preserving := repeat preserving_step.

(** ** Tactics for membership in a tree *)

(** [solve_in] proves [p ∈ paths t] when [p] occurs in the displayed part
    of [t] or is declared by a hypothesis. *)
Ltac solve_in :=
  rewrite ?paths_app, ?paths_update, ?paths_cons;
  repeat (rewrite elem_of_app || rewrite elem_of_cons);
  solve [auto 30].

(** [solve_notin] proves [p ∉ paths t]: against the displayed part of [t]
    by comparing paths, against the rest by the hypotheses. *)
Ltac solve_notin :=
  rewrite ?paths_app, ?paths_update, ?paths_cons;
  repeat (rewrite not_elem_of_app || rewrite not_elem_of_cons);
  repeat split;
  first
    [ assumption
    | apply not_elem_of_nil
    | path_neq
    | eapply tree_ok_descendants; eassumption
    | rewrite <- ?app_assoc; eapply tree_ok_descendants; eassumption ].

(** [solve_refs] proves that a list of references resolves. *)
Ltac solve_refs := repeat (apply Forall_cons; split; [solve_in|]); apply Forall_nil_2.

(** [lookup_rw] evaluates the lookups in the displayed part of a tree;
    [lookup_here] proves a goal of the form [tree_lookup p t = Some r]. *)
Ltac lookup_rw :=
  rewrite ?tree_lookup_app_r by solve_notin;
  repeat first
    [ rewrite tree_lookup_cons_eq
    | rewrite tree_lookup_cons_ne by path_neq ].

Ltac lookup_here := solve [lookup_rw; reflexivity].

(** [update_here] evaluates an update in the displayed part of a tree. *)
Ltac update_here :=
  rewrite ?tree_update_app_r by solve_notin;
  repeat first
    [ rewrite tree_update_cons_eq
    | rewrite tree_update_cons_ne by path_neq ].
