(* ===== verification/Graph.v ===== *)
(** * Graph: the dependency graph of a construct tree

    A construct depends on the constructs its resource refers to.  The
    declaration API only accepts references to constructs that are already
    declared, so the order of declaration is a topological order of the
    dependencies as long as mutations add references to older constructs
    only.  This file states that order ([topo_ext], checked by
    [topo_orderedb]) and proves that a tree in that order has neither
    dangling references nor dependency cycles.  Without an order, a closed
    tree without cycle has no infinite chain of references ([acyclic_sn]),
    and a closed tree without cycle extended by a tree without cycle has
    none ([acyclic_app]).  A construct also needs its scope: [scoped t] is
    the tree whose dependencies are the scopes and the references, to
    which everything of this file applies. *)

From stdpp Require Import relations.
From S2P Require Import Prelude Tokens Construct.

(** ** Definitions *)

Section graph.
Context {R : Type} `{!Referencing R}.
Implicit Types (t : Tree R) (p q : Path) (r : R) (seen : list Path).

(** [depends t p q]: the construct at [p] refers to [q]. *)
Definition depends t p q : Prop :=
  ∃ r, tree_lookup p t = Some r ∧ q ∈ refs r.

(** No dangling reference. *)
Definition closed t : Prop := ∀ p q, depends t p q → q ∈ paths t.

Definition closedb t : bool :=
  forallb (λ pr, forallb (λ q, bool_decide (q ∈ paths t)) (refs pr.2)) t.

(** No dependency cycle. *)
Definition acyclic t : Prop := ∀ p, ¬ tc (depends t) p p.

(** [topo_ext seen t]: every construct of [t] refers only to [seen] and to
    the constructs of [t] before it. *)
Inductive topo_ext : list Path → Tree R → Prop :=
| topo_nil seen : topo_ext seen []
| topo_cons seen p r t :
    Forall (.∈ seen) (refs r) →
    topo_ext (seen ++ [p]) t →
    topo_ext seen ((p, r) :: t).

Definition topo_ordered t : Prop := topo_ext [] t.

(** The dependency lists of a tree: each path with what it refers to. *)
Definition deps t : list (Path * list Path) := (λ pr, (pr.1, refs pr.2)) <$> t.

(** [topo_ext] on dependency lists. *)
Inductive topo_deps : list Path → list (Path * list Path) → Prop :=
| topo_deps_nil seen : topo_deps seen []
| topo_deps_cons seen p qs ds :
    Forall (.∈ seen) qs →
    topo_deps (seen ++ [p]) ds →
    topo_deps seen ((p, qs) :: ds).

Fixpoint topo_fromb seen t : bool :=
  match t with
  | [] => true
  | (p, r) :: t' =>
      forallb (λ q, bool_decide (q ∈ seen)) (refs r) && topo_fromb (seen ++ [p]) t'
  end.

Definition topo_orderedb t : bool := topo_fromb [] t.

(** The scope a construct is declared in; the root is declared in none. *)
Definition scope_of p : list Path :=
  match p with
  | [] => []
  | _ :: _ => [removelast p]
  end.

(** What a construct needs in order to exist: its scope and the constructs
    it refers to.  A construct paired with its own path is a resource with
    these dependencies. *)
#[export] Instance scoped_refs : Referencing (Path * R) :=
  λ pr, scope_of pr.1 ++ refs pr.2.

(** The tree in which every construct depends on its scope as well. *)
Definition scoped t : Tree (Path * R) := (λ pr, (pr.1, pr)) <$> t.

(** The position of the first construct at [p]. *)
Fixpoint index_of p t : nat :=
  match t with
  | [] => 0
  | (q, _) :: t' => if decide (p = q) then 0 else S (index_of p t')
  end.

End graph.

(** ** Lemmas *)

Section graph_lemmas.
Context {R : Type} `{!Referencing R}.
Implicit Types (t : Tree R) (p q : Path) (r : R) (seen : list Path).

Lemma forallb_bool_decide_elem (qs l : list Path) :
  forallb (λ q, bool_decide (q ∈ l)) qs = true ↔ Forall (.∈ l) qs.
Proof.
  induction qs as [|q qs IH]; simpl; [by split; [constructor|]|].
  by rewrite andb_true_iff, bool_decide_eq_true, Forall_cons, IH.
Qed.

Lemma forallb_elem_of {A} (f : A → bool) (l : list A) :
  forallb f l = true ↔ ∀ x, x ∈ l → f x = true.
Proof.
  rewrite forallb_forall. split; intros H x Hx; by apply H, list_elem_of_In.
Qed.

Lemma topo_fromb_spec seen t : topo_fromb seen t = true ↔ topo_ext seen t.
Proof.
  revert seen. induction t as [|[p r] t IH]; intros seen; simpl.
  - split; [constructor | done].
  - rewrite andb_true_iff, forallb_bool_decide_elem, IH. split.
    + intros [? ?]. by constructor.
    + by inversion 1.
Qed.

Lemma topo_ext_deps seen t : topo_ext seen t ↔ topo_deps seen (deps t).
Proof.
  revert seen. induction t as [|[p r] t IH]; intros seen.
  - split; constructor.
  - split; inversion 1; subst; constructor; by try apply IH.
Qed.

Lemma topo_orderedb_spec t : topo_orderedb t = true ↔ topo_ordered t.
Proof. apply topo_fromb_spec. Qed.

Lemma closedb_spec t : NoDup (paths t) → closedb t = true ↔ closed t.
Proof.
  intros Hnd. unfold closedb, closed, depends. rewrite forallb_elem_of. split.
  - intros H p q (r & Hr%tree_lookup_Some_elem & Hq).
    apply H, forallb_bool_decide_elem in Hr. by eapply Forall_forall in Hr.
  - intros H [p r] Hin. apply forallb_bool_decide_elem, Forall_forall.
    intros q Hq. apply (H p q). exists r. split; [by apply tree_lookup_elem | done].
Qed.

Lemma topo_ext_weaken seen seen' t :
  seen ⊆ seen' → topo_ext seen t → topo_ext seen' t.
Proof.
  intros Hsub Ht. revert seen' Hsub.
  induction Ht as [|seen p r t Hr _ IH]; intros seen' Hsub; constructor.
  - by eapply Forall_elem_of_weaken.
  - apply IH. intros x. rewrite !elem_of_app. intros [?|?]; auto.
Qed.

Lemma topo_ext_app seen t1 t2 :
  topo_ext seen (t1 ++ t2) ↔ topo_ext seen t1 ∧ topo_ext (seen ++ paths t1) t2.
Proof.
  revert seen. induction t1 as [|[p r] t1 IH]; intros seen.
  - cbn [app paths fmap list_fmap]. rewrite app_nil_r.
    split; [intros ?; split; [constructor | done] | by intros [_ ?]].
  - rewrite paths_cons. cbn [app].
    replace (seen ++ p :: paths t1) with ((seen ++ [p]) ++ paths t1)
      by (by rewrite <- app_assoc).
    split.
    + inversion 1 as [|? ? ? ? Hr Ht]; subst. apply IH in Ht as [? ?].
      split; [by constructor | done].
    + intros [Ht1 Ht2]. inversion Ht1 as [|? ? ? ? Hr Ht]; subst.
      constructor; [done|]. by apply IH.
Qed.

(** In a topologically ordered tree every reference is declared, and
    declared before the construct that holds it. *)
Lemma topo_ext_refs seen t p r :
  topo_ext seen t → tree_lookup p t = Some r →
  Forall (λ q, q ∈ seen ∨ (q ∈ paths t ∧ index_of q t < index_of p t)) (refs r).
Proof.
  intros Ht. revert p r.
  induction Ht as [|seen p0 r0 t Hr0 _ IH]; intros p r; [done|].
  cbn [tree_lookup index_of]. rewrite paths_cons. case_decide as Hp.
  - intros [= ->]. eapply Forall_impl; [exact Hr0|]. by left.
  - intros Hl. eapply Forall_impl; [exact (IH _ _ Hl)|]. cbv beta.
    intros q [[Hq|Hq%list_elem_of_singleton]%elem_of_app|[Hq Hlt]].
    + by left.
    + subst q. right. rewrite decide_True by done. split; [left | lia].
    + right. split; [by right|]. case_decide; lia.
Qed.

Lemma topo_ordered_depends t p q :
  topo_ordered t → depends t p q → q ∈ paths t ∧ index_of q t < index_of p t.
Proof.
  intros Ht (r & Hr & Hq).
  pose proof (topo_ext_refs _ _ _ _ Ht Hr) as H.
  eapply Forall_forall in H as [[]%elem_of_nil|?]; done.
Qed.

Lemma topo_ordered_tc t p q :
  topo_ordered t → tc (depends t) p q → index_of q t < index_of p t.
Proof.
  intros Ht. induction 1 as [p q H|p q' q H _ IH].
  - by eapply topo_ordered_depends.
  - apply (topo_ordered_depends _ _ _ Ht) in H as [_ ?]. lia.
Qed.

Lemma topo_ordered_closed t : topo_ordered t → closed t.
Proof. intros Ht p q H. by eapply topo_ordered_depends. Qed.

Lemma depends_declared t p q : depends t p q → p ∈ paths t.
Proof. intros (r & Hr%mk_is_Some & _). by apply tree_lookup_is_Some. Qed.

Lemma tc_depends_source t p q : tc (depends t) p q → p ∈ paths t.
Proof. intros [? ? H|? ? ? H _]; by eapply depends_declared. Qed.

(** A chain of references of a tree that extends [seen] in order leaves
    the tree into [seen] or goes back in the tree. *)
Lemma topo_ext_tc seen t p q :
  topo_ext seen t → (∀ x, x ∈ seen → x ∉ paths t) → tc (depends t) p q →
  q ∈ seen ∨ (q ∈ paths t ∧ index_of q t < index_of p t).
Proof.
  intros Ht Hseen. assert (∀ p q, depends t p q →
    q ∈ seen ∨ (q ∈ paths t ∧ index_of q t < index_of p t)) as Hstep.
  { intros p' q' (r & Hr & Hq).
    pose proof (topo_ext_refs _ _ _ _ Ht Hr) as H.
    by eapply Forall_forall in H. }
  induction 1 as [p q H|p q' q H Htc IH]; [by apply Hstep|].
  destruct (Hstep _ _ H) as [Hq'|[_ Hlt]].
  - destruct (Hseen q' Hq'). by eapply tc_depends_source.
  - destruct IH as [|[? ?]]; [by left|]. right. split; [done | lia].
Qed.

Lemma topo_ext_acyclic seen t :
  topo_ext seen t → (∀ x, x ∈ seen → x ∉ paths t) → acyclic t.
Proof.
  intros Ht Hseen p Hp.
  destruct (topo_ext_tc _ _ _ _ Ht Hseen Hp) as [Hin|[_ ?]]; [|lia].
  destruct (Hseen p Hin). by eapply tc_depends_source.
Qed.

Lemma topo_ordered_acyclic t : topo_ordered t → acyclic t.
Proof. intros Ht. eapply topo_ext_acyclic; [done|]. by intros ? ?%elem_of_nil. Qed.

Lemma topo_ordered_snoc t p r :
  topo_ordered t → Forall (.∈ paths t) (refs r) → topo_ordered (t ++ [(p, r)]).
Proof.
  intros Ht Hr. apply topo_ext_app. split; [done|].
  constructor; [done | constructor].
Qed.

Lemma declare_topo_ordered scope id r t p t' :
  topo_ordered t → declare scope id r t = inr (p, t') → topo_ordered t'.
Proof.
  intros Ht (-> & -> & _ & _ & Hr)%declare_inv. by apply topo_ordered_snoc.
Qed.

Lemma tree_ok_closed t : tree_ok t → closed t.
Proof.
  intros Hok p q (r & Hr%tree_lookup_Some_elem & Hq). by eapply ok_closed.
Qed.

Lemma elem_of_deps t p qs : (p, qs) ∈ deps t ↔ ∃ r, (p, r) ∈ t ∧ qs = refs r.
Proof.
  unfold deps. rewrite list_elem_of_fmap. split.
  - intros ([p' r] & [= -> ->] & Hin). eauto.
  - intros (r & Hin & ->). by exists (p, r).
Qed.

(** On a tree without duplicate paths the dependency relation is read off
    the dependency lists. *)
Lemma depends_deps t p q :
  NoDup (paths t) → depends t p q ↔ ∃ qs, (p, qs) ∈ deps t ∧ q ∈ qs.
Proof.
  intros Hnd. unfold depends. setoid_rewrite elem_of_deps. split.
  - intros (r & Hr%tree_lookup_Some_elem & Hq). eauto.
  - intros (qs & (r & Hr%(tree_lookup_elem _ _ _ Hnd) & ->) & Hq). eauto.
Qed.

(** What a tree's extension adds to the constructs of the tree: nothing. *)
Lemma depends_app_l t1 t2 p q :
  p ∈ paths t1 → depends (t1 ++ t2) p q ↔ depends t1 p q.
Proof.
  intros [r Hr]%tree_lookup_is_Some. unfold depends.
  by rewrite (tree_lookup_app_l _ _ _ t2 Hr), Hr.
Qed.

Lemma depends_app_r t1 t2 p q :
  p ∉ paths t1 → depends (t1 ++ t2) p q ↔ depends t2 p q.
Proof. intros Hp. unfold depends. by rewrite tree_lookup_app_r. Qed.

(** ** Acyclicity without an order *)

(** In a closed tree a chain of references stays among the declared
    constructs. *)
Lemma tc_depends_declared t p q : closed t → tc (depends t) p q → q ∈ paths t.
Proof. intros Hc. induction 1 as [p q H|]; [by eapply Hc | done]. Qed.

(** A closed tree without cycle has no infinite chain of references. *)
Lemma acyclic_sn t p : closed t → acyclic t → sn (depends t) p.
Proof.
  intros Hc Ha. apply tc_finite_sn; [exact Ha|].
  exists (paths t). intros q. by apply tc_depends_declared.
Qed.

(** The chains of references of an extended tree are those of the tree or
    those of the extension, when both are closed and share no path. *)
Lemma tc_depends_app_l t1 t2 p q :
  closed t1 → p ∈ paths t1 → tc (depends (t1 ++ t2)) p q → tc (depends t1) p q.
Proof.
  intros Hc Hp Htc. induction Htc as [p q H|p q' q H _ IH].
  - apply tc_once. by apply (depends_app_l t1 t2).
  - apply depends_app_l in H; [|done]. eapply tc_l; [done|]. by eapply IH, Hc.
Qed.

Lemma tc_depends_app_r t1 t2 p q :
  closed t1 → p ∉ paths t1 → q ∉ paths t1 →
  tc (depends (t1 ++ t2)) p q → tc (depends t2) p q.
Proof.
  intros Hc Hp Hq Htc. induction Htc as [p q H|p q' q H Htc IH].
  - apply tc_once. by apply (depends_app_r t1 t2).
  - apply depends_app_r in H; [|done]. eapply tc_l; [done|].
    apply IH; [|done]. intros Hq'. apply Hq.
    eapply tc_depends_declared; [done|]. by eapply tc_depends_app_l.
Qed.

(** A tree without cycle extended by a tree without cycle has none: a
    chain that enters the closed part never leaves it. *)
Lemma acyclic_app t1 t2 :
  closed t1 → acyclic t1 → acyclic t2 → acyclic (t1 ++ t2).
Proof.
  intros Hc Ha1 Ha2 p Hp. destruct (decide (p ∈ paths t1)).
  - by eapply Ha1, tc_depends_app_l.
  - by eapply Ha2, tc_depends_app_r.
Qed.

End graph_lemmas.

(** ** The scope as a dependency *)

Section scoped_lemmas.
Context {R : Type} `{!Referencing R}.
Implicit Types (t : Tree R) (p q scope : Path) (id : string) (r : R).

Lemma scope_of_snoc scope id : scope_of (scope ++ [id]) = [scope].
Proof.
  unfold scope_of. destruct (scope ++ [id]) eqn:H; [by destruct scope|].
  by rewrite <- H, removelast_last.
Qed.

Lemma scoped_app t1 t2 : scoped (t1 ++ t2) = scoped t1 ++ scoped t2.
Proof. apply fmap_app. Qed.

Lemma paths_scoped t : paths (scoped t) = paths t.
Proof. unfold scoped, paths. rewrite <- list_fmap_compose. by apply list_fmap_ext. Qed.

Lemma tree_lookup_scoped p t :
  tree_lookup p (scoped t) = (λ r, (p, r)) <$> tree_lookup p t.
Proof.
  induction t as [|[q r] t IH]; [done|]. cbn [scoped fmap list_fmap tree_lookup fst].
  case_decide; [by subst | exact IH].
Qed.

(** In the scoped tree a construct depends on its scope and on what it
    refers to. *)
Lemma depends_scoped t p q :
  depends (scoped t) p q ↔ (p ∈ paths t ∧ q ∈ scope_of p) ∨ depends t p q.
Proof.
  unfold depends. setoid_rewrite tree_lookup_scoped. split.
  - intros ([p' r] & Hr & Hq). destruct (tree_lookup p t) as [r0|] eqn:Hp; [|done].
    injection Hr as <- <-. apply elem_of_app in Hq as [Hq|Hq]; [left|right; eauto].
    split; [|done]. apply tree_lookup_is_Some. by rewrite Hp.
  - intros [[[r Hr]%tree_lookup_is_Some Hq]|(r & Hr & Hq)];
      exists (p, r); rewrite Hr; (split; [done|]); apply elem_of_app; auto.
Qed.

Lemma deps_scoped t :
  deps (scoped t) = (λ pq, (pq.1, scope_of pq.1 ++ pq.2)) <$> deps t.
Proof. unfold deps, scoped. rewrite <- !list_fmap_compose. by apply list_fmap_ext. Qed.

(** A well-formed tree has the scopes and the references of its constructs. *)
Lemma tree_ok_scoped_closed t : tree_ok t → closed (scoped t).
Proof.
  intros Hok p q [[Hp Hq]|Hd]%depends_scoped; rewrite paths_scoped.
  - destruct p as [|x p _] using rev_ind; [by apply elem_of_nil in Hq|].
    rewrite scope_of_snoc in Hq. apply list_elem_of_singleton in Hq as ->.
    by eapply ok_scope.
  - by eapply tree_ok_closed.
Qed.

(** A declaration keeps the order of the scoped tree: the scope and the
    references of the new construct are declared. *)
Lemma scoped_topo_snoc t scope id r :
  topo_ordered (scoped t) → scope ∈ paths t → Forall (.∈ paths t) (refs r) →
  topo_ordered (scoped (t ++ [(scope ++ [id], r)])).
Proof.
  intros Ht Hs Hr. rewrite scoped_app.
  apply (topo_ordered_snoc _ _ (scope ++ [id], r)); [done|].
  rewrite paths_scoped. unfold refs at 1, scoped_refs. cbn [fst snd].
  rewrite scope_of_snoc. by constructor.
Qed.

(** The order of the scoped tree is the order of the tree. *)
Lemma scoped_topo_ordered t : topo_ordered (scoped t) → topo_ordered t.
Proof.
  unfold topo_ordered. generalize (@nil Path).
  induction t as [|[p r] t IH]; intros seen; [constructor|].
  cbn [scoped fmap list_fmap fst]. inversion 1 as [|? ? ? ? Hr Ht]; subst.
  constructor; [|by apply IH].
  unfold refs at 1, scoped_refs in Hr. by apply Forall_app in Hr as [_ ?].
Qed.

End scoped_lemmas.
