(* ===== verification/Deploy.v ===== *)
(** * Deploy: the order in which the provisioning engine creates the constructs

    The repository only declares the graph; an external engine creates the
    resources.  The specification fixes one thing about it: a resource
    exists before any resource that is configured with it.  This file
    models that much and no more.  The state of a deployment is the list
    [d] of the constructs created so far, oldest first; a step creates a
    declared construct that is not created yet and whose references all
    are ([ready]).  Which ready construct is taken is not determined, so
    the relation covers every order and every interleaving the engine may
    choose; the schedulers that make the choice are in [Scheduler].

    The theorems: the invariant of a deployment ([deployed_ok]), that a
    construct is created after what it refers to, that no deployment runs
    for ever, that a deployment of a closed tree without cycle is never
    stuck before it is complete, that two complete deployments differ by
    the order only ([complete_perm]), and that two creations in a row of
    which the second does not refer to the first can be exchanged
    ([deployment_swap]); there a deployment is seen as the list of its
    creations ([creates]), and what is ready depends on the created
    constructs up to permutation ([ready_perm]). *)

From stdpp Require Import relations.
From S2P Require Import Prelude Construct Graph.

Section deploy.
Context {R : Type} `{!Referencing R}.
Implicit Types (t : Tree R) (p q : Path) (r : R) (d : list Path).

(** [ready t d p]: the construct at [p] can be created in the state [d]. *)
Definition ready t d p : Prop :=
  ∃ r, tree_lookup p t = Some r ∧ (p ∉ d) ∧ Forall (.∈ d) (refs r).

Definition readyb t d p : bool :=
  match tree_lookup p t with
  | Some r => bool_decide (p ∉ d) && forallb (λ q, bool_decide (q ∈ d)) (refs r)
  | None => false
  end.

Inductive deploy_step t : list Path → list Path → Prop :=
| deploy_create d p : ready t d p → deploy_step t d (d ++ [p]).

(** The states the engine can reach from nothing. *)
Definition deployment t d : Prop := rtc (deploy_step t) [] d.

(** [creates t d l]: from the state [d] the engine can create the
    constructs [l], in that order. *)
Fixpoint creates t d (l : list Path) : Prop :=
  match l with
  | [] => True
  | p :: l => ready t d p ∧ creates t (d ++ [p]) l
  end.

(** The invariant of a deployment: nothing is created twice, what is
    created is declared, and what a created construct refers to is
    created. *)
Record deployed_ok t d : Prop := DeployedOk {
  dep_nodup : NoDup d;
  dep_declared : ∀ p, p ∈ d → p ∈ paths t;
  dep_closed : ∀ p q, p ∈ d → depends t p q → q ∈ d
}.

Definition complete t d : Prop := Forall (.∈ d) (paths t).

End deploy.

(** ** Lemmas *)

Section deploy_lemmas.
Context {R : Type} `{!Referencing R}.
Implicit Types (t : Tree R) (p q : Path) (r : R) (d : list Path).

Lemma readyb_spec t d p : readyb t d p = true ↔ ready t d p.
Proof.
  unfold readyb, ready. destruct (tree_lookup p t) as [r|]; [|naive_solver].
  rewrite andb_true_iff, bool_decide_eq_true, forallb_bool_decide_elem.
  naive_solver.
Qed.

#[export] Instance ready_dec t d p : Decision (ready t d p).
Proof.
  refine (cast_if (decide (readyb t d p = true))); by rewrite <- readyb_spec.
Defined.

Lemma ready_depends t d p q : ready t d p → depends t p q → q ∈ d.
Proof.
  intros (r & Hr & _ & Hrefs) (r' & Hr' & Hq). simplify_eq.
  by eapply Forall_forall in Hrefs.
Qed.

Lemma ready_declared t d p : ready t d p → p ∈ paths t.
Proof. intros (r & Hr%mk_is_Some & _). by apply tree_lookup_is_Some. Qed.

Lemma deploy_step_length t d d' : deploy_step t d d' → length d' = S (length d).
Proof. destruct 1. rewrite length_app. simpl. lia. Qed.

Lemma deployed_ok_nil t : deployed_ok t [].
Proof.
  split; [apply NoDup_nil_2 | by intros ? ?%elem_of_nil | by intros ? ? ?%elem_of_nil].
Qed.

Lemma deploy_step_ok t d d' : deployed_ok t d → deploy_step t d d' → deployed_ok t d'.
Proof.
  intros Hok Hstep. destruct Hstep as [d p Hp]. destruct Hok as [Hnd Hdecl Hcl].
  split.
  - apply NoDup_app. split_and!; [done| |apply NoDup_singleton].
    intros x Hx Hx'%list_elem_of_singleton. subst x.
    by destruct Hp as (? & _ & ? & _).
  - intros x [?|Hx%list_elem_of_singleton]%elem_of_app; [auto|]. subst x.
    by eapply ready_declared.
  - intros x q [?|Hx%list_elem_of_singleton]%elem_of_app Hd;
      rewrite elem_of_app; left; [by eapply Hcl | subst x; by eapply ready_depends].
Qed.

Lemma deployed_ok_rtc t d d' :
  deployed_ok t d → rtc (deploy_step t) d d' → deployed_ok t d'.
Proof. induction 2; eauto using deploy_step_ok. Qed.

Lemma deployment_ok t d : deployment t d → deployed_ok t d.
Proof. apply deployed_ok_rtc, deployed_ok_nil. Qed.

Lemma deployed_ok_length t d : deployed_ok t d → length d ≤ length t.
Proof.
  intros [Hnd Hdecl _]. rewrite <- (length_fmap fst t).
  by apply submseteq_length, NoDup_submseteq.
Qed.

Lemma deploy_nsteps_length t n d d' :
  nsteps (deploy_step t) n d d' → length d' = length d + n.
Proof.
  induction 1 as [|n x y z Hxy%deploy_step_length _ IH]; [lia|].
  rewrite IH, Hxy. lia.
Qed.

(** No deployment runs for ever: a state of the invariant is strongly
    normalising, by the number of constructs that are left. *)
Lemma deployed_ok_sn t d : deployed_ok t d → sn (deploy_step t) d.
Proof.
  remember (length t - length d) as k eqn:Hk. revert d Hk.
  induction k as [k IH] using lt_wf_ind. intros d -> Hok.
  constructor. intros d' Hstep. unfold flip in Hstep.
  pose proof (deploy_step_length _ _ _ Hstep).
  pose proof (deployed_ok_length _ _ (deploy_step_ok _ _ _ Hok Hstep)).
  eapply IH; [|done|by eapply deploy_step_ok]. lia.
Qed.

(** In a closed tree without cycle a construct that is not created leads,
    along its references, to one that can be created. *)
Lemma pending_ready t d p :
  closed t → acyclic t → p ∈ paths t → (p ∉ d) → ∃ p', ready t d p'.
Proof.
  intros Hc Ha. induction (acyclic_sn t p Hc Ha) as [p _ IH].
  intros [r Hr]%tree_lookup_is_Some Hp.
  destruct (decide (Forall (.∈ d) (refs r))) as [|Hex]; [by exists p, r|].
  apply not_Forall_Exists, Exists_exists in Hex as (q & Hq & Hqd); [|apply _].
  assert (depends t p q) as Hpq by (by exists r).
  apply (IH q); [done | by eapply Hc | done].
Qed.

Lemma deploy_progress t d :
  closed t → acyclic t → ¬ complete t d → red (deploy_step t) d.
Proof.
  intros Hc Ha Hnc.
  apply not_Forall_Exists, Exists_exists in Hnc as (p & Hp & Hpd); [|apply _].
  destruct (pending_ready t d p) as [p' Hp']; [done..|].
  exists (d ++ [p']). by constructor.
Qed.

#[export] Instance complete_dec t d : Decision (complete t d).
Proof. unfold complete. apply _. Defined.

Lemma nf_complete t d :
  closed t → acyclic t → nf (deploy_step t) d → complete t d.
Proof.
  intros Hc Ha Hnf. destruct (decide (complete t d)) as [|Hnc]; [done|].
  destruct Hnf. by apply deploy_progress.
Qed.

Lemma complete_nf t d : deployed_ok t d → complete t d → nf (deploy_step t) d.
Proof.
  intros Hok Hc [d' Hstep]. destruct Hstep as [d p (r & Hr%mk_is_Some & Hp & _)].
  unfold complete in Hc. rewrite Forall_forall in Hc.
  by apply Hp, Hc, tree_lookup_is_Some.
Qed.

(** From every state of the invariant the deployment can be completed. *)
Lemma deploy_can_complete t d :
  closed t → acyclic t → deployed_ok t d →
  ∃ d', rtc (deploy_step t) d d' ∧ complete t d'.
Proof.
  intros Hc Ha Hok. induction (deployed_ok_sn _ _ Hok) as [d _ IH].
  destruct (decide (complete t d)) as [|Hnc]; [by exists d|].
  destruct (deploy_progress _ _ Hc Ha Hnc) as [d1 Hstep].
  destruct (IH d1 Hstep) as (d' & ? & ?); [by eapply deploy_step_ok|].
  exists d'. split; [by eapply rtc_l | done].
Qed.

(** A created construct was created after what it refers to. *)
Lemma deployment_before t d d1 p d2 q :
  deployment t d → d = d1 ++ p :: d2 → depends t p q → q ∈ d1.
Proof.
  unfold deployment. intros Hd. revert d1 d2. revert d Hd.
  apply (rtc_ind_r (λ d, ∀ d1 d2, d = d1 ++ p :: d2 → depends t p q → q ∈ d1)).
  - intros d1 d2 Heq. by destruct d1.
  - intros d0 d' _ Hstep IH d1 d2 Heq Hpq.
    destruct Hstep as [d0 p0 Hp]. destruct d2 as [|x d2 _] using rev_ind.
    + apply (app_inj_tail d0 d1) in Heq as [-> ->]. by eapply ready_depends.
    + rewrite app_comm_cons, app_assoc in Heq.
      apply app_inj_tail in Heq as [-> _]. by eapply IH.
Qed.

(** ** Deployments as lists, and the order of independent creations *)

Lemma creates_app t d l1 l2 :
  creates t d (l1 ++ l2) ↔ creates t d l1 ∧ creates t (d ++ l1) l2.
Proof.
  revert d. induction l1 as [|p l1 IH]; intros d; simpl.
  - rewrite app_nil_r. tauto.
  - rewrite IH, <- app_assoc. simpl. tauto.
Qed.

Lemma creates_rtc t d l : creates t d l → rtc (deploy_step t) d (d ++ l).
Proof.
  revert d. induction l as [|p l IH]; intros d; simpl.
  - by rewrite app_nil_r.
  - intros [Hp Hl]. eapply rtc_l; [by constructor|].
    replace (d ++ p :: l) with ((d ++ [p]) ++ l) by (by rewrite <- app_assoc).
    by apply IH.
Qed.

Lemma rtc_creates t d d' :
  rtc (deploy_step t) d d' → ∃ l, d' = d ++ l ∧ creates t d l.
Proof.
  induction 1 as [d|d d1 d' Hstep _ (l & -> & Hl)].
  - exists []. by rewrite app_nil_r.
  - destruct Hstep as [d p Hp]. exists (p :: l). by rewrite <- app_assoc.
Qed.

Lemma deployment_creates t d : deployment t d ↔ creates t [] d.
Proof.
  split; [|apply creates_rtc]. by intros (l & -> & Hl)%rtc_creates.
Qed.

(** What can be created depends on the set of the created constructs, not
    on the order of their creation. *)
#[export] Instance ready_perm t : Proper ((≡ₚ) ==> (=) ==> iff) (ready t).
Proof.
  intros d d' Hd p ? <-. unfold ready. setoid_rewrite Forall_forall.
  by setoid_rewrite Hd.
Qed.

#[export] Instance creates_perm t : Proper ((≡ₚ) ==> (=) ==> iff) (creates t).
Proof.
  intros d d' Hd l ? <-. revert d d' Hd.
  induction l as [|p l IH]; intros d d' Hd; simpl; [done|].
  f_equiv; [by apply ready_perm | apply IH; by rewrite Hd].
Qed.

(** Two creations in a row of which the second does not refer to the
    first can be done in the other order. *)
Lemma ready_swap t d p q :
  ready t d p → ready t (d ++ [p]) q → ¬ depends t q p →
  ready t d q ∧ ready t (d ++ [q]) p.
Proof.
  intros (r & Hr & Hp & Hrefs) (r' & Hr' & Hq & Hrefs') Hdep.
  apply not_elem_of_app in Hq as [Hq Hqp%not_elem_of_cons]. split.
  - exists r'. split_and!; [done..|]. rewrite Forall_forall in Hrefs' |- *.
    intros x Hx. pose proof (Hrefs' x Hx) as Hx'.
    apply elem_of_app in Hx' as [?|Hxp%list_elem_of_singleton]; [done|].
    subst x. destruct Hdep. by exists r'.
  - exists r. split_and!; [done | |].
    + rewrite not_elem_of_app, list_elem_of_singleton. naive_solver.
    + eapply Forall_impl; [done|]. intros x Hx. apply elem_of_app. by left.
Qed.

Lemma deployment_swap t d1 p q d2 :
  deployment t (d1 ++ p :: q :: d2) → ¬ depends t q p →
  deployment t (d1 ++ q :: p :: d2).
Proof.
  rewrite !deployment_creates, !creates_app. simpl.
  intros (Hd1 & Hp & Hq & Hd2) Hdep.
  destruct (ready_swap _ _ _ _ Hp Hq Hdep) as [Hq' Hp'].
  split_and!; [done..|]. eapply creates_perm; [|done|exact Hd2].
  rewrite <- !app_assoc. apply Permutation_app_head, perm_swap.
Qed.

Lemma readyb_created t d p : p ∈ d → readyb t d p = false.
Proof.
  intros Hp. unfold readyb. destruct (tree_lookup p t); [|done].
  by rewrite bool_decide_eq_false_2 by (by intros []).
Qed.

Lemma complete_paths t : complete t (paths t).
Proof. by apply Forall_forall. Qed.

(** A complete deployment has created the declared constructs, each once:
    two complete deployments differ by the order only. *)
Lemma complete_perm t d :
  NoDup (paths t) → deployed_ok t d → complete t d → d ≡ₚ paths t.
Proof.
  intros Hnd [Hd Hdecl _] Hc. apply NoDup_Permutation; [done..|].
  intros p. split; [apply Hdecl|]. unfold complete in Hc.
  rewrite Forall_forall in Hc. apply Hc.
Qed.

End deploy_lemmas.

(** ** The scheduler *)
