(* ===== verification/Scheduler.v ===== *)
(** * Scheduler: the choice of the construct to create next

    The step relation of [Deploy] leaves open which ready construct the
    engine creates.  A scheduler makes the choice: the interface
    [Scheduler] asks that it chooses a ready construct and that it chooses
    one whenever there is one.  The creation loop [deploy_all] runs a
    scheduler with fuel, and [deploy_with] gives it as many steps as the
    tree has constructs.  Two schedulers implement the interface: by
    declaration order ([next_ready], run by [deploy]) and by reverse
    declaration order ([last_ready]).

    The theorems are proved once, against the interface: every run is a
    deployment, with that fuel the loop creates every construct of a
    closed tree without cycle, and the result is the declared constructs
    up to their order.  For [next_ready] on a tree in declaration order
    the result is the declared constructs in their order. *)

From stdpp Require Import relations.
From S2P Require Import Prelude Construct Graph Deploy.

(** ** Definitions *)

Section scheduler.
Context {R : Type} `{!Referencing R}.
Implicit Types (t : Tree R) (p q : Path) (r : R) (d : list Path).
Implicit Types (pick : Tree R → list Path → option Path).

(** What the engine owes of its choice. *)
Class Scheduler pick : Prop := {
  pick_ready t d p : pick t d = Some p → ready t d p;
  pick_progress t d p : ready t d p → is_Some (pick t d)
}.

(** The creation loop: create what the scheduler chooses until it chooses
    nothing or the fuel is used up. *)
Fixpoint deploy_all pick (fuel : nat) t d : list Path :=
  match fuel with
  | 0 => d
  | S fuel' =>
      match pick t d with
      | Some p => deploy_all pick fuel' t (d ++ [p])
      | None => d
      end
  end.

Definition deploy_with pick t : list Path := deploy_all pick (length t) t [].

(** The first ready construct in declaration order. *)
Definition next_ready t d : option Path := find (readyb t d) (paths t).

(** The ready construct that was declared last. *)
Definition last_ready t d : option Path := find (readyb t d) (reverse (paths t)).

(** The deployment of a tree by declaration order. *)
Definition deploy t : list Path := deploy_all next_ready (length t) t [].

End scheduler.

(** ** Lemmas *)

(** ** Against the interface *)

Section scheduler_laws.
Context {R : Type} `{!Referencing R}.
Context (pick : Tree R → list Path → option Path) `{!Scheduler pick}.
Implicit Types (t : Tree R) (p q : Path) (r : R) (d : list Path).

(** A scheduler that chooses nothing has created everything. *)
Lemma pick_None t d : closed t → acyclic t → pick t d = None → complete t d.
Proof.
  intros Hc Ha Hnone. destruct (decide (complete t d)) as [|Hnc]; [done|].
  destruct (deploy_progress _ _ Hc Ha Hnc) as [d' Hstep].
  destruct Hstep as [d p Hp].
  apply (pick_progress (pick:=pick)) in Hp as [p' Hp']. congruence.
Qed.

(** Every run of the loop is a deployment, whatever the fuel. *)
Lemma deploy_all_rtc fuel t d : rtc (deploy_step t) d (deploy_all pick fuel t d).
Proof.
  revert d. induction fuel as [|fuel IH]; intros d; simpl; [done|].
  destruct (pick t d) as [p|] eqn:Hp; [|done].
  eapply rtc_l; [|apply IH]. constructor. by apply pick_ready.
Qed.

(** With as much fuel as constructs are left the loop stops only when
    everything is created. *)
Lemma deploy_all_complete fuel t d :
  closed t → acyclic t → deployed_ok t d →
  length t ≤ length d + fuel → complete t (deploy_all pick fuel t d).
Proof.
  intros Hc Ha. revert d. induction fuel as [|fuel IH]; intros d Hok Hlen; simpl.
  - destruct (decide (complete t d)) as [|Hnc]; [done|].
    destruct (deploy_progress _ _ Hc Ha Hnc) as [d' Hstep].
    pose proof (deploy_step_length _ _ _ Hstep).
    pose proof (deployed_ok_length _ _ (deploy_step_ok _ _ _ Hok Hstep)). lia.
  - destruct (pick t d) as [p|] eqn:Hp; [|by apply pick_None].
    assert (deploy_step t d (d ++ [p])) as Hstep
      by (constructor; by apply pick_ready).
    apply IH; [by eapply deploy_step_ok|]. rewrite length_app. simpl. lia.
Qed.

Lemma deploy_with_deployment t : deployment t (deploy_with pick t).
Proof. apply deploy_all_rtc. Qed.

(** The loop creates every construct of a closed tree without cycle. *)
Lemma deploy_with_complete t :
  closed t → acyclic t → complete t (deploy_with pick t).
Proof.
  intros Hc Ha. apply deploy_all_complete; [done.. | apply deployed_ok_nil | done].
Qed.

(** Whatever the scheduler, the result is the declared constructs up to
    their order. *)
Lemma deploy_with_perm t :
  closed t → acyclic t → NoDup (paths t) → deploy_with pick t ≡ₚ paths t.
Proof.
  intros Hc Ha Hnd. apply complete_perm; [done | |by apply deploy_with_complete].
  apply deployment_ok, deploy_with_deployment.
Qed.

End scheduler_laws.

(** ** The two schedulers *)

Section schedulers.
Context {R : Type} `{!Referencing R}.
Implicit Types (t : Tree R) (p q : Path) (r : R) (d : list Path).

(** The first ready construct of any enumeration of the declared
    constructs is a scheduler. *)
Lemma find_ready_scheduler (enum : Tree R → list Path) :
  (∀ t p, p ∈ paths t → p ∈ enum t) →
  Scheduler (λ t d, find (readyb t d) (enum t)).
Proof.
  intros Henum. split.
  - by intros t d p [_ ?%readyb_spec]%find_some.
  - intros t d p Hp. destruct (find _ _) eqn:Hnone; [done|].
    pose proof (Henum t p (ready_declared _ _ _ Hp)) as Hin.
    apply readyb_spec in Hp. apply list_elem_of_In in Hin.
    by rewrite (find_none _ _ Hnone p Hin) in Hp.
Qed.

#[export] Instance next_ready_scheduler : Scheduler (next_ready (R:=R)).
Proof. by apply (find_ready_scheduler paths). Qed.

#[export] Instance last_ready_scheduler : Scheduler (last_ready (R:=R)).
Proof.
  apply (find_ready_scheduler (λ t, reverse (paths t))).
  intros t p. by rewrite elem_of_reverse.
Qed.

(** After the constructs of [t1], the scheduler by declaration order takes
    the next construct of the tree. *)
Lemma next_ready_next t1 p r t2 :
  topo_ordered (t1 ++ (p, r) :: t2) → NoDup (paths (t1 ++ (p, r) :: t2)) →
  next_ready (t1 ++ (p, r) :: t2) (paths t1) = Some p.
Proof.
  intros Ht Hnd. unfold next_ready. rewrite paths_app, paths_cons.
  rewrite find_app_skip by (intros x Hx; by apply readyb_created).
  cbn [find]. replace (readyb _ _ p) with true; [done|].
  symmetry. apply readyb_spec. exists r.
  rewrite paths_app, paths_cons in Hnd. apply NoDup_app in Hnd as (_ & Hnd & _).
  apply topo_ext_app in Ht as [_ Ht]. inversion Ht; subst. split_and!.
  - rewrite tree_lookup_app_r, tree_lookup_cons_eq; [done|].
    intros Hp. by eapply Hnd; [|left].
  - intros Hp. by eapply Hnd; [|left].
  - done.
Qed.

Lemma deploy_all_declared t1 t2 :
  topo_ordered (t1 ++ t2) → NoDup (paths (t1 ++ t2)) →
  deploy_all next_ready (length t2) (t1 ++ t2) (paths t1) = paths (t1 ++ t2).
Proof.
  revert t1. induction t2 as [|[p r] t2 IH]; intros t1 Ht Hnd.
  - by rewrite app_nil_r.
  - cbn [length deploy_all]. rewrite next_ready_next by done.
    rewrite <- (paths_snoc t1 p r).
    rewrite (cons_middle _ t1 t2), app_assoc in Ht, Hnd |- *.
    by apply IH.
Qed.

(** The scheduler by declaration order creates the constructs in the
    order of their declaration. *)
Lemma deploy_declared t :
  topo_ordered t → NoDup (paths t) → deploy t = paths t.
Proof. intros. by apply (deploy_all_declared []). Qed.

Lemma deploy_deployment t : deployment t (deploy t).
Proof. apply (deploy_with_deployment next_ready). Qed.

Lemma deploy_complete t : closed t → acyclic t → complete t (deploy t).
Proof. apply (deploy_with_complete next_ready). Qed.

End schedulers.
