(* ===== verification/TreeMap.v ===== *)
(** * TreeMap: the construct tree as a finite map

    The declaration API promises a finite map from paths to constructs:
    a declaration inserts at a path that is free, a handle is looked up,
    a mutator alters the construct at its path.  [Construct] keeps the
    tree as the list of the declarations in their order, because the
    order is what the dependency checks of [Graph] are stated on.  This
    file relates the two: [tree_map] is the abstraction function,
    [map_declare], [map_read], [map_write] and [map_mutate] are the
    operations on maps, and [refines] says that a build on lists, run and
    then abstracted, is the build on maps run on the abstraction, errors
    included.

    Two trees are equivalent ([tree_equiv]) when they are the same map:
    the same constructs, declared in whatever order.  A build is
    [order_free] when it cannot tell equivalent trees apart; every
    operation of the API is, and so is every build made of them.  The
    provisioning engine does not tell them apart either: readiness, the
    steps, the deployments and their completeness are morphisms of the
    equivalence. *)

From stdpp Require Import relations gmap.
From S2P Require Import Prelude Tokens Construct Graph Deploy.

Local Open Scope build_scope.

(** ** Definitions *)

Section tree_map.
Context {R : Type} `{!Referencing R}.
Implicit Types (t u : Tree R) (m : gmap Path R) (p q scope : Path)
  (id : string) (r : R).

(** The abstraction function; of two declarations at one path the first
    counts, as for [tree_lookup]. *)
Definition tree_map t : gmap Path R := list_to_map t.

Definition tree_equiv t u : Prop := tree_map t = tree_map u.

(** The first of [qs] that is not in the map. *)
Fixpoint map_unresolved m (qs : list Path) : option Path :=
  match qs with
  | [] => None
  | q :: qs' => if decide (is_Some (m !! q)) then map_unresolved m qs' else Some q
  end.

(** The operations of the API on maps. *)
Definition map_declare scope id r : StateErr (gmap Path R) BuildError Path :=
  λ m,
    let p := scope ++ [id] in
    if decide (is_Some (m !! scope)) then
      if decide (is_Some (m !! p)) then inl (DuplicateId p)
      else match map_unresolved m (refs r) with
           | Some q => inl (UnresolvedReference p q)
           | None => inr (p, <[p := r]> m)
           end
    else inl (NoSuchConstruct scope).

Definition map_read p : StateErr (gmap Path R) BuildError R :=
  λ m, match m !! p with
       | Some r => inr (r, m)
       | None => inl (NoSuchConstruct p)
       end.

Definition map_write p (r' : R) : StateErr (gmap Path R) BuildError unit :=
  λ m, match map_unresolved m (refs r') with
       | Some q => inl (UnresolvedReference p q)
       | None => inr ((), alter (λ _, r') p m)
       end.

Definition map_mutate p (f : R → BuildError + R)
    : StateErr (gmap Path R) BuildError unit :=
  r <- map_read p ;;
  r' <- lift_sum (f r) ;;
  map_write p r'.

(** The outcome of a build with its tree abstracted. *)
Definition abstract {A} (x : BuildError + A * Tree R) : BuildError + A * gmap Path R :=
  map_inr (prod_map id tree_map) x.

(** [refines c a]: the build [c] on lists implements the build [a] on
    maps. *)
Definition refines {A} (c : Build R A) (a : StateErr (gmap Path R) BuildError A)
    : Prop :=
  ∀ t, abstract (c t) = a (tree_map t).

(** [order_free c]: on equivalent trees [c] raises the same error or
    returns the same value and equivalent trees. *)
Definition order_free {A} (c : Build R A) : Prop :=
  ∀ t u, tree_equiv t u → abstract (c t) = abstract (c u).

End tree_map.

(** ** The abstraction *)

Section tree_map_lemmas.
Context {R : Type} `{!Referencing R}.
Implicit Types (t u : Tree R) (m : gmap Path R) (p q scope : Path)
  (id : string) (r : R).

Lemma tree_map_lookup t p : tree_map t !! p = tree_lookup p t.
Proof.
  unfold tree_map. induction t as [|[q r] t IH]; [done|].
  cbn [list_to_map foldr tree_lookup uncurry]. case_decide as Hpq.
  - subst. apply lookup_insert_eq.
  - by rewrite lookup_insert_ne.
Qed.

Lemma tree_equiv_lookup t u :
  tree_equiv t u ↔ ∀ p, tree_lookup p t = tree_lookup p u.
Proof.
  unfold tree_equiv. rewrite map_eq_iff.
  by setoid_rewrite tree_map_lookup.
Qed.

#[export] Instance tree_equiv_equivalence : Equivalence (tree_equiv (R:=R)).
Proof.
  unfold tree_equiv. split; [by intros ? | by intros ?? | by intros ??? -> ].
Qed.

Lemma tree_map_declared t p : is_Some (tree_map t !! p) ↔ p ∈ paths t.
Proof. by rewrite tree_map_lookup, tree_lookup_is_Some. Qed.

Lemma tree_equiv_paths t u p : tree_equiv t u → p ∈ paths t ↔ p ∈ paths u.
Proof. intros H. rewrite <- !tree_map_declared. by rewrite H. Qed.

(** Trees without duplicates that are permutations of one another are
    the same map. *)
Lemma tree_equiv_perm t u : NoDup (paths t) → t ≡ₚ u → tree_equiv t u.
Proof. apply list_to_map_proper. Qed.

Lemma tree_map_snoc t p r :
  p ∉ paths t → tree_map (t ++ [(p, r)]) = <[p := r]> (tree_map t).
Proof.
  intros Hp. apply map_eq. intros q. rewrite tree_map_lookup, tree_lookup_app.
  destruct (decide (q = p)) as [->|Hq].
  - rewrite lookup_insert_eq, (proj2 (tree_lookup_None p t) Hp).
    apply tree_lookup_cons_eq.
  - rewrite lookup_insert_ne, tree_map_lookup by done.
    rewrite tree_lookup_cons_ne by done. by destruct (tree_lookup q t).
Qed.

Lemma tree_map_update t p r :
  tree_map (tree_update p r t) = alter (λ _, r) p (tree_map t).
Proof.
  apply map_eq. intros q. rewrite tree_map_lookup.
  destruct (decide (p = q)) as [<-|Hq].
  - rewrite lookup_alter_eq, tree_map_lookup.
    destruct (tree_lookup p t) as [r0|] eqn:Hp.
    + by erewrite tree_lookup_update.
    + apply tree_lookup_None in Hp. rewrite tree_update_notin by done.
      by apply tree_lookup_None.
  - by rewrite lookup_alter_ne, tree_map_lookup, tree_lookup_update_ne.
Qed.

Lemma map_unresolved_tree t qs :
  map_unresolved (tree_map t) qs = unresolved t qs.
Proof.
  induction qs as [|q qs IH]; [done|]. cbn [map_unresolved unresolved].
  rewrite IH. apply decide_ext, tree_map_declared.
Qed.

(** ** The engine sees the map *)

#[export] Instance tree_lookup_equiv p :
  Proper (tree_equiv ==> (=)) (tree_lookup (R:=R) p).
Proof. intros t u H. by apply tree_equiv_lookup. Qed.

#[export] Instance depends_equiv :
  Proper (tree_equiv ==> (=) ==> (=) ==> iff) (depends (R:=R)).
Proof.
  intros t u H p ? <- q ? <-. unfold depends.
  by setoid_rewrite (proj1 (tree_equiv_lookup t u) H).
Qed.

#[export] Instance closed_equiv : Proper (tree_equiv ==> iff) (closed (R:=R)).
Proof.
  intros t u H. unfold closed.
  split; intros Hc p q Hd; apply (tree_equiv_paths t u q H), (Hc p);
    by eapply depends_equiv.
Qed.

Lemma tc_depends_equiv t u p q :
  tree_equiv t u → tc (depends t) p q → tc (depends u) p q.
Proof.
  intros H. apply (tc_congruence id). intros x y Hxy.
  by eapply depends_equiv.
Qed.

#[export] Instance acyclic_equiv : Proper (tree_equiv ==> iff) (acyclic (R:=R)).
Proof.
  intros t u H. unfold acyclic.
  split; intros Ha p Hp; apply (Ha p); by eapply tc_depends_equiv.
Qed.

#[export] Instance ready_equiv :
  Proper (tree_equiv ==> (=) ==> (=) ==> iff) (ready (R:=R)).
Proof.
  intros t u H d ? <- p ? <-. unfold ready.
  by setoid_rewrite (proj1 (tree_equiv_lookup t u) H).
Qed.

#[export] Instance deploy_step_equiv :
  Proper (tree_equiv ==> (=) ==> (=) ==> iff) (deploy_step (R:=R)).
Proof.
  intros t u H d ? <- d' ? <-.
  split; intros [d0 p Hp]; constructor; by eapply ready_equiv.
Qed.

#[export] Instance deployment_equiv :
  Proper (tree_equiv ==> (=) ==> iff) (deployment (R:=R)).
Proof.
  intros t u H d ? <-. unfold deployment.
  split; apply (rtc_congruence id); intros x y Hxy; by eapply deploy_step_equiv.
Qed.

#[export] Instance complete_equiv :
  Proper (tree_equiv ==> (=) ==> iff) (complete (R:=R)).
Proof.
  intros t u H d ? <-. unfold complete. rewrite !Forall_forall.
  split; intros Hc p Hp; apply Hc; by eapply tree_equiv_paths.
Qed.

(** ** The operations refine the operations on maps *)

Lemma refines_ret {A} (a : A) : refines (R:=R) (ret a) (ret a).
Proof. by intros t. Qed.

Lemma refines_raise {A} e : refines (R:=R) (A:=A) (raise e) (raise e).
Proof. by intros t. Qed.

Lemma refines_lift_sum {A} (x : BuildError + A) :
  refines (R:=R) (lift_sum x) (lift_sum x).
Proof. intros t. by destruct x. Qed.

Lemma refines_bind {A B} (c : Build R A) a (k : A → Build R B) h :
  refines c a → (∀ x, refines (k x) (h x)) → refines (bind c k) (bind a h).
Proof.
  intros Hc Hk t. unfold bind. rewrite <- Hc.
  destruct (c t) as [e|[x t']]; [done|]. apply Hk.
Qed.

Lemma declare_refines scope id r :
  refines (declare scope id r) (map_declare scope id r).
Proof.
  intros t. unfold declare, map_declare, abstract.
  rewrite map_unresolved_tree.
  rewrite (decide_ext _ _ _ _ (tree_map_declared t scope)).
  rewrite (decide_ext _ _ _ _ (tree_map_declared t (scope ++ [id]))).
  repeat case_decide; try done.
  destruct (unresolved t (refs r)); [done|].
  unfold prod_map. cbn [map_inr fst snd]. by rewrite tree_map_snoc.
Qed.

Lemma read_refines p : refines (A:=R) (read p) (map_read p).
Proof.
  intros t. unfold read, map_read. rewrite tree_map_lookup.
  by destruct (tree_lookup p t).
Qed.

Lemma write_refines p r : refines (write p r) (map_write p r).
Proof.
  intros t. unfold write, map_write. rewrite map_unresolved_tree.
  destruct (unresolved t (refs r)); [done|].
  unfold abstract, prod_map. cbn [map_inr fst snd]. by rewrite tree_map_update.
Qed.

Lemma mutate_refines p (f : R → BuildError + R) :
  refines (mutate p f) (map_mutate p f).
Proof.
  unfold mutate, map_mutate. apply refines_bind; [apply read_refines|].
  intros r. apply refines_bind; [apply refines_lift_sum|]. apply write_refines.
Qed.

(** ** Builds that do not depend on the order of the declarations *)

(** A build that implements a build on maps cannot depend on the order. *)
Lemma refines_order_free {A} (c : Build R A) a : refines c a → order_free c.
Proof. intros Hc t u H. by rewrite !Hc, H. Qed.

Lemma order_free_ret {A} (a : A) : order_free (R:=R) (ret a).
Proof. eapply refines_order_free, refines_ret. Qed.

Lemma order_free_raise {A} e : order_free (R:=R) (A:=A) (raise e).
Proof. eapply refines_order_free, refines_raise. Qed.

Lemma order_free_lift_sum {A} (x : BuildError + A) : order_free (R:=R) (lift_sum x).
Proof. eapply refines_order_free, refines_lift_sum. Qed.

Lemma order_free_declare scope id r : order_free (declare scope id r).
Proof. eapply refines_order_free, declare_refines. Qed.

Lemma order_free_read p : order_free (A:=R) (read p).
Proof. eapply refines_order_free, read_refines. Qed.

Lemma order_free_write p r : order_free (write p r).
Proof. eapply refines_order_free, write_refines. Qed.

Lemma order_free_mutate p (f : R → BuildError + R) : order_free (mutate p f).
Proof. eapply refines_order_free, mutate_refines. Qed.

Lemma abstract_inr_eq {A} (x x' : A) t u :
  abstract (inr (x, t)) = abstract (inr (x', u)) ↔ x = x' ∧ tree_equiv t u.
Proof.
  unfold abstract, prod_map, tree_equiv. cbn [map_inr fst snd].
  split; [by intros [= -> ->] | by intros [-> ->]].
Qed.

Lemma order_free_bind {A B} (c : Build R A) (k : A → Build R B) :
  order_free c → (∀ x, order_free (k x)) → order_free (bind c k).
Proof.
  intros Hc Hk t u H. unfold bind. specialize (Hc t u H).
  destruct (c t) as [e|[x t']], (c u) as [e'|[x' u']]; [by injection Hc as ->|done..|].
  apply abstract_inr_eq in Hc as [-> Ht]. by apply Hk.
Qed.

(** What an order-free build leaves on equivalent trees. *)
Lemma order_free_inr {A} (c : Build R A) t u x t' :
  order_free c → tree_equiv t u → c t = inr (x, t') →
  ∃ u', c u = inr (x, u') ∧ tree_equiv t' u'.
Proof.
  intros Hc H Ht. specialize (Hc t u H). rewrite Ht in Hc.
  destruct (c u) as [e|[x' u']]; [done|].
  apply abstract_inr_eq in Hc as [<- Hu]. eauto.
Qed.

Lemma order_free_inl {A} (c : Build R A) t u e :
  order_free c → tree_equiv t u → c t = inl e → c u = inl e.
Proof.
  intros Hc H Ht. specialize (Hc t u H). rewrite Ht in Hc.
  destruct (c u) as [e'|[x' u']]; [by injection Hc as <- | done].
Qed.

End tree_map_lemmas.

(** ** With the scopes as dependencies *)

Section scoped_map.
Context {R : Type} `{!Referencing R}.
Implicit Types (t u : Tree R).

Lemma scoped_equiv t u : tree_equiv t u → tree_equiv (scoped t) (scoped u).
Proof.
  rewrite !tree_equiv_lookup. intros H p. by rewrite !tree_lookup_scoped, H.
Qed.

(** Equivalent trees have the same deployments, complete at the same
    time. *)
Lemma scoped_deployment_equiv t u d :
  tree_equiv t u →
  (deployment (scoped t) d ↔ deployment (scoped u) d)
  ∧ (complete (scoped t) d ↔ complete (scoped u) d).
Proof. intros H%scoped_equiv. by rewrite H. Qed.

End scoped_map.

#[export] Hint Resolve order_free_ret order_free_raise order_free_lift_sum
  order_free_declare order_free_read order_free_write order_free_mutate : build.

(** [solve_order_free] proves that a build made of the operations of the
    API is order free. *)
Ltac solve_order_free :=
  repeat first
    [ progress intros
    | solve [eauto with build]
    | apply order_free_bind
    | match goal with |- order_free (match ?x with _ => _ end) => destruct x end ].
