(* ===== verification/Resources.v ===== *)
(** * Resources: the constructs the stack declares

    One record per construct of the CDK that [sonar_stack.py] instantiates,
    with the keyword arguments of the source as fields, and the state the
    source mutates after construction (ingress rules, bootstrap commands,
    policy statements, ulimits) beside them.  [Resource] is their sum, the
    type of the nodes of the construct tree.  The operations are the methods
    and attributes of the CDK that the stack calls; a handle is a path, so a
    method that mutates its receiver is a [mutate] of the shared tree. *)

From stdpp Require Import gmap.
From S2P Require Import Prelude Tokens Construct.

Local Open Scope Z_scope.

(** ** Enumerations and values *)

Inductive InstanceClass := BURSTABLE2 | BURSTABLE3 | STANDARD5 | MEMORY5 | COMPUTE5.

Inductive InstanceSize := NANO | MICRO | SMALL | MEDIUM | LARGE | XLARGE.

Record InstanceType := mkInstanceType { instance_type_identifier : string }.

Inductive DatabaseClusterEngine := AURORA | AURORA_MYSQL | AURORA_POSTGRESQL.

Inductive Peer :=
| AnyIpv4
| AnyIpv6
| Ipv4 (cidr : string).

Inductive Protocol := TCP | UDP | ALL_TRAFFIC.

Record Port := mkPort { port_protocol : Protocol; from_port : Z; to_port : Z }.

Record IngressRule := mkIngressRule {
  rule_peer : Peer;
  rule_connection : Port;
  rule_description : option string
}.

(** A secret value is either given in clear or is a reference to a field of
    a secret kept by the secrets manager. *)
Inductive SecretValue :=
| PlainText (s : string)
| SecretsManagerRef (secret : Path) (json_field : string).

Record Login := mkLogin { username : string; password : option SecretValue }.

Inductive Principal :=
| ServicePrincipal (service : string)
| AccountRootPrincipal
| AnyPrincipal.

Record ManagedPolicy := mkManagedPolicy { managed_policy_name : string }.

Record PolicyStatement := mkPolicyStatement {
  actions : list string;
  resources : list Path
}.

Inductive EcsSecret :=
| FromSecretsManager (secret : Path) (field : option string)
| FromSsmParameter (parameter : Path).

Inductive ContainerImage :=
| FromRegistry (name : string)
| FromAsset (directory : string).

Inductive UlimitName :=
| CORE | CPU | DATA | FSIZE | LOCKS | MEMLOCK | MSGQUEUE | NICE | NOFILE
| NPROC | RSS | RTPRIO | RTTIME | SIGPENDING | STACK.

Record Ulimit := mkUlimit { name : UlimitName; soft_limit : Z; hard_limit : Z }.

(** ** Properties of the constructs *)

Record VpcProps := mkVpcProps { max_azs : Z }.

Record DatabaseSecretProps := mkDatabaseSecretProps { secret_username : string }.

Record SecurityGroupProps := mkSecurityGroupProps {
  sg_vpc : Path;
  allow_all_outbound : bool;
  description : string
}.

Record InstanceProps := mkInstanceProps {
  instance_type : InstanceType;
  security_groups : list Path;
  ip_vpc : Path
}.

Record DatabaseClusterProps := mkDatabaseClusterProps {
  engine : DatabaseClusterEngine;
  default_database_name : string;
  engine_version : string;
  parameter_group : Path;
  master_user : Login;
  instance_props : InstanceProps
}.

Record AddCapacityOptions := mkAddCapacityOptions {
  capacity_instance_type : InstanceType
}.

Record ClusterProps := mkClusterProps {
  capacity : option AddCapacityOptions;
  cluster_vpc : Path
}.

Record RoleProps := mkRoleProps {
  role_name : string;
  assumed_by : Principal;
  managed_policies : list ManagedPolicy
}.

Record ApplicationLoadBalancedTaskImageOptions := mkTaskImageOptions {
  image : ContainerImage;
  container_port : Z;
  secrets : gmap string EcsSecret;
  environment : gmap string TString;
  task_role : Path
}.

Record ApplicationLoadBalancedEc2ServiceProps := mkServiceProps {
  cluster : Path;
  cpu : Z;
  desired_count : Z;
  task_image_options : ApplicationLoadBalancedTaskImageOptions;
  memory_limit_mib : Z;
  public_load_balancer : bool
}.

(** ** The nodes of the tree *)

(** Keyword arguments passed on as they are ([**kwargs]): a dictionary from
    the keyword to the text of its value. *)
Abbreviation Kwargs := (gmap string string).

Inductive Resource :=
| RApp
| RStack (kwargs : Kwargs)
| RVpc (props : VpcProps)
| RDatabaseSecret (props : DatabaseSecretProps)
| RSecurityGroup (props : SecurityGroupProps) (ingress : list IngressRule)
| RParameterGroup (parameter_group_name : string)
| RDatabaseCluster (props : DatabaseClusterProps)
| RCluster (props : ClusterProps)
| RAutoScalingGroup (user_data : list string)
| RRole (props : RoleProps) (statements : list PolicyStatement)
| RService (props : ApplicationLoadBalancedEc2ServiceProps)
| RTaskDefinition
| RContainer (ulimits : list Ulimit).

#[export] Instance InstanceClass_eq_dec : EqDecision InstanceClass.
Proof. solve_decision. Defined.
#[export] Instance InstanceSize_eq_dec : EqDecision InstanceSize.
Proof. solve_decision. Defined.
#[export] Instance InstanceType_eq_dec : EqDecision InstanceType.
Proof. solve_decision. Defined.
#[export] Instance DatabaseClusterEngine_eq_dec : EqDecision DatabaseClusterEngine.
Proof. solve_decision. Defined.
#[export] Instance Peer_eq_dec : EqDecision Peer.
Proof. solve_decision. Defined.
#[export] Instance Protocol_eq_dec : EqDecision Protocol.
Proof. solve_decision. Defined.
#[export] Instance Port_eq_dec : EqDecision Port.
Proof. solve_decision. Defined.
#[export] Instance IngressRule_eq_dec : EqDecision IngressRule.
Proof. solve_decision. Defined.
#[export] Instance SecretValue_eq_dec : EqDecision SecretValue.
Proof. solve_decision. Defined.
#[export] Instance Login_eq_dec : EqDecision Login.
Proof. solve_decision. Defined.
#[export] Instance Principal_eq_dec : EqDecision Principal.
Proof. solve_decision. Defined.
#[export] Instance ManagedPolicy_eq_dec : EqDecision ManagedPolicy.
Proof. solve_decision. Defined.
#[export] Instance PolicyStatement_eq_dec : EqDecision PolicyStatement.
Proof. solve_decision. Defined.
#[export] Instance EcsSecret_eq_dec : EqDecision EcsSecret.
Proof. solve_decision. Defined.
#[export] Instance ContainerImage_eq_dec : EqDecision ContainerImage.
Proof. solve_decision. Defined.
#[export] Instance UlimitName_eq_dec : EqDecision UlimitName.
Proof. solve_decision. Defined.
#[export] Instance Ulimit_eq_dec : EqDecision Ulimit.
Proof. solve_decision. Defined.
#[export] Instance VpcProps_eq_dec : EqDecision VpcProps.
Proof. solve_decision. Defined.
#[export] Instance DatabaseSecretProps_eq_dec : EqDecision DatabaseSecretProps.
Proof. solve_decision. Defined.
#[export] Instance SecurityGroupProps_eq_dec : EqDecision SecurityGroupProps.
Proof. solve_decision. Defined.
#[export] Instance InstanceProps_eq_dec : EqDecision InstanceProps.
Proof. solve_decision. Defined.
#[export] Instance DatabaseClusterProps_eq_dec : EqDecision DatabaseClusterProps.
Proof. solve_decision. Defined.
#[export] Instance AddCapacityOptions_eq_dec : EqDecision AddCapacityOptions.
Proof. solve_decision. Defined.
#[export] Instance ClusterProps_eq_dec : EqDecision ClusterProps.
Proof. solve_decision. Defined.
#[export] Instance RoleProps_eq_dec : EqDecision RoleProps.
Proof. solve_decision. Defined.
#[export] Instance TaskImageOptions_eq_dec :
  EqDecision ApplicationLoadBalancedTaskImageOptions.
Proof. solve_decision. Defined.
#[export] Instance ServiceProps_eq_dec :
  EqDecision ApplicationLoadBalancedEc2ServiceProps.
Proof. solve_decision. Defined.
#[export] Instance Resource_eq_dec : EqDecision Resource.
Proof. solve_decision. Defined.

(** ** Values the library computes *)

Definition instance_class_name (c : InstanceClass) : string :=
  match c with
  | BURSTABLE2 => "t2"
  | BURSTABLE3 => "t3"
  | STANDARD5 => "m5"
  | MEMORY5 => "r5"
  | COMPUTE5 => "c5"
  end.

Definition instance_size_name (s : InstanceSize) : string :=
  match s with
  | NANO => "nano"
  | MICRO => "micro"
  | SMALL => "small"
  | MEDIUM => "medium"
  | LARGE => "large"
  | XLARGE => "xlarge"
  end.

(** [ec2.InstanceType.of(class, size)] *)
Definition InstanceType_of (c : InstanceClass) (s : InstanceSize) : InstanceType :=
  mkInstanceType (instance_class_name c +:+ "." +:+ instance_size_name s).

(** [ec2.Port.tcp(n)] *)
Definition Port_tcp (n : Z) : Port := mkPort TCP n n.

(** [ec2.Peer.any_ipv4()] *)
Definition Peer_any_ipv4 : Peer := AnyIpv4.

(** The port a cluster of the engine listens on when none is given. *)
Definition engine_default_port (e : DatabaseClusterEngine) : Z :=
  match e with
  | AURORA => 3306
  | AURORA_MYSQL => 3306
  | AURORA_POSTGRESQL => 5432
  end.

(** [iam.ManagedPolicy.from_aws_managed_policy_name(name)] *)
Definition from_aws_managed_policy_name (n : string) : ManagedPolicy :=
  mkManagedPolicy n.

(** [secret.secret_value_from_json(key)]: a reference, never the value. *)
Definition secret_value_from_json (secret : Path) (key : string) : SecretValue :=
  SecretsManagerRef secret key.

(** [ecs.Secret.from_secrets_manager(secret, field)] *)
Definition from_secrets_manager (secret : Path) (field : string) : EcsSecret :=
  FromSecretsManager secret (Some field).

(** [ecs.ContainerImage.from_registry(name)] *)
Definition from_registry (n : string) : ContainerImage := FromRegistry n.

(** Does a rule let traffic to TCP port [n] in? *)
Definition rule_admits (n : Z) (rule : IngressRule) : bool :=
  match port_protocol (rule_connection rule) with
  | TCP => (from_port (rule_connection rule) <=? n) && (n <=? to_port (rule_connection rule))
  | UDP => false
  | ALL_TRAFFIC => true
  end.

(** The statement [grant_read] adds to the policy of the grantee. *)
Definition read_statement (secret : Path) : PolicyStatement :=
  mkPolicyStatement
    ["secretsmanager:GetSecretValue"; "secretsmanager:DescribeSecret"]
    [secret].

(** ** References *)

Definition secret_value_refs (v : SecretValue) : list Path :=
  match v with
  | PlainText _ => []
  | SecretsManagerRef secret _ => [secret]
  end.

Definition ecs_secret_refs (s : EcsSecret) : list Path :=
  match s with
  | FromSecretsManager secret _ => [secret]
  | FromSsmParameter parameter => [parameter]
  end.

Definition token_targets (ts : TString) : list Path := tok_target <$> tokens_of ts.

Definition database_refs (props : DatabaseClusterProps) : list Path :=
  parameter_group props
  :: ip_vpc (instance_props props)
  :: security_groups (instance_props props)
  ++ from_option secret_value_refs [] (password (master_user props)).

Definition service_refs (props : ApplicationLoadBalancedEc2ServiceProps) : list Path :=
  cluster props
  :: task_role (task_image_options props)
  :: ((map_to_list (secrets (task_image_options props))).*2 ≫= ecs_secret_refs)
  ++ ((map_to_list (environment (task_image_options props))).*2 ≫= token_targets).

Definition resource_refs (r : Resource) : list Path :=
  match r with
  | RSecurityGroup props _ => [sg_vpc props]
  | RDatabaseCluster props => database_refs props
  | RCluster props => [cluster_vpc props]
  | RRole _ statements => statements ≫= resources
  | RService props => service_refs props
  | RApp | RStack _ | RVpc _ | RDatabaseSecret _ | RParameterGroup _
  | RAutoScalingGroup _ | RTaskDefinition | RContainer _ => []
  end.

#[export] Instance Resource_referencing : Referencing Resource := resource_refs.

(** ** Constructors of the library *)

Abbreviation Builder := (Build Resource).

Local Open Scope build_scope.

(** [core.App()]: the tree that holds the root alone. *)
Definition App : Tree Resource := [([], RApp)].

(** [core.Stack(scope, id)] *)
Definition Stack (scope : Path) (id : string) (kwargs : Kwargs) : Builder Path :=
  declare scope id (RStack kwargs).

(** [ec2.Vpc(scope, id, **props)] *)
Definition Vpc (scope : Path) (id : string) (props : VpcProps) : Builder Path :=
  declare scope id (RVpc props).

(** [rds.DatabaseSecret(scope, id, **props)] *)
Definition DatabaseSecret (scope : Path) (id : string)
    (props : DatabaseSecretProps) : Builder Path :=
  declare scope id (RDatabaseSecret props).

(** [ec2.SecurityGroup(scope, id, **props)]: no ingress rule yet. *)
Definition SecurityGroup (scope : Path) (id : string)
    (props : SecurityGroupProps) : Builder Path :=
  declare scope id (RSecurityGroup props []).

(** [sg.add_ingress_rule(peer, connection, description)] *)
Definition add_ingress_rule (sg : Path) (peer : Peer) (connection : Port)
    (descr : option string) : Builder unit :=
  mutate sg (λ r,
    match r with
    | RSecurityGroup props ingress =>
        inr (RSecurityGroup props (ingress ++ [mkIngressRule peer connection descr]))
    | _ => inl (WrongKind sg)
    end).

(** [rds.ClusterParameterGroup.from_parameter_group_name(scope, id, name)] *)
Definition from_parameter_group_name (scope : Path) (id : string)
    (n : string) : Builder Path :=
  declare scope id (RParameterGroup n).

(** [rds.DatabaseCluster(scope, id, **props)] *)
Definition DatabaseCluster (scope : Path) (id : string)
    (props : DatabaseClusterProps) : Builder Path :=
  declare scope id (RDatabaseCluster props).

(** The identifier of the auto-scaling group a cluster creates for its
    [capacity]. *)
Definition default_asg_id : string := "DefaultAutoScalingGroup".

(** [ecs.Cluster(scope, id, **props)]: with [capacity], the cluster creates
    its default auto-scaling group as a child. *)
Definition Cluster (scope : Path) (id : string) (props : ClusterProps) : Builder Path :=
  c <- declare scope id (RCluster props) ;;
  match capacity props with
  | Some _ => (declare c default_asg_id (RAutoScalingGroup []) ;;; ret c)
  | None => ret c
  end.

(** [cluster.autoscaling_group]: [None] in Python when the cluster was
    given no capacity, and then any use of it is an [AttributeError]. *)
Definition autoscaling_group (c : Path) : Builder Path :=
  r <- read c ;;
  match r with
  | RCluster props =>
      match capacity props with
      | Some _ => ret (c ++ [default_asg_id])
      | None => raise (NoAttribute c "autoscaling_group")
      end
  | _ => raise (WrongKind c)
  end.

(** [asg.user_data]: the bootstrap script of the group; the handle on it is
    the handle on the group. *)
Definition user_data (asg : Path) : Builder Path :=
  r <- read asg ;;
  match r with
  | RAutoScalingGroup _ => ret asg
  | _ => raise (WrongKind asg)
  end.

(** [user_data.add_commands( *commands )]: appended, in order. *)
Definition add_commands (ud : Path) (commands : list string) : Builder unit :=
  mutate ud (λ r,
    match r with
    | RAutoScalingGroup cs => inr (RAutoScalingGroup (cs ++ commands))
    | _ => inl (WrongKind ud)
    end).

(** [iam.Role(scope, id, **props)]: no inline statement yet. *)
Definition Role (scope : Path) (id : string) (props : RoleProps) : Builder Path :=
  declare scope id (RRole props []).

(** [secret.grant_read(grantee)] *)
Definition grant_read (secret grantee : Path) : Builder unit :=
  s <- read secret ;;
  match s with
  | RDatabaseSecret _ =>
      mutate grantee (λ r,
        match r with
        | RRole props statements =>
            inr (RRole props (statements ++ [read_statement secret]))
        | _ => inl (WrongKind grantee)
        end)
  | _ => raise (WrongKind secret)
  end.

(** [db.cluster_endpoint.socket_address]: host and port, both deferred. *)
Definition socket_address (db : Path) : Builder TString :=
  r <- read db ;;
  match r with
  | RDatabaseCluster _ =>
      ret [FTok (mkToken db "Endpoint.Address"); FLit ":";
           FTok (mkToken db "Endpoint.Port")]
  | _ => raise (WrongKind db)
  end.

Definition task_definition_id : string := "TaskDef".
Definition default_container_id : string := "web".

(** [ecs_patterns.ApplicationLoadBalancedEc2Service(scope, id, **props)]:
    the service creates its task definition and, in it, the container of
    the image. *)
Definition ApplicationLoadBalancedEc2Service (scope : Path) (id : string)
    (props : ApplicationLoadBalancedEc2ServiceProps) : Builder Path :=
  s <- declare scope id (RService props) ;;
  td <- declare s task_definition_id RTaskDefinition ;;
  declare td default_container_id (RContainer []) ;;;
  ret s.

(** [service.task_definition] *)
Definition task_definition (s : Path) : Builder Path :=
  r <- read s ;;
  match r with
  | RService _ => ret (s ++ [task_definition_id])
  | _ => raise (WrongKind s)
  end.

(** [task_definition.default_container] *)
Definition default_container (td : Path) : Builder Path :=
  r <- read td ;;
  match r with
  | RTaskDefinition =>
      c <- read (td ++ [default_container_id]) ;;
      match c with
      | RContainer _ => ret (td ++ [default_container_id])
      | _ => raise (WrongKind (td ++ [default_container_id]))
      end
  | _ => raise (WrongKind td)
  end.

(** [container.add_ulimits( *ulimits )] *)
Definition add_ulimits (c : Path) (uls : list Ulimit) : Builder unit :=
  mutate c (λ r,
    match r with
    | RContainer ulimits => inr (RContainer (ulimits ++ uls))
    | _ => inl (WrongKind c)
    end).

(** [template.format( *args )] inside a build. *)
Definition format (tpl : string) (args : list TString) : Builder TString :=
  lift_sum (match py_format tpl args with
            | inl e => inl (FormatFailure e)
            | inr r => inr r
            end).

(** ** Observations on a tree

    What the properties of the stack are stated with. *)

(** The kind of construct a node is. *)
Inductive Kind :=
| KApp | KStack | KVpc | KDatabaseSecret | KSecurityGroup | KParameterGroup
| KDatabaseCluster | KCluster | KAutoScalingGroup | KRole | KService
| KTaskDefinition | KContainer.

#[export] Instance Kind_eq_dec : EqDecision Kind.
Proof. solve_decision. Defined.

Definition kind_of (r : Resource) : Kind :=
  match r with
  | RApp => KApp
  | RStack _ => KStack
  | RVpc _ => KVpc
  | RDatabaseSecret _ => KDatabaseSecret
  | RSecurityGroup _ _ => KSecurityGroup
  | RParameterGroup _ => KParameterGroup
  | RDatabaseCluster _ => KDatabaseCluster
  | RCluster _ => KCluster
  | RAutoScalingGroup _ => KAutoScalingGroup
  | RRole _ _ => KRole
  | RService _ => KService
  | RTaskDefinition => KTaskDefinition
  | RContainer _ => KContainer
  end.

Definition count_kind (k : Kind) (t : Tree Resource) : nat :=
  length (filter (λ pr, kind_of pr.2 = k) t).

(** The secret values a resource is configured with. *)
Definition secret_values (r : Resource) : list SecretValue :=
  match r with
  | RDatabaseCluster props => from_option (λ v, [v]) [] (password (master_user props))
  | _ => []
  end.

Definition is_reference (v : SecretValue) : bool :=
  match v with
  | PlainText _ => false
  | SecretsManagerRef _ _ => true
  end.

(** The ingress rules of the security group at [sg]. *)
Definition ingress_of (t : Tree Resource) (sg : Path) : list IngressRule :=
  match tree_lookup sg t with
  | Some (RSecurityGroup _ ingress) => ingress
  | _ => []
  end.

(** Does a security group of the database at [db] let traffic in on the port
    its engine listens on? *)
Definition database_port_open (t : Tree Resource) (db : Path) : bool :=
  match tree_lookup db t with
  | Some (RDatabaseCluster props) =>
      existsb
        (λ sg, existsb (rule_admits (engine_default_port (engine props)))
                 (ingress_of t sg))
        (security_groups (instance_props props))
  | _ => false
  end.

(** The bootstrap commands of the auto-scaling group at [asg]. *)
Definition commands_of (t : Tree Resource) (asg : Path) : list string :=
  match tree_lookup asg t with
  | Some (RAutoScalingGroup cs) => cs
  | _ => []
  end.

(** The inline policy statements of the role at [role]. *)
Definition statements_of (t : Tree Resource) (role : Path) : list PolicyStatement :=
  match tree_lookup role t with
  | Some (RRole _ statements) => statements
  | _ => []
  end.

(** The ulimits of the container at [c]. *)
Definition ulimits_of (t : Tree Resource) (c : Path) : list Ulimit :=
  match tree_lookup c t with
  | Some (RContainer ulimits) => ulimits
  | _ => []
  end.

(** ** Run equations of the library *)

Section library_runs.
Implicit Types (t : Tree Resource) (scope p : Path) (id : string).

Lemma refs_unfold (r : Resource) : refs r = resource_refs r.
Proof. done. Qed.

Lemma App_ok : tree_ok App.
Proof. by apply tree_ok_singleton. Qed.

Lemma Stack_run scope id kwargs t :
  scope ∈ paths t → scope ++ [id] ∉ paths t →
  Stack scope id kwargs t
  = inr (scope ++ [id], t ++ [(scope ++ [id], RStack kwargs)]).
Proof. intros. apply declare_run; [done..|apply Forall_nil_2]. Qed.

Lemma Stack_duplicate scope id kwargs t :
  scope ∈ paths t → scope ++ [id] ∈ paths t →
  Stack scope id kwargs t = inl (DuplicateId (scope ++ [id])).
Proof. apply declare_duplicate. Qed.

Lemma Stack_no_scope scope id kwargs t :
  scope ∉ paths t → Stack scope id kwargs t = inl (NoSuchConstruct scope).
Proof. apply declare_no_scope. Qed.

Lemma Vpc_run scope id props t :
  scope ∈ paths t → scope ++ [id] ∉ paths t →
  Vpc scope id props t = inr (scope ++ [id], t ++ [(scope ++ [id], RVpc props)]).
Proof. intros. apply declare_run; [done..|apply Forall_nil_2]. Qed.

Lemma DatabaseSecret_run scope id props t :
  scope ∈ paths t → scope ++ [id] ∉ paths t →
  DatabaseSecret scope id props t
  = inr (scope ++ [id], t ++ [(scope ++ [id], RDatabaseSecret props)]).
Proof. intros. apply declare_run; [done..|apply Forall_nil_2]. Qed.

Lemma SecurityGroup_run scope id props t :
  scope ∈ paths t → scope ++ [id] ∉ paths t → sg_vpc props ∈ paths t →
  SecurityGroup scope id props t
  = inr (scope ++ [id], t ++ [(scope ++ [id], RSecurityGroup props [])]).
Proof. intros. apply declare_run; [done..|]. by apply Forall_singleton. Qed.

Lemma add_ingress_rule_run sg peer connection descr props ingress t :
  tree_lookup sg t = Some (RSecurityGroup props ingress) →
  sg_vpc props ∈ paths t →
  add_ingress_rule sg peer connection descr t
  = inr ((), tree_update sg
               (RSecurityGroup props (ingress ++ [mkIngressRule peer connection descr])) t).
Proof. intros. eapply mutate_run; [done..|]. by apply Forall_singleton. Qed.

Lemma from_parameter_group_name_run scope id n t :
  scope ∈ paths t → scope ++ [id] ∉ paths t →
  from_parameter_group_name scope id n t
  = inr (scope ++ [id], t ++ [(scope ++ [id], RParameterGroup n)]).
Proof. intros. apply declare_run; [done..|apply Forall_nil_2]. Qed.

Lemma DatabaseCluster_run scope id props t :
  scope ∈ paths t → scope ++ [id] ∉ paths t →
  Forall (.∈ paths t) (database_refs props) →
  DatabaseCluster scope id props t
  = inr (scope ++ [id], t ++ [(scope ++ [id], RDatabaseCluster props)]).
Proof. intros. by apply declare_run. Qed.

Lemma Cluster_run scope id props opts t :
  capacity props = Some opts →
  scope ∈ paths t → scope ++ [id] ∉ paths t →
  (scope ++ [id]) ++ [default_asg_id] ∉ paths t →
  cluster_vpc props ∈ paths t →
  Cluster scope id props t
  = inr (scope ++ [id],
         t ++ [(scope ++ [id], RCluster props);
               ((scope ++ [id]) ++ [default_asg_id], RAutoScalingGroup [])]).
Proof.
  intros Hcap ?? Hasg ?. unfold Cluster.
  run_step declare_run by (done || by apply Forall_singleton).
  rewrite Hcap.
  run_step declare_run by first [solve_in | solve_notin | apply Forall_nil_2].
  by rewrite <- app_assoc.
Qed.

Lemma Cluster_run_no_capacity scope id props t :
  capacity props = None →
  scope ∈ paths t → scope ++ [id] ∉ paths t →
  cluster_vpc props ∈ paths t →
  Cluster scope id props t
  = inr (scope ++ [id], t ++ [(scope ++ [id], RCluster props)]).
Proof.
  intros Hcap ???. unfold Cluster.
  run_step declare_run by (done || by apply Forall_singleton).
  by rewrite Hcap.
Qed.

Lemma autoscaling_group_run c props opts t :
  tree_lookup c t = Some (RCluster props) →
  capacity props = Some opts →
  autoscaling_group c t = inr (c ++ [default_asg_id], t).
Proof.
  intros Hc Hcap. unfold autoscaling_group. run_step read_run. by rewrite Hcap.
Qed.

Lemma autoscaling_group_no_capacity c props t :
  tree_lookup c t = Some (RCluster props) →
  capacity props = None →
  autoscaling_group c t = inl (NoAttribute c "autoscaling_group").
Proof.
  intros Hc Hcap. unfold autoscaling_group. run_step read_run. by rewrite Hcap.
Qed.

Lemma user_data_run asg cs t :
  tree_lookup asg t = Some (RAutoScalingGroup cs) →
  user_data asg t = inr (asg, t).
Proof. intros. unfold user_data. by run_step read_run. Qed.

Lemma add_commands_run ud cs commands t :
  tree_lookup ud t = Some (RAutoScalingGroup cs) →
  add_commands ud commands t
  = inr ((), tree_update ud (RAutoScalingGroup (cs ++ commands)) t).
Proof. intros. eapply mutate_run; [done..|apply Forall_nil_2]. Qed.

Lemma add_commands_wrong_kind ud cs r t :
  tree_lookup ud t = Some r →
  (∀ cs', r ≠ RAutoScalingGroup cs') →
  add_commands ud cs t = inl (WrongKind ud).
Proof.
  intros Hud Hr. eapply mutate_rejected; [done|].
  destruct r as [| | | | | | | |cs'| | | |]; try done. by destruct (Hr cs').
Qed.

(** Adding commands in two calls is adding them in one. *)
Lemma add_commands_app ud cs1 cs2 t :
  (add_commands ud cs1 ;;; add_commands ud cs2) t = add_commands ud (cs1 ++ cs2) t.
Proof.
  destruct (tree_lookup ud t) as [r|] eqn:Hud.
  - destruct r as [| | | | | | | |cs| | | |];
      try (rewrite (bind_err _ _ _ _ (add_commands_wrong_kind _ cs1 _ _ Hud ltac:(done)));
           by rewrite (add_commands_wrong_kind _ _ _ _ Hud)).
    run_step add_commands_run.
    erewrite !add_commands_run; [|done|by eapply tree_lookup_update].
    by rewrite tree_update_update, app_assoc.
  - apply tree_lookup_None in Hud.
    assert (∀ cs, add_commands ud cs t = inl (NoSuchConstruct ud)) as Hw.
    { intros cs. by apply mutate_missing. }
    by rewrite (bind_err _ _ _ _ (Hw cs1)), Hw.
Qed.

Lemma add_commands_app_then {A} ud cs1 cs2 (k : Builder A) t :
  (add_commands ud cs1 ;;; add_commands ud cs2 ;;; k) t
  = (add_commands ud (cs1 ++ cs2) ;;; k) t.
Proof.
  rewrite <- (bind_assoc (add_commands ud cs1)).
  apply bind_ext_l, add_commands_app.
Qed.

Lemma Role_run scope id props t :
  scope ∈ paths t → scope ++ [id] ∉ paths t →
  Role scope id props t = inr (scope ++ [id], t ++ [(scope ++ [id], RRole props [])]).
Proof. intros. apply declare_run; [done..|apply Forall_nil_2]. Qed.

Lemma grant_read_run secret grantee sprops props statements t :
  tree_lookup secret t = Some (RDatabaseSecret sprops) →
  tree_lookup grantee t = Some (RRole props statements) →
  Forall (.∈ paths t) (statements ≫= resources) →
  grant_read secret grantee t
  = inr ((), tree_update grantee
               (RRole props (statements ++ [read_statement secret])) t).
Proof.
  intros Hs Hg Hst. unfold grant_read. run_step read_run.
  eapply mutate_run; [done..|].
  rewrite refs_unfold. cbn [resource_refs]. rewrite bind_app. apply Forall_app.
  split; [done|]. apply Forall_singleton, tree_lookup_is_Some. eauto.
Qed.

Lemma grant_read_wrong_secret secret grantee r t :
  tree_lookup secret t = Some r →
  (∀ sprops, r ≠ RDatabaseSecret sprops) →
  grant_read secret grantee t = inl (WrongKind secret).
Proof.
  intros Hs Hr. unfold grant_read. run_step read_run.
  destruct r; try done. by destruct (Hr props).
Qed.

Lemma socket_address_run db props t :
  tree_lookup db t = Some (RDatabaseCluster props) →
  socket_address db t
  = inr ([FTok (mkToken db "Endpoint.Address"); FLit ":";
          FTok (mkToken db "Endpoint.Port")], t).
Proof. intros. unfold socket_address. by run_step read_run. Qed.

Lemma ApplicationLoadBalancedEc2Service_run scope id props t :
  scope ∈ paths t → scope ++ [id] ∉ paths t →
  (scope ++ [id]) ++ [task_definition_id] ∉ paths t →
  ((scope ++ [id]) ++ [task_definition_id]) ++ [default_container_id] ∉ paths t →
  Forall (.∈ paths t) (service_refs props) →
  ApplicationLoadBalancedEc2Service scope id props t
  = inr (scope ++ [id],
         t ++ [(scope ++ [id], RService props);
               ((scope ++ [id]) ++ [task_definition_id], RTaskDefinition);
               (((scope ++ [id]) ++ [task_definition_id]) ++ [default_container_id],
                RContainer [])]).
Proof.
  intros. unfold ApplicationLoadBalancedEc2Service.
  run_step declare_run.
  run_step declare_run by first [solve_in | solve_notin | apply Forall_nil_2].
  run_step declare_run by first [solve_in | solve_notin | apply Forall_nil_2].
  by rewrite <- !app_assoc.
Qed.

Lemma task_definition_run s props t :
  tree_lookup s t = Some (RService props) →
  task_definition s t = inr (s ++ [task_definition_id], t).
Proof. intros. unfold task_definition. by run_step read_run. Qed.

Lemma default_container_run td uls t :
  tree_lookup td t = Some RTaskDefinition →
  tree_lookup (td ++ [default_container_id]) t = Some (RContainer uls) →
  default_container td t = inr (td ++ [default_container_id], t).
Proof.
  intros. unfold default_container. run_step read_run. by run_step read_run.
Qed.

Lemma add_ulimits_run c ulimits uls t :
  tree_lookup c t = Some (RContainer ulimits) →
  add_ulimits c uls t = inr ((), tree_update c (RContainer (ulimits ++ uls)) t).
Proof. intros. eapply mutate_run; [done..|apply Forall_nil_2]. Qed.

Lemma format_run tpl args r t :
  py_format tpl args = inr r → format tpl args t = inr (r, t).
Proof. intros H. unfold format. by rewrite H. Qed.

Lemma format_error tpl args e t :
  py_format tpl args = inl e → format tpl args t = inl (FormatFailure e).
Proof. intros H. unfold format. by rewrite H. Qed.

End library_runs.

(** ** Observations *)

Lemma count_kind_app k (t1 t2 : Tree Resource) :
  count_kind k (t1 ++ t2) = (count_kind k t1 + count_kind k t2)%nat.
Proof. unfold count_kind. by rewrite filter_app, length_app. Qed.
