(* ===== verification/Typing.v ===== *)
(** * Typing: the kinds of the constructs a resource refers to

    The declaration API checks that a reference resolves, not what it
    resolves to: a security group handed over where a network is expected
    is declared without complaint.  The signatures of the library say
    what each argument must be ([vpc] a network, [security_groups]
    security groups, [cluster] a compute cluster, [task_role] a role, a
    secret where a credential is read), and the children a construct
    creates for itself sit below it (the auto-scaling group below its
    cluster, the task definition below its service, the container below
    its task definition).  [well_typed] checks a construct against that,
    [tree_typed] a tree.

    The theorems: the typed references of a resource are its references,
    so that a typed tree has no dangling reference; a typed tree stays
    typed when it is extended; every mutator of the library keeps a tree
    typed, a declaration does when the new construct is well typed, and
    so do the constructors that create children of their own. *)

From stdpp Require Import gmap.
From S2P Require Import Prelude Tokens Construct Graph Resources.

Local Open Scope build_scope.

(** ** Definitions *)

(** The reference of a secret of the container, with what it must be; the
    model has no construct for a parameter of the parameter store. *)
Definition ecs_secret_typed (s : EcsSecret) : list (Path * list Kind) :=
  match s with
  | FromSecretsManager secret _ => [(secret, [KDatabaseSecret])]
  | FromSsmParameter parameter => [(parameter, [])]
  end.

(** The references of a resource, each with the kinds of construct it may
    lead to. *)
Definition typed_refs (r : Resource) : list (Path * list Kind) :=
  match r with
  | RSecurityGroup props _ => [(sg_vpc props, [KVpc])]
  | RDatabaseCluster props =>
      (parameter_group props, [KParameterGroup])
      :: (ip_vpc (instance_props props), [KVpc])
      :: ((., [KSecurityGroup]) <$> security_groups (instance_props props))
      ++ ((., [KDatabaseSecret])
            <$> from_option secret_value_refs [] (password (master_user props)))
  | RCluster props => [(cluster_vpc props, [KVpc])]
  | RRole _ statements => (., [KDatabaseSecret]) <$> (statements ≫= resources)
  | RService props =>
      (cluster props, [KCluster])
      :: (task_role (task_image_options props), [KRole])
      :: ((map_to_list (secrets (task_image_options props))).*2 ≫= ecs_secret_typed)
      ++ ((., [KDatabaseCluster])
            <$> ((map_to_list (environment (task_image_options props))).*2
                   ≫= token_targets))
  | RApp | RStack _ | RVpc _ | RDatabaseSecret _ | RParameterGroup _
  | RAutoScalingGroup _ | RTaskDefinition | RContainer _ => []
  end.

(** The kind of the scope of a construct that is created by its scope. *)
Definition scope_kind (r : Resource) : option Kind :=
  match r with
  | RAutoScalingGroup _ => Some KCluster
  | RTaskDefinition => Some KService
  | RContainer _ => Some KTaskDefinition
  | _ => None
  end.

(** Is [q] a construct of one of the kinds [ks]? *)
Definition has_kind (t : Tree Resource) (q : Path) (ks : list Kind) : bool :=
  match tree_lookup q t with
  | Some r => bool_decide (kind_of r ∈ ks)
  | None => false
  end.

Definition well_scoped (t : Tree Resource) (p : Path) (r : Resource) : bool :=
  match scope_kind r, scope_of p with
  | Some k, [s] => has_kind t s [k]
  | Some _, _ => false
  | None, _ => true
  end.

(** The construct [r] at [p] is well typed in [t]. *)
Definition well_typed (t : Tree Resource) (p : Path) (r : Resource) : bool :=
  forallb (λ qk, has_kind t qk.1 qk.2) (typed_refs r) && well_scoped t p r.

Definition tree_typed (t : Tree Resource) : Prop :=
  Forall (λ pr, well_typed t pr.1 pr.2 = true) t.

(** ** Lemmas *)

Section typing.
Implicit Types (t : Tree Resource) (p q scope : Path) (id : string)
  (r : Resource) (ks : list Kind).

#[export] Instance tree_typed_dec t : Decision (tree_typed t).
Proof. unfold tree_typed. apply _. Defined.

Lemma ecs_secret_typed_fst (l : list EcsSecret) :
  (l ≫= ecs_secret_typed).*1 = l ≫= ecs_secret_refs.
Proof.
  induction l as [|[] l IH]; [done|..]; cbn [mbind list_bind]; by rewrite fmap_app, IH.
Qed.

(** The typed references are the references. *)
Lemma typed_refs_fst r : (typed_refs r).*1 = refs r.
Proof.
  rewrite refs_unfold. destruct r; cbn [typed_refs resource_refs]; try done.
  - unfold database_refs. cbn [fmap list_fmap fst].
    by rewrite fmap_app, !fmap_fst_pair.
  - apply fmap_fst_pair.
  - unfold service_refs. cbn [fmap list_fmap fst].
    by rewrite fmap_app, ecs_secret_typed_fst, fmap_fst_pair.
Qed.

Lemma has_kind_declared t q ks : has_kind t q ks = true → q ∈ paths t.
Proof.
  unfold has_kind. destruct (tree_lookup q t) eqn:Hq; [|done].
  intros _. apply tree_lookup_is_Some. eauto.
Qed.

Lemma well_typed_refs t p r :
  well_typed t p r = true → Forall (.∈ paths t) (refs r).
Proof.
  intros [Hr _]%andb_true_iff. rewrite <- typed_refs_fst.
  rewrite forallb_elem_of in Hr. apply Forall_fmap, Forall_forall.
  intros qk Hqk. by eapply has_kind_declared, Hr.
Qed.

(** A typed tree has no dangling reference. *)
Lemma tree_typed_closed t : tree_typed t → closed t.
Proof.
  intros Ht p q (r & Hr%tree_lookup_Some_elem & Hq).
  unfold tree_typed in Ht. rewrite Forall_forall in Ht.
  pose proof (well_typed_refs _ _ _ (Ht _ Hr)) as H.
  by eapply Forall_forall in H.
Qed.

(** *** Extension *)

Lemma has_kind_app_l t1 t2 q ks :
  has_kind t1 q ks = true → has_kind (t1 ++ t2) q ks = true.
Proof.
  unfold has_kind. destruct (tree_lookup q t1) eqn:Hq; [|done].
  by rewrite (tree_lookup_app_l _ _ _ t2 Hq).
Qed.

Lemma well_scoped_app_l t1 t2 p r :
  well_scoped t1 p r = true → well_scoped (t1 ++ t2) p r = true.
Proof.
  unfold well_scoped. destruct (scope_kind r); [|done].
  destruct (scope_of p) as [|s [|]]; [done| |done]. apply has_kind_app_l.
Qed.

Lemma well_typed_app_l t1 t2 p r :
  well_typed t1 p r = true → well_typed (t1 ++ t2) p r = true.
Proof.
  unfold well_typed. rewrite !andb_true_iff, !forallb_elem_of.
  intros [Hr Hs]. split; [|by apply well_scoped_app_l].
  intros qk Hqk. by apply has_kind_app_l, Hr.
Qed.

Lemma tree_typed_app t1 t2 :
  tree_typed t1 →
  Forall (λ pr, well_typed (t1 ++ t2) pr.1 pr.2 = true) t2 →
  tree_typed (t1 ++ t2).
Proof.
  intros H1 H2. apply Forall_app. split; [|done].
  eapply Forall_impl; [exact H1|]. intros [p r]. apply well_typed_app_l.
Qed.

(** *** Update in place *)

Lemma has_kind_update t p r r' q ks :
  tree_lookup p t = Some r → kind_of r' = kind_of r →
  has_kind (tree_update p r' t) q ks = has_kind t q ks.
Proof.
  intros Hp Hk. unfold has_kind. destruct (decide (p = q)) as [<-|Hpq].
  - by rewrite (tree_lookup_update _ _ _ _ Hp), Hp, Hk.
  - by rewrite tree_lookup_update_ne.
Qed.

Lemma well_typed_update t p r r' q r0 :
  tree_lookup p t = Some r → kind_of r' = kind_of r →
  well_typed (tree_update p r' t) q r0 = well_typed t q r0.
Proof.
  intros Hp Hk. unfold well_typed, well_scoped. f_equal.
  - apply forallb_ext. intros qk. by eapply has_kind_update.
  - destruct (scope_kind r0); [|done].
    destruct (scope_of q) as [|s [|]]; [done| |done]. by eapply has_kind_update.
Qed.

(** *** The operations of the tree *)

Lemma declare_typed scope id r t p t' :
  declare scope id r t = inr (p, t') → tree_typed t →
  well_typed t (scope ++ [id]) r = true → tree_typed t'.
Proof.
  intros (-> & -> & _)%declare_inv Ht Hr. apply tree_typed_app; [done|].
  apply Forall_singleton. by apply well_typed_app_l.
Qed.

(** A method that keeps the kind of its construct and leaves it well
    typed keeps the tree typed. *)
Lemma mutate_typed p f t u t' :
  (∀ r r', tree_lookup p t = Some r → f r = inr r' →
           kind_of r' = kind_of r
           ∧ (well_typed t p r = true → well_typed t p r' = true)) →
  mutate p f t = inr (u, t') → tree_typed t → tree_typed t'.
Proof.
  intros Hf (r & r' & Hp & Hfr & _ & ->)%mutate_inv Ht.
  destruct (Hf _ _ Hp Hfr) as [Hk Hwt]. unfold tree_typed in *.
  rewrite Forall_forall in Ht |- *. intros [q r0] Hin. cbn [fst snd].
  rewrite (well_typed_update _ _ _ _ _ _ Hp Hk).
  apply elem_of_update in Hin as [[-> ->]|Hin]; [|by apply (Ht (q, r0))].
  by apply Hwt, (Ht (p, r)), tree_lookup_Some_elem.
Qed.

(** *** The mutators of the library *)

Lemma add_ingress_rule_typed sg peer connection descr t u t' :
  add_ingress_rule sg peer connection descr t = inr (u, t') →
  tree_typed t → tree_typed t'.
Proof.
  apply mutate_typed. by intros [] r' _ [= <-].
Qed.

Lemma add_commands_typed ud commands t u t' :
  add_commands ud commands t = inr (u, t') → tree_typed t → tree_typed t'.
Proof.
  apply mutate_typed. by intros [] r' _ [= <-].
Qed.

Lemma add_ulimits_typed c uls t u t' :
  add_ulimits c uls t = inr (u, t') → tree_typed t → tree_typed t'.
Proof.
  apply mutate_typed. by intros [] r' _ [= <-].
Qed.

(** [grant_read] checks that what it grants access to is a secret, and so
    keeps the role well typed. *)
Lemma grant_read_typed secret grantee t u t' :
  grant_read secret grantee t = inr (u, t') → tree_typed t → tree_typed t'.
Proof.
  unfold grant_read. intros (s & t0 & Hs & Hrun)%bind_inr_inv.
  unfold read in Hs. destruct (tree_lookup secret t) as [s0|] eqn:Hsec; [|done].
  injection Hs as <- <-. destruct s0; try done. revert Hrun.
  apply mutate_typed. intros [] r' _ [= <-]. split; [done|].
  unfold well_typed. cbn [typed_refs well_scoped scope_kind].
  rewrite !andb_true_r, bind_app, fmap_app, forallb_app. intros ->.
  cbn. unfold has_kind. by rewrite Hsec.
Qed.

(** *** The constructors that create children *)

Lemma has_kind_lookup t q r ks :
  tree_lookup q t = Some r → kind_of r ∈ ks → has_kind t q ks = true.
Proof. intros Hq Hk. unfold has_kind. rewrite Hq. by apply bool_decide_eq_true. Qed.

(** A cluster given a network keeps the tree typed, its auto-scaling group
    included. *)
Lemma Cluster_typed scope id props t c t' :
  Cluster scope id props t = inr (c, t') → tree_typed t →
  has_kind t (cluster_vpc props) [KVpc] = true → tree_typed t'.
Proof.
  unfold Cluster. intros (c0 & t1 & Hc & Hrun)%bind_inr_inv Ht Hvpc.
  assert (tree_typed t1) as Ht1.
  { eapply declare_typed; [done..|]. unfold well_typed. cbn. by rewrite Hvpc. }
  destruct (capacity props); [|by injection Hrun as <- <-].
  apply bind_inr_inv in Hrun as (asg & t2 & Hasg & [= <- <-]).
  eapply declare_typed; [done..|]. unfold well_typed, well_scoped.
  cbn [typed_refs forallb scope_kind andb]. rewrite scope_of_snoc.
  eapply has_kind_lookup; [by eapply declare_lookup | left].
Qed.

(** A service whose properties are well typed keeps the tree typed, its
    task definition and its container included. *)
Lemma ApplicationLoadBalancedEc2Service_typed scope id props t s t' :
  ApplicationLoadBalancedEc2Service scope id props t = inr (s, t') →
  tree_typed t → well_typed t (scope ++ [id]) (RService props) = true →
  tree_typed t'.
Proof.
  unfold ApplicationLoadBalancedEc2Service.
  intros (s0 & t1 & Hs & Hrun)%bind_inr_inv Ht Hprops.
  apply bind_inr_inv in Hrun as (td & t2 & Htd & Hrun).
  apply bind_inr_inv in Hrun as (c & t3 & Hc & [= <- <-]).
  pose proof (declare_typed _ _ _ _ _ _ Hs Ht Hprops) as Ht1.
  assert (tree_typed t2) as Ht2.
  { eapply declare_typed; [done..|]. unfold well_typed, well_scoped.
    cbn [typed_refs forallb scope_kind andb]. rewrite scope_of_snoc.
    eapply has_kind_lookup; [by eapply declare_lookup | left]. }
  eapply declare_typed; [done..|]. unfold well_typed, well_scoped.
  cbn [typed_refs forallb scope_kind andb]. rewrite scope_of_snoc.
  eapply has_kind_lookup; [by eapply declare_lookup | left].
Qed.

End typing.
