(* ===== verification/SonarStack.v ===== *)
(** * SonarStack: the constructor of [sonar/sonar_stack.py]

    [SonarStack_init scope id kwargs] is [SonarStack.__init__]: the blocks
    of the source in their order, each a build that takes the handles it
    uses and returns the handle it creates.  [sonar_graph self kwargs] is
    the graph the constructor is meant to leave below the stack at [self],
    written as data, and [sonar_edges self] its dependency edges.

    The file is organised as follows: the blocks and the constructor; the
    declarative graph; the run of each block ([create_vpc_run], ...); the
    run of the constructor ([SonarStack_init_run]) and its contract as a
    triple ([SonarStack_init_triple]) under the precondition [stack_pre];
    the graph as a dependency graph, with and without the scopes; two
    stacks in one tree; the kinds of what the constructs refer to; what
    the constructs of the stack hold in the extended tree.  The properties
    of the constructor are in [StackProperties]. *)

From stdpp Require Import gmap.
From S2P Require Import Prelude Tokens Construct Graph Resources Typing.

Local Open Scope Z_scope.
Local Open Scope build_scope.

(** ** The constructor *)

(** The attributes the constructor stores in [self]. *)
Record SonarStack := mkSonarStack {
  self_vpc : Path;
  self_db_secret : Path;
  self_sg : Path;
  self_db : Path;
  self_cluster : Path;
  self_task_role : Path
}.

#[export] Instance SonarStack_eq_dec : EqDecision SonarStack.
Proof. solve_decision. Defined.

Definition vpc_props : VpcProps := {| max_azs := 3 |}.

Definition create_vpc (self : Path) : Builder Path :=
  Vpc self "SonarVPC" vpc_props.

Definition db_master_user_name : string := "sonar".

Definition db_secret_props : DatabaseSecretProps :=
  {| secret_username := db_master_user_name |}.

Definition create_db_secret (self : Path) : Builder Path :=
  DatabaseSecret self "/app/sonarDBUser" db_secret_props.

Definition sg_props (vpc : Path) : SecurityGroupProps :=
  {| sg_vpc := vpc;
     allow_all_outbound := true;
     description := "Aurora Security Group" |}.

Definition aurora_ingress_rule : IngressRule :=
  {| rule_peer := Peer_any_ipv4;
     rule_connection := Port_tcp 3306;
     rule_description := Some "Aurora" |}.

Definition create_sg (self vpc : Path) : Builder Path :=
  sg <- SecurityGroup self "SonarQubeSG" (sg_props vpc) ;;
  add_ingress_rule sg Peer_any_ipv4 (Port_tcp 3306) (Some "Aurora") ;;;
  ret sg.

Definition create_pgroup (self : Path) : Builder Path :=
  from_parameter_group_name self "SonarDBParamGroup" "default.aurora-postgresql11".

Definition db_master_user (db_secret : Path) : Login :=
  {| username := db_master_user_name;
     password := Some (secret_value_from_json db_secret "password") |}.

Definition db_instance_props (vpc sg : Path) : InstanceProps :=
  {| instance_type := InstanceType_of BURSTABLE3 MEDIUM;
     security_groups := [sg];
     ip_vpc := vpc |}.

Definition database_props (vpc db_secret sg pgroup : Path) : DatabaseClusterProps :=
  {| engine := AURORA_POSTGRESQL;
     default_database_name := "sonarqube";
     engine_version := "11.6";
     parameter_group := pgroup;
     master_user := db_master_user db_secret;
     instance_props := db_instance_props vpc sg |}.

Definition create_database (self vpc db_secret sg pgroup : Path) : Builder Path :=
  DatabaseCluster self "Database" (database_props vpc db_secret sg pgroup).

Definition cluster_props (vpc : Path) : ClusterProps :=
  {| capacity := Some {| capacity_instance_type := mkInstanceType "m5.large" |};
     cluster_vpc := vpc |}.

Definition bootstrap_commands : list string :=
  ["sysctl -qw vm.max_map_count=262144";
   "sysctl -w fs.file-max=65536";
   "ulimit -n 65536";
   "ulimit -u 4096"].

(** Lines 61 to 66: the commands are added to the user data of the
    cluster's auto-scaling group one call at a time. *)
Definition configure_hosts (cluster : Path) : Builder unit :=
  asg <- autoscaling_group cluster ;;
  user_data <- user_data asg ;;
  add_commands user_data ["sysctl -qw vm.max_map_count=262144"] ;;;
  add_commands user_data ["sysctl -w fs.file-max=65536"] ;;;
  add_commands user_data ["ulimit -n 65536"] ;;;
  add_commands user_data ["ulimit -u 4096"].

Definition create_cluster (self vpc : Path) : Builder Path :=
  cluster <- Cluster self "SonarCluster" (cluster_props vpc) ;;
  configure_hosts cluster ;;;
  ret cluster.

Definition task_role_props : RoleProps :=
  {| role_name := "SonarTaskRole";
     assumed_by := ServicePrincipal "ecs-tasks.amazonaws.com";
     managed_policies :=
       [from_aws_managed_policy_name
          "service-role/AmazonECSTaskExecutionRolePolicy"] |}.

Definition create_task_role (self db_secret : Path) : Builder Path :=
  task_role <- Role self "SonarTaskRole" task_role_props ;;
  grant_read db_secret task_role ;;;
  ret task_role.

Definition jdbc_template : string := "jdbc:postgresql://{}/sonarqube".

Definition jdbc_url (db : Path) : Builder TString :=
  address <- socket_address db ;;
  format jdbc_template [address].

Definition task_secrets (db_secret : Path) : gmap string EcsSecret :=
  <["sonar.jdbc.password" := from_secrets_manager db_secret "password"]>
    (<["sonar.jdbc.username" := from_secrets_manager db_secret "username"]> ∅).

Definition task_environment (url : TString) : gmap string TString :=
  <["sonar.jdbc.url" := url]> ∅.

Definition sonar_task_image_options (db_secret task_role : Path) (url : TString)
    : ApplicationLoadBalancedTaskImageOptions :=
  {| image := from_registry "sonarqube:8.2-community";
     container_port := 9000;
     secrets := task_secrets db_secret;
     environment := task_environment url;
     task_role := task_role |}.

Definition service_props (cluster db_secret task_role : Path) (url : TString)
    : ApplicationLoadBalancedEc2ServiceProps :=
  {| cluster := cluster;
     cpu := 512;
     desired_count := 1;
     task_image_options := sonar_task_image_options db_secret task_role url;
     memory_limit_mib := 2048;
     public_load_balancer := true |}.

Definition create_task (self cluster db_secret task_role db : Path) : Builder Path :=
  url <- jdbc_url db ;;
  ApplicationLoadBalancedEc2Service self "SonarService"
    (service_props cluster db_secret task_role url).

Definition nofile_ulimit : Ulimit :=
  {| name := NOFILE; soft_limit := 65536; hard_limit := 65536 |}.

Definition add_container_ulimits (task : Path) : Builder unit :=
  task_definition <- task_definition task ;;
  container <- default_container task_definition ;;
  add_ulimits container [nofile_ulimit].

(** [SonarStack.__init__(self, scope, id)] *)
Definition SonarStack_init (scope : Path) (id : string) (kwargs : Kwargs)
    : Builder SonarStack :=
  self <- Stack scope id kwargs ;;
  vpc <- create_vpc self ;;
  db_secret <- create_db_secret self ;;
  sg <- create_sg self vpc ;;
  pgroup <- create_pgroup self ;;
  db <- create_database self vpc db_secret sg pgroup ;;
  cluster <- create_cluster self vpc ;;
  task_role <- create_task_role self db_secret ;;
  task <- create_task self cluster db_secret task_role db ;;
  add_container_ulimits task ;;;
  ret {| self_vpc := vpc;
         self_db_secret := db_secret;
         self_sg := sg;
         self_db := db;
         self_cluster := cluster;
         self_task_role := task_role |}.

(** ** The graph the constructor is meant to build *)

(** The JDBC URL: the literal text around the deferred address of the
    database [db]. *)
Definition jdbc_url_value (db : Path) : TString :=
  [FLit "jdbc:postgresql://";
   FTok (mkToken db "Endpoint.Address"); FLit ":";
   FTok (mkToken db "Endpoint.Port");
   FLit "/sonarqube"].

(** The paths of the graph: the stack and what is below it. *)
Definition sonar_suffixes : list Path :=
  [[]; ["SonarVPC"]; ["/app/sonarDBUser"]; ["SonarQubeSG"]; ["SonarDBParamGroup"];
   ["Database"]; ["SonarCluster"]; ["SonarCluster"; default_asg_id];
   ["SonarTaskRole"]; ["SonarService"]; ["SonarService"; task_definition_id];
   ["SonarService"; task_definition_id; default_container_id]].

Section graph.
Context (self : Path) (kwargs : Kwargs).

Definition vpc_path : Path := self ++ ["SonarVPC"].
Definition db_secret_path : Path := self ++ ["/app/sonarDBUser"].
Definition sg_path : Path := self ++ ["SonarQubeSG"].
Definition pgroup_path : Path := self ++ ["SonarDBParamGroup"].
Definition db_path : Path := self ++ ["Database"].
Definition cluster_path : Path := self ++ ["SonarCluster"].
Definition asg_path : Path := cluster_path ++ [default_asg_id].
Definition task_role_path : Path := self ++ ["SonarTaskRole"].
Definition task_path : Path := self ++ ["SonarService"].
Definition task_definition_path : Path := task_path ++ [task_definition_id].
Definition container_path : Path := task_definition_path ++ [default_container_id].

Definition sonar_url : TString := jdbc_url_value db_path.

Definition sonar_graph : Tree Resource :=
  [(self, RStack kwargs);
   (vpc_path, RVpc vpc_props);
   (db_secret_path, RDatabaseSecret db_secret_props);
   (sg_path, RSecurityGroup (sg_props vpc_path) [aurora_ingress_rule]);
   (pgroup_path, RParameterGroup "default.aurora-postgresql11");
   (db_path,
    RDatabaseCluster (database_props vpc_path db_secret_path sg_path pgroup_path));
   (cluster_path, RCluster (cluster_props vpc_path));
   (asg_path, RAutoScalingGroup bootstrap_commands);
   (task_role_path, RRole task_role_props [read_statement db_secret_path]);
   (task_path,
    RService (service_props cluster_path db_secret_path task_role_path sonar_url));
   (task_definition_path, RTaskDefinition);
   (container_path, RContainer [nofile_ulimit])].

(** The dependency edges of the stack: which construct is configured with
    which. *)
Definition sonar_edges : list (Path * Path) :=
  [(sg_path, vpc_path);
   (db_path, pgroup_path); (db_path, vpc_path); (db_path, sg_path);
   (db_path, db_secret_path);
   (cluster_path, vpc_path);
   (task_role_path, db_secret_path);
   (task_path, cluster_path); (task_path, task_role_path);
   (task_path, db_secret_path); (task_path, db_path)].

Definition sonar_handles : SonarStack :=
  {| self_vpc := vpc_path;
     self_db_secret := db_secret_path;
     self_sg := sg_path;
     self_db := db_path;
     self_cluster := cluster_path;
     self_task_role := task_role_path |}.

End graph.

(** The precondition of the constructor: a well-formed tree in which the
    scope is declared and has no child [id]. *)
Definition stack_pre (scope : Path) (id : string) (t : Tree Resource) : Prop :=
  tree_ok t ∧ scope ∈ paths t ∧ scope ++ [id] ∉ paths t.

(** ** The blocks of the constructor *)

Ltac unfold_paths :=
  unfold container_path, task_definition_path, task_path, task_role_path,
    asg_path, cluster_path, db_path, pgroup_path, sg_path, db_secret_path,
    vpc_path in *.

Ltac build_side := unfold_paths; first [done | solve_in | solve_notin | solve_refs].

Section blocks.
Implicit Types (t : Tree Resource) (self vpc db_secret sg pgroup db cluster
  task_role task : Path).

Lemma create_vpc_run self t :
  self ∈ paths t → vpc_path self ∉ paths t →
  create_vpc self t = inr (vpc_path self, t ++ [(vpc_path self, RVpc vpc_props)]).
Proof. intros. by apply Vpc_run. Qed.

Lemma create_db_secret_run self t :
  self ∈ paths t → db_secret_path self ∉ paths t →
  create_db_secret self t
  = inr (db_secret_path self,
         t ++ [(db_secret_path self, RDatabaseSecret db_secret_props)]).
Proof. intros. by apply DatabaseSecret_run. Qed.

Lemma create_sg_run self vpc t :
  self ∈ paths t → vpc ∈ paths t → sg_path self ∉ paths t →
  create_sg self vpc t
  = inr (sg_path self,
         t ++ [(sg_path self, RSecurityGroup (sg_props vpc) [aurora_ingress_rule])]).
Proof.
  intros. unfold create_sg. run_step SecurityGroup_run.
  run_step add_ingress_rule_run by (lookup_here || solve_in).
  by update_here.
Qed.

Lemma create_pgroup_run self t :
  self ∈ paths t → pgroup_path self ∉ paths t →
  create_pgroup self t
  = inr (pgroup_path self,
         t ++ [(pgroup_path self, RParameterGroup "default.aurora-postgresql11")]).
Proof. intros. by apply from_parameter_group_name_run. Qed.

Lemma create_database_run self vpc db_secret sg pgroup t :
  self ∈ paths t → db_path self ∉ paths t →
  vpc ∈ paths t → db_secret ∈ paths t → sg ∈ paths t → pgroup ∈ paths t →
  create_database self vpc db_secret sg pgroup t
  = inr (db_path self,
         t ++ [(db_path self,
                RDatabaseCluster (database_props vpc db_secret sg pgroup))]).
Proof. intros. apply DatabaseCluster_run; [done..|]. cbn. solve_refs. Qed.

Lemma configure_hosts_run cluster props opts cs t :
  tree_lookup cluster t = Some (RCluster props) →
  capacity props = Some opts →
  tree_lookup (cluster ++ [default_asg_id]) t = Some (RAutoScalingGroup cs) →
  configure_hosts cluster t
  = inr ((), tree_update (cluster ++ [default_asg_id])
               (RAutoScalingGroup (cs ++ bootstrap_commands)) t).
Proof.
  intros Hc Hcap Hasg. unfold configure_hosts.
  run_step autoscaling_group_run. run_step user_data_run.
  rewrite !add_commands_app_then, add_commands_app. by apply add_commands_run.
Qed.

Lemma create_cluster_run self vpc t :
  self ∈ paths t → vpc ∈ paths t →
  cluster_path self ∉ paths t → asg_path self ∉ paths t →
  create_cluster self vpc t
  = inr (cluster_path self,
         t ++ [(cluster_path self, RCluster (cluster_props vpc));
               (asg_path self, RAutoScalingGroup bootstrap_commands)]).
Proof.
  intros. unfold create_cluster. run_step Cluster_run.
  run_step configure_hosts_run by (done || lookup_here).
  by update_here.
Qed.

Lemma create_task_role_run self db_secret sprops t :
  self ∈ paths t → task_role_path self ∉ paths t →
  tree_lookup db_secret t = Some (RDatabaseSecret sprops) →
  create_task_role self db_secret t
  = inr (task_role_path self,
         t ++ [(task_role_path self,
                RRole task_role_props [read_statement db_secret])]).
Proof.
  intros ?? Hs. unfold create_task_role. run_step Role_run.
  run_step grant_read_run
    by first [by apply tree_lookup_app_l | lookup_here | apply Forall_nil_2].
  by update_here.
Qed.

Lemma jdbc_url_run db props t :
  tree_lookup db t = Some (RDatabaseCluster props) →
  jdbc_url db t = inr (jdbc_url_value db, t).
Proof.
  intros. unfold jdbc_url. run_step socket_address_run. by apply format_run.
Qed.

Lemma service_refs_sonar cluster db_secret task_role db :
  service_refs (service_props cluster db_secret task_role (jdbc_url_value db))
  = [cluster; task_role; db_secret; db_secret; db; db].
Proof. vm_compute. reflexivity. Qed.

Lemma create_task_run self cluster db_secret task_role db props t :
  self ∈ paths t → task_path self ∉ paths t →
  task_definition_path self ∉ paths t → container_path self ∉ paths t →
  cluster ∈ paths t → db_secret ∈ paths t → task_role ∈ paths t →
  tree_lookup db t = Some (RDatabaseCluster props) →
  create_task self cluster db_secret task_role db t
  = inr (task_path self,
         t ++ [(task_path self,
                RService (service_props cluster db_secret task_role
                            (jdbc_url_value db)));
               (task_definition_path self, RTaskDefinition);
               (container_path self, RContainer [])]).
Proof.
  intros ??????? Hdb. unfold create_task. run_step jdbc_url_run.
  apply ApplicationLoadBalancedEc2Service_run; [done..|].
  rewrite service_refs_sonar.
  assert (db ∈ paths t) by (apply tree_lookup_is_Some; eauto). solve_refs.
Qed.

Lemma add_container_ulimits_run task props uls t :
  tree_lookup task t = Some (RService props) →
  tree_lookup (task ++ [task_definition_id]) t = Some RTaskDefinition →
  tree_lookup ((task ++ [task_definition_id]) ++ [default_container_id]) t
  = Some (RContainer uls) →
  add_container_ulimits task t
  = inr ((), tree_update ((task ++ [task_definition_id]) ++ [default_container_id])
               (RContainer (uls ++ [nofile_ulimit])) t).
Proof.
  intros. unfold add_container_ulimits.
  run_step task_definition_run. run_step default_container_run.
  by apply add_ulimits_run.
Qed.

End blocks.

(** ** The constructor builds the graph *)

Section refinement.
Implicit Types (t : Tree Resource) (scope self : Path) (id : string).
Context {kwargs : Kwargs}.

(** The run equation of the constructor: in a well-formed tree where
    [scope] is declared and has no child [id], it returns the handles of
    the stack and appends the graph of the stack to the tree. *)
Lemma SonarStack_init_run scope id t :
  tree_ok t → scope ∈ paths t → scope ++ [id] ∉ paths t →
  SonarStack_init scope id kwargs t
  = inr (sonar_handles (scope ++ [id]), t ++ sonar_graph (scope ++ [id]) kwargs).
Proof.
  intros Hok Hscope Hself. unfold SonarStack_init. run_step Stack_run.
  generalize dependent (scope ++ [id]). intros self Hself.
  run_step create_vpc_run by build_side. rewrite <- app_assoc. cbn [app].
  run_step create_db_secret_run by build_side. rewrite <- app_assoc. cbn [app].
  run_step create_sg_run by build_side. rewrite <- app_assoc. cbn [app].
  run_step create_pgroup_run by build_side. rewrite <- app_assoc. cbn [app].
  run_step create_database_run by build_side. rewrite <- app_assoc. cbn [app].
  run_step create_cluster_run by build_side. rewrite <- app_assoc. cbn [app].
  run_step create_task_role_run by (build_side || (unfold_paths; lookup_here)).
  rewrite <- app_assoc. cbn [app].
  run_step create_task_run by (build_side || (unfold_paths; lookup_here)).
  rewrite <- app_assoc. cbn [app].
  run_step add_container_ulimits_run by (unfold_paths; lookup_here).
  unfold_paths. update_here. reflexivity.
Qed.

Lemma SonarStack_init_preserving scope id : preserving (SonarStack_init scope id kwargs).
Proof. solve_preserving. Qed.

(** The contract of the constructor as a triple; the properties of the
    constructor are its consequences. *)
Lemma SonarStack_init_triple scope id :
  triple (stack_pre scope id) (SonarStack_init scope id kwargs)
    (λ t h t', h = sonar_handles (scope ++ [id])
               ∧ t' = t ++ sonar_graph (scope ++ [id]) kwargs).
Proof.
  intros t (Hok & Hs & Hf). eexists _, _. by split; [apply SonarStack_init_run|].
Qed.

Lemma SonarStack_init_inv scope id t h t' :
  SonarStack_init scope id kwargs t = inr (h, t') →
  scope ∈ paths t ∧ scope ++ [id] ∉ paths t.
Proof.
  unfold SonarStack_init. intros (self & t1 & Hstack & _)%bind_inr_inv.
  unfold Stack in Hstack. by apply declare_inv in Hstack as (-> & _ & ? & ? & _).
Qed.

Lemma sonar_graph_paths self :
  paths (sonar_graph self kwargs) = (self ++.) <$> sonar_suffixes.
Proof.
  unfold sonar_graph, sonar_suffixes. unfold_paths.
  cbn [paths fmap list_fmap fst]. by rewrite <- !app_assoc, app_nil_r.
Qed.

Lemma sonar_graph_below self p : p ∈ paths (sonar_graph self kwargs) → self `prefix_of` p.
Proof.
  rewrite sonar_graph_paths. intros (k & -> & _)%list_elem_of_fmap. by exists k.
Qed.

Lemma sonar_graph_self self : self ∈ paths (sonar_graph self kwargs).
Proof. left. Qed.

Lemma sibling_not_below scope id id' p :
  id ≠ id' → scope ++ [id] `prefix_of` p → p ≠ scope ++ [id'].
Proof.
  intros Hid [k ->] H. rewrite <- app_assoc in H.
  apply app_inv_head in H. simpl in H. by injection H.
Qed.

End refinement.

(** ** Shared facts about the built tree *)

Section results.
Implicit Types (t : Tree Resource) (scope self : Path) (id : string).
Context {kwargs : Kwargs}.

Lemma SonarStack_init_result scope id t h t' :
  tree_ok t → SonarStack_init scope id kwargs t = inr (h, t') →
  h = sonar_handles (scope ++ [id]) ∧ t' = t ++ sonar_graph (scope ++ [id]) kwargs
  ∧ scope ∈ paths t ∧ (scope ++ [id] ∉ paths t) ∧ tree_ok t'.
Proof.
  intros Hok Hrun. pose proof (SonarStack_init_inv _ _ _ _ _ Hrun) as [Hs Hf].
  pose proof (SonarStack_init_preserving _ _ _ _ _ Hok Hrun).
  rewrite SonarStack_init_run in Hrun by done. by injection Hrun as <- <-.
Qed.

(** The run of [app.py], by computation. *)
Lemma sonar_app_run :
  SonarStack_init [] "sonar" ∅ App
  = inr (sonar_handles ["sonar"], App ++ sonar_graph ["sonar"] ∅).
Proof. vm_compute. reflexivity. Qed.

Lemma root_in_App : [] ∈ paths App.
Proof. left. Qed.

Lemma sonar_not_in_App : [] ++ ["sonar"] ∉ paths App.
Proof. apply (bool_decide_unpack _). by vm_compute. Qed.

Lemma sonar_graph_deps self :
  deps (sonar_graph self kwargs)
  = [(self, []);
     (vpc_path self, []);
     (db_secret_path self, []);
     (sg_path self, [vpc_path self]);
     (pgroup_path self, []);
     (db_path self,
      [pgroup_path self; vpc_path self; sg_path self; db_secret_path self]);
     (cluster_path self, [vpc_path self]);
     (asg_path self, []);
     (task_role_path self, [db_secret_path self]);
     (task_path self,
      [cluster_path self; task_role_path self; db_secret_path self;
       db_secret_path self; db_path self; db_path self]);
     (task_definition_path self, []);
     (container_path self, [])].
Proof. vm_compute. reflexivity. Qed.

Lemma sonar_graph_topo self : topo_ordered (sonar_graph self kwargs).
Proof.
  apply topo_ext_deps. rewrite sonar_graph_deps. unfold_paths.
  repeat (apply topo_deps_cons; [solve_refs|]). apply topo_deps_nil.
Qed.

Lemma sonar_graph_extends_topo t self :
  topo_ordered t → topo_ordered (t ++ sonar_graph self kwargs).
Proof.
  intros Ht. apply topo_ext_app. split; [done|].
  eapply topo_ext_weaken; [|apply sonar_graph_topo]. by intros ? ?%elem_of_nil.
Qed.

Lemma sonar_lookup t self p :
  tree_ok t → self ∉ paths t → self `prefix_of` p →
  tree_lookup p (t ++ sonar_graph self kwargs) = tree_lookup p (sonar_graph self kwargs).
Proof.
  intros Hok Hf [k ->]. apply tree_lookup_app_r. by apply tree_ok_descendants.
Qed.

Lemma sonar_lookup_vpc self :
  tree_lookup (vpc_path self) (sonar_graph self kwargs) = Some (RVpc vpc_props).
Proof. unfold sonar_graph. unfold_paths. lookup_here. Qed.

Lemma sonar_lookup_cluster self :
  tree_lookup (cluster_path self) (sonar_graph self kwargs)
  = Some (RCluster (cluster_props (vpc_path self))).
Proof. unfold sonar_graph. unfold_paths. lookup_here. Qed.

Lemma sonar_graph_count self k :
  count_kind k (sonar_graph self kwargs) = if decide (k = KApp) then 0%nat else 1%nat.
Proof. by destruct k; vm_compute. Qed.

Lemma sonar_lookup_db_secret self :
  tree_lookup (db_secret_path self) (sonar_graph self kwargs)
  = Some (RDatabaseSecret db_secret_props).
Proof. unfold sonar_graph. unfold_paths. lookup_here. Qed.

Lemma sonar_lookup_sg self :
  tree_lookup (sg_path self) (sonar_graph self kwargs)
  = Some (RSecurityGroup (sg_props (vpc_path self)) [aurora_ingress_rule]).
Proof. unfold sonar_graph. unfold_paths. lookup_here. Qed.

Lemma sonar_lookup_db self :
  tree_lookup (db_path self) (sonar_graph self kwargs)
  = Some (RDatabaseCluster
            (database_props (vpc_path self) (db_secret_path self) (sg_path self)
               (pgroup_path self))).
Proof. unfold sonar_graph. unfold_paths. lookup_here. Qed.

Lemma sonar_lookup_asg self :
  tree_lookup (asg_path self) (sonar_graph self kwargs)
  = Some (RAutoScalingGroup bootstrap_commands).
Proof. unfold sonar_graph. unfold_paths. lookup_here. Qed.

Lemma sonar_lookup_task_role self :
  tree_lookup (task_role_path self) (sonar_graph self kwargs)
  = Some (RRole task_role_props [read_statement (db_secret_path self)]).
Proof. unfold sonar_graph. unfold_paths. lookup_here. Qed.

Lemma sonar_lookup_task self :
  tree_lookup (task_path self) (sonar_graph self kwargs)
  = Some (RService (service_props (cluster_path self) (db_secret_path self)
                      (task_role_path self) (sonar_url self))).
Proof. unfold sonar_graph. unfold_paths. lookup_here. Qed.

Lemma sonar_lookup_container self :
  tree_lookup (container_path self) (sonar_graph self kwargs)
  = Some (RContainer [nofile_ulimit]).
Proof. unfold sonar_graph. unfold_paths. lookup_here. Qed.

Lemma sonar_lookup_pgroup self :
  tree_lookup (pgroup_path self) (sonar_graph self kwargs)
  = Some (RParameterGroup "default.aurora-postgresql11").
Proof. unfold sonar_graph. unfold_paths. lookup_here. Qed.

Lemma sonar_lookup_task_definition self :
  tree_lookup (task_definition_path self) (sonar_graph self kwargs)
  = Some RTaskDefinition.
Proof. unfold sonar_graph. unfold_paths. lookup_here. Qed.

(** The scopes of the constructs that their own scope creates. *)
Lemma sonar_scope_asg self : scope_of (asg_path self) = [cluster_path self].
Proof. apply scope_of_snoc. Qed.

Lemma sonar_scope_task_definition self :
  scope_of (task_definition_path self) = [task_path self].
Proof. apply scope_of_snoc. Qed.

Lemma sonar_scope_container self :
  scope_of (container_path self) = [task_definition_path self].
Proof. apply scope_of_snoc. Qed.

Lemma sonar_graph_secret_values self :
  Forall (λ pr, Forall (λ v, v = SecretsManagerRef (db_secret_path self) "password"
                             ∧ is_reference v = true)
                  (secret_values pr.2))
    (sonar_graph self kwargs).
Proof. repeat constructor. Qed.

Lemma sonar_graph_NoDup self : NoDup (paths (sonar_graph self kwargs)).
Proof.
  rewrite sonar_graph_paths. apply (NoDup_fmap_2 _).
  apply (bool_decide_unpack _). by vm_compute.
Qed.

(** The dependency relation of the graph is the edge list [sonar_edges]. *)
Lemma sonar_depends_edges self p q :
  depends (sonar_graph self kwargs) p q ↔ (p, q) ∈ sonar_edges self.
Proof.
  rewrite depends_deps by apply sonar_graph_NoDup.
  rewrite sonar_graph_deps. unfold sonar_edges. split.
  - intros (qs & Hin & Hq).
    repeat (apply elem_of_cons in Hin as [[= -> ->]|Hin]);
      [..|by apply elem_of_nil in Hin];
      repeat (apply elem_of_cons in Hq as [->|Hq]);
      first [by apply elem_of_nil in Hq | elem_of_list].
  - intros Hin.
    repeat (apply elem_of_cons in Hin as [[= -> ->]|Hin]);
      [..|by apply elem_of_nil in Hin];
      eexists; split; elem_of_list.
Qed.

Lemma sonar_lookup_db_here :
  tree_lookup ["sonar"; "Database"] (App ++ sonar_graph ["sonar"] ∅)
  = Some (RDatabaseCluster
            (database_props ["sonar"; "SonarVPC"] ["sonar"; "/app/sonarDBUser"]
               ["sonar"; "SonarQubeSG"] ["sonar"; "SonarDBParamGroup"])).
Proof. by vm_compute. Qed.

Lemma sonar_tree_ok scope id t :
  stack_pre scope id t → tree_ok (t ++ sonar_graph (scope ++ [id]) kwargs).
Proof.
  intros (Hok & Hs & Hf). eapply SonarStack_init_preserving; [done|].
  by apply SonarStack_init_run.
Qed.

(** The graph adds no cycle to a tree that has none, in whatever order
    the constructs of the tree were declared. *)
Lemma sonar_graph_acyclic scope id t :
  stack_pre scope id t → acyclic t →
  acyclic (t ++ sonar_graph (scope ++ [id]) kwargs).
Proof.
  intros (Hok & _ & Hf) Ha. apply acyclic_app; [by apply tree_ok_closed | done |].
  apply topo_ordered_acyclic, sonar_graph_topo.
Qed.

(** With the scopes as dependencies: every construct of the graph is
    declared after its scope and after what it refers to. *)
Lemma sonar_scoped_topo scope id :
  topo_ext [scope] (scoped (sonar_graph (scope ++ [id]) kwargs)).
Proof.
  apply topo_ext_deps. rewrite deps_scoped, sonar_graph_deps.
  cbn [fmap list_fmap fst snd]. unfold_paths. rewrite !scope_of_snoc. cbn [app].
  repeat (apply topo_deps_cons; [solve_refs|]). apply topo_deps_nil.
Qed.

Lemma sonar_scoped_extends_topo t scope id :
  scope ∈ paths t → topo_ordered (scoped t) →
  topo_ordered (scoped (t ++ sonar_graph (scope ++ [id]) kwargs)).
Proof.
  intros Hs Ht. rewrite scoped_app. apply topo_ext_app. split; [done|].
  eapply topo_ext_weaken; [|apply sonar_scoped_topo].
  intros x ->%list_elem_of_singleton. by rewrite paths_scoped.
Qed.

Lemma sonar_scoped_acyclic scope id t :
  stack_pre scope id t → acyclic (scoped t) →
  acyclic (scoped (t ++ sonar_graph (scope ++ [id]) kwargs)).
Proof.
  intros (Hok & _ & Hf) Ha. rewrite scoped_app.
  apply acyclic_app; [by apply tree_ok_scoped_closed | done |].
  eapply topo_ext_acyclic; [apply sonar_scoped_topo|].
  intros x ->%list_elem_of_singleton. rewrite paths_scoped.
  by intros ?%sonar_graph_below%prefix_snoc_not.
Qed.

(** The edges of the stack are edges of the extended tree. *)
Lemma sonar_edges_depends t self p q :
  tree_ok t → self ∉ paths t → (p, q) ∈ sonar_edges self →
  depends (t ++ sonar_graph self kwargs) p q.
Proof.
  intros Hok Hf Hd%sonar_depends_edges.
  apply depends_app_r; [|done]. destruct Hd as (r & Hr%mk_is_Some & _).
  apply tree_lookup_is_Some, sonar_graph_below in Hr as [k ->].
  by apply tree_ok_descendants.
Qed.

Lemma sonar_lookup_self self :
  tree_lookup self (sonar_graph self kwargs) = Some (RStack kwargs).
Proof. unfold sonar_graph. by rewrite tree_lookup_cons_eq. Qed.

Lemma App_pre : stack_pre [] "sonar" App.
Proof. split_and!; [apply App_ok | apply root_in_App | apply sonar_not_in_App]. Qed.

Lemma App_topo : topo_ordered App.
Proof. repeat constructor. Qed.

Lemma App_scoped_topo : topo_ordered (scoped App).
Proof. repeat constructor. Qed.

End results.

(** ** Two stacks in one tree *)

Section pairs.
Implicit Types (t : Tree Resource) (scope p q : Path) (id : string).
Implicit Types (kwargs : Kwargs).

Lemma siblings_disjoint scope id1 id2 p :
  id1 ≠ id2 → scope ++ [id1] `prefix_of` p → ¬ scope ++ [id2] `prefix_of` p.
Proof.
  intros Hid [k ->] [k' H]. rewrite <- !app_assoc in H.
  apply app_inv_head in H. simpl in H. by injection H.
Qed.

(** The references of the constructs of a stack stay in the stack. *)
Lemma sonar_depends_below t self kwargs p q :
  tree_ok t → self ∉ paths t → self `prefix_of` p →
  depends (t ++ sonar_graph self kwargs) p q → self `prefix_of` q.
Proof.
  intros Hok Hf [k ->] Hd.
  apply depends_app_r in Hd; [|by apply tree_ok_descendants].
  by eapply sonar_graph_below, topo_ordered_closed; [apply sonar_graph_topo|].
Qed.

(** After a stack the tree is ready for a stack under another id. *)
Lemma sonar_pair_pre scope id1 id2 kwargs t :
  stack_pre scope id1 t → stack_pre scope id2 t → id1 ≠ id2 →
  stack_pre scope id2 (t ++ sonar_graph (scope ++ [id1]) kwargs).
Proof.
  intros H1 (_ & Hs & Hf) Hid. split_and!.
  - by apply sonar_tree_ok.
  - rewrite paths_app, elem_of_app. by left.
  - rewrite paths_app, not_elem_of_app. split; [done|].
    intros Hin%sonar_graph_below. by eapply sibling_not_below.
Qed.

Lemma sonar_pair_run scope id1 id2 kw1 kw2 t :
  stack_pre scope id1 t → stack_pre scope id2 t → id1 ≠ id2 →
  (SonarStack_init scope id1 kw1 ;;; SonarStack_init scope id2 kw2) t
  = inr (sonar_handles (scope ++ [id2]),
         (t ++ sonar_graph (scope ++ [id1]) kw1)
         ++ sonar_graph (scope ++ [id2]) kw2).
Proof.
  intros H1 H2 Hid.
  destruct (sonar_pair_pre _ _ _ kw1 _ H1 H2 Hid) as (? & ? & ?).
  destruct H1 as (? & ? & ?). run_step SonarStack_init_run.
  by apply SonarStack_init_run.
Qed.

(** No construct of one stack refers to a construct of the other. *)
Lemma sonar_pair_independent scope id1 id2 kw1 kw2 t p q :
  stack_pre scope id1 t → stack_pre scope id2 t → id1 ≠ id2 →
  scope ++ [id1] `prefix_of` p → scope ++ [id2] `prefix_of` q →
  ¬ depends ((t ++ sonar_graph (scope ++ [id1]) kw1)
             ++ sonar_graph (scope ++ [id2]) kw2) p q
  ∧ ¬ depends ((t ++ sonar_graph (scope ++ [id1]) kw1)
               ++ sonar_graph (scope ++ [id2]) kw2) q p.
Proof.
  intros H1 H2 Hid Hp Hq.
  destruct (sonar_pair_pre _ _ _ kw1 _ H1 H2 Hid) as (Hok' & _ & Hf').
  destruct H1 as (Hok & _ & Hf). split; intros Hd.
  - destruct (decide (p ∈ paths (t ++ sonar_graph (scope ++ [id1]) kw1))).
    + apply depends_app_l in Hd; [|done].
      eapply siblings_disjoint; [exact Hid | | exact Hq].
      exact (sonar_depends_below _ _ _ _ _ Hok Hf Hp Hd).
    + apply depends_app_r in Hd; [|done]. destruct Hd as (r & Hr%mk_is_Some & _).
      apply tree_lookup_is_Some, sonar_graph_below in Hr.
      by eapply siblings_disjoint.
  - eapply siblings_disjoint; [exact Hid | exact Hp |].
    exact (sonar_depends_below _ _ _ _ _ Hok' Hf' Hq Hd).
Qed.

(** The scope of a construct of one stack is no construct of the other. *)
Lemma scope_of_siblings scope id1 id2 p q :
  id1 ≠ id2 → scope ++ [id1] `prefix_of` p → scope ++ [id2] `prefix_of` q →
  q ∉ scope_of p.
Proof.
  intros Hid [k ->] Hq. destruct k as [|x k _] using rev_ind.
  - rewrite app_nil_r, scope_of_snoc. intros ->%list_elem_of_singleton.
    by apply prefix_snoc_not in Hq.
  - rewrite app_assoc, scope_of_snoc. intros ->%list_elem_of_singleton.
    eapply siblings_disjoint; [exact Hid | | exact Hq]. by exists k.
Qed.

(** Nor does a construct of one stack need a construct of the other. *)
Lemma sonar_pair_scoped_independent scope id1 id2 kw1 kw2 t p q :
  stack_pre scope id1 t → stack_pre scope id2 t → id1 ≠ id2 →
  scope ++ [id1] `prefix_of` p → scope ++ [id2] `prefix_of` q →
  ¬ depends (scoped ((t ++ sonar_graph (scope ++ [id1]) kw1)
                     ++ sonar_graph (scope ++ [id2]) kw2)) p q
  ∧ ¬ depends (scoped ((t ++ sonar_graph (scope ++ [id1]) kw1)
                       ++ sonar_graph (scope ++ [id2]) kw2)) q p.
Proof.
  intros H1 H2 Hid Hp Hq.
  destruct (sonar_pair_independent _ _ _ kw1 kw2 _ _ _ H1 H2 Hid Hp Hq).
  split; intros [[_ Hs]|Hd]%depends_scoped; try done.
  - by eapply scope_of_siblings.
  - by eapply (scope_of_siblings scope id2 id1).
Qed.

End pairs.

(** [solve_prefix] proves that a path of the graph is at or below the stack. *)
Ltac solve_prefix :=
  unfold_paths; solve [repeat first [reflexivity | apply prefix_app_r]].

#[export] Hint Rewrite @sonar_lookup_self @sonar_lookup_vpc @sonar_lookup_cluster
  @sonar_lookup_db_secret @sonar_lookup_sg @sonar_lookup_db
  @sonar_lookup_asg @sonar_lookup_task_role @sonar_lookup_task
  @sonar_lookup_container @sonar_lookup_pgroup @sonar_lookup_task_definition
  : build.

(** [sonar_observe] evaluates the lookups of the stack's constructs in a
    tree the constructor has extended. *)
Ltac sonar_observe :=
  rewrite ?sonar_lookup by (done || solve_prefix);
  autorewrite with build.

(** ** The kinds of what the constructs of the stack refer to *)

Section typed.
Implicit Types (t : Tree Resource) (self vpc db_secret sg pgroup cluster
  task_role db : Path).
Context {kwargs : Kwargs}.

Lemma database_typed_refs vpc db_secret sg pgroup :
  typed_refs (RDatabaseCluster (database_props vpc db_secret sg pgroup))
  = [(pgroup, [KParameterGroup]); (vpc, [KVpc]); (sg, [KSecurityGroup]);
     (db_secret, [KDatabaseSecret])].
Proof. vm_compute. reflexivity. Qed.

Lemma role_typed_refs db_secret :
  typed_refs (RRole task_role_props [read_statement db_secret])
  = [(db_secret, [KDatabaseSecret])].
Proof. vm_compute. reflexivity. Qed.

Lemma service_typed_refs cluster db_secret task_role db :
  typed_refs (RService (service_props cluster db_secret task_role (jdbc_url_value db)))
  = [(cluster, [KCluster]); (task_role, [KRole]);
     (db_secret, [KDatabaseSecret]); (db_secret, [KDatabaseSecret]);
     (db, [KDatabaseCluster]); (db, [KDatabaseCluster])].
Proof. vm_compute. reflexivity. Qed.

(** Every construct of the graph is well typed in the tree the graph
    extends. *)
Lemma sonar_graph_typed t self :
  tree_ok t → self ∉ paths t →
  Forall (λ pr, well_typed (t ++ sonar_graph self kwargs) pr.1 pr.2 = true)
    (sonar_graph self kwargs).
Proof.
  intros Hok Hf. unfold sonar_graph at 2, sonar_url.
  repeat (apply Forall_cons; split); [..|apply Forall_nil_2];
    unfold well_typed, well_scoped; cbn [fst snd scope_kind];
    rewrite ?database_typed_refs, ?role_typed_refs, ?service_typed_refs;
    rewrite ?sonar_scope_asg, ?sonar_scope_task_definition, ?sonar_scope_container;
    cbn [typed_refs forallb fst snd sg_props cluster_props sg_vpc cluster_vpc];
    unfold has_kind; sonar_observe; by vm_compute.
Qed.

End typed.

(** ** What the constructs of the stack hold in the extended tree *)

Section observations.
Context (t : Tree Resource) (self : Path).
Context {kwargs : Kwargs}.
Context (Hok : tree_ok t) (Hfresh : self ∉ paths t).
Local Abbreviation t' := (t ++ sonar_graph self kwargs).

Lemma sonar_ingress : ingress_of t' (sg_path self) = [aurora_ingress_rule].
Proof. unfold ingress_of. by sonar_observe. Qed.

Lemma sonar_commands : commands_of t' (asg_path self) = bootstrap_commands.
Proof. unfold commands_of. by sonar_observe. Qed.

Lemma sonar_statements :
  statements_of t' (task_role_path self) = [read_statement (db_secret_path self)].
Proof. unfold statements_of. by sonar_observe. Qed.

Lemma sonar_ulimits : ulimits_of t' (container_path self) = [nofile_ulimit].
Proof. unfold ulimits_of. by sonar_observe. Qed.

Lemma sonar_database_port : database_port_open t' (db_path self) = false.
Proof.
  unfold database_port_open. sonar_observe.
  cbn [engine security_groups instance_props database_props db_instance_props existsb].
  by rewrite sonar_ingress.
Qed.

Lemma sonar_service_secrets db_secret :
  task_secrets db_secret !! "sonar.jdbc.username"
  = Some (FromSecretsManager db_secret (Some "username"))
  ∧ task_secrets db_secret !! "sonar.jdbc.password"
    = Some (FromSecretsManager db_secret (Some "password"))
  ∧ size (task_secrets db_secret) = 2%nat.
Proof. by vm_compute. Qed.

Lemma sonar_service_environment url :
  task_environment url !! "sonar.jdbc.url" = Some url
  ∧ size (task_environment url) = 1%nat.
Proof. by vm_compute. Qed.

Lemma jdbc_url_value_resolve env db host port :
  env (mkToken db "Endpoint.Address") = Some host →
  env (mkToken db "Endpoint.Port") = Some port →
  resolve env (jdbc_url_value db)
  = Some ("jdbc:postgresql://" +:+ host +:+ ":" +:+ port +:+ "/sonarqube").
Proof.
  intros Hh Hp. unfold jdbc_url_value.
  rewrite !resolve_cons_lit, !resolve_cons. cbn [frag_resolve resolve].
  rewrite Hh, Hp. cbn [mbind option_bind fmap option_fmap option_map].
  by rewrite string_app_nil_r.
Qed.

End observations.

(** ** The tactic of the contract *)

(** [sonar_triple] derives a triple of the constructor from its contract:
    it leaves the postcondition to prove of the handles and the tree of
    the contract, with the precondition as [Hok], [Hscope], [Hfresh]. *)
Ltac sonar_triple :=
  eapply triple_conseq; [apply SonarStack_init_triple | by intros ? ? |];
  intros t h t' [Hok [Hscope Hfresh]] [-> ->];
  cbn [sonar_handles self_vpc self_db_secret self_sg self_db self_cluster
         self_task_role].
