(* ===== verification/StackProperties.v ===== *)
(** * StackProperties: what the constructor guarantees

    The properties of [SonarStack.__init__], proved from its contract
    [SonarStack_init_triple] and the facts about the built tree of
    [SonarStack]: the triples of the constructor, each followed further
    down by its instance at the run of [app.py]; the failures of the
    constructor; and the properties of the blocks on their own. *)

From stdpp Require Import gmap.
From S2P Require Import Prelude Tokens Construct Graph Resources Typing SonarStack.

Local Open Scope Z_scope.
Local Open Scope build_scope.

(** ** Properties of the constructor

    The theorems of this section are triples of the constructor under its
    precondition [stack_pre]: each states that the constructor returns,
    and what the tree [t] it started from, the handles [h] and the tree
    [t'] it returns satisfy. *)

Section properties.
Context (scope : Path) (id : string) (kwargs : Kwargs).
Local Abbreviation self := (scope ++ [id]).

(** C1. Refinement: in a well-formed tree where [scope] is declared and has
    no child [id], the constructor succeeds, returns the handles of the
    stack, extends the tree by exactly the graph [sonar_graph] below
    [scope ++ [id]], and leaves the tree well formed. *)
Theorem SonarStack_init_correct :
  triple (stack_pre scope id) (SonarStack_init scope id kwargs)
    (λ t h t', h = sonar_handles self ∧ t' = t ++ sonar_graph self kwargs ∧ tree_ok t').
Proof.
  sonar_triple. split_and!; [done..|].
  eapply SonarStack_init_preserving; [done|]. by apply SonarStack_init_run.
Qed.

(** C2. No dangling reference: the constructor never refers to a construct
    before it is declared.  It returns, every reference of every construct
    of the tree it returns resolves to a construct of that tree, and the
    references of the constructs of the stack lead to constructs of the
    stack. *)
Theorem SonarStack_init_no_dangling :
  triple (stack_pre scope id) (SonarStack_init scope id kwargs)
    (λ t h t',
       closed t'
       ∧ ∀ p q, self `prefix_of` p → depends t' p q → self `prefix_of` q).
Proof.
  sonar_triple. split.
  - eapply tree_ok_closed, SonarStack_init_preserving; [done|].
    by apply SonarStack_init_run.
  - intros p q Hp Hd. by eapply sonar_depends_below.
Qed.

(** C3. The order of the dependencies is kept.  From a tree in which every
    construct is declared after what it refers to, the constructor returns
    such a tree; so it does when the scopes count as dependencies; and a
    tree without dependency cycle, in whatever order its constructs were
    declared, is returned without cycle, with or without the scopes. *)
Theorem SonarStack_init_acyclic :
  triple (stack_pre scope id) (SonarStack_init scope id kwargs)
    (λ t h t',
       (topo_ordered t →
        topo_ordered t'
        ∧ ∀ p q, depends t' p q
                 → q ∈ paths t' ∧ (index_of q t' < index_of p t')%nat)
       ∧ (topo_ordered (scoped t) → topo_ordered (scoped t'))
       ∧ (acyclic t → acyclic t')
       ∧ (acyclic (scoped t) → acyclic (scoped t'))).
Proof.
  sonar_triple. pose proof (conj Hok (conj Hscope Hfresh)) as Hpre. split_and!.
  - intros Ht.
    pose proof (sonar_graph_extends_topo (kwargs:=kwargs) _ self Ht) as Ht'.
    split; [done|]. intros p q. by apply topo_ordered_depends.
  - by apply sonar_scoped_extends_topo.
  - by apply sonar_graph_acyclic.
  - by apply sonar_scoped_acyclic.
Qed.

(** C4. The ingress rule does not open the database's port: the security
    group the constructor attaches to the database admits TCP port 3306
    from any IPv4 address and nothing else, while the engine of the
    cluster, Aurora PostgreSQL, listens on 5432. *)
Theorem ingress_port_mismatch :
  triple (stack_pre scope id) (SonarStack_init scope id kwargs)
    (λ t h t',
       ingress_of t' (self_sg h)
       = [mkIngressRule AnyIpv4 (mkPort TCP 3306 3306) (Some "Aurora")]
       ∧ (∀ n, existsb (rule_admits n) (ingress_of t' (self_sg h)) = true
               ↔ n = 3306)
       ∧ database_port_open t' (self_db h) = false).
Proof.
  sonar_triple. rewrite sonar_ingress, sonar_database_port by done.
  split_and!; [done| |done].
  intros n. cbn -[Z.leb]. rewrite orb_false_r, andb_true_iff, !Z.leb_le. lia.
Qed.

(** C5. The credential is used by reference only: every secret value a
    construct of the stack is configured with is the reference to the
    field [password] of the database secret the constructor declares;
    none is a value in clear. *)
Theorem credential_by_reference :
  triple (stack_pre scope id) (SonarStack_init scope id kwargs)
    (λ t h t',
       kind_of <$> tree_lookup (self_db_secret h) t' = Some KDatabaseSecret
       ∧ ∀ p r v, self `prefix_of` p → tree_lookup p t' = Some r →
                  v ∈ secret_values r →
                  v = SecretsManagerRef (self_db_secret h) "password"
                  ∧ is_reference v = true).
Proof.
  sonar_triple. split; [by sonar_observe|]. intros p r v Hp Hr Hv.
  rewrite sonar_lookup in Hr by done. apply tree_lookup_Some_elem in Hr.
  pose proof (sonar_graph_secret_values (kwargs:=kwargs) self) as H.
  eapply Forall_forall in H; [|done]. by eapply Forall_forall in H.
Qed.

(** C6. The grants of the task role: the constructor leaves the role with
    exactly one inline statement, which lets it read the database secret,
    beside the one managed policy it is declared with; the role is the one
    the ECS tasks service assumes, and it is the identity the service's
    task runs under. *)
Theorem task_role_grants :
  triple (stack_pre scope id) (SonarStack_init scope id kwargs)
    (λ t h t',
       statements_of t' (self_task_role h)
       = [mkPolicyStatement
            ["secretsmanager:GetSecretValue"; "secretsmanager:DescribeSecret"]
            [self_db_secret h]]
       ∧ tree_lookup (self_task_role h) t'
         = Some (RRole (mkRoleProps "SonarTaskRole"
                          (ServicePrincipal "ecs-tasks.amazonaws.com")
                          [mkManagedPolicy
                             "service-role/AmazonECSTaskExecutionRolePolicy"])
                   (statements_of t' (self_task_role h)))
       ∧ ∃ props, tree_lookup (task_path self) t' = Some (RService props)
                  ∧ task_role (task_image_options props) = self_task_role h).
Proof. sonar_triple. rewrite sonar_statements by done. sonar_observe. eauto. Qed.

(** C7. The JDBC URL of the service is deferred: the value of the
    environment variable [sonar.jdbc.url] carries the two tokens of the
    database's endpoint, is no literal, has no value before provisioning,
    and once the endpoint has an address and a port it is the JDBC URL of
    the database [sonarqube] at that address. *)
Theorem jdbc_url_deferred :
  triple (stack_pre scope id) (SonarStack_init scope id kwargs)
    (λ t h t', ∃ props url,
       tree_lookup (task_path self) t' = Some (RService props)
       ∧ environment (task_image_options props) !! "sonar.jdbc.url" = Some url
       ∧ tokens_of url = [mkToken (self_db h) "Endpoint.Address";
                          mkToken (self_db h) "Endpoint.Port"]
       ∧ is_literal url = false
       ∧ resolve unprovisioned url = None
       ∧ ∀ env host port,
           env (mkToken (self_db h) "Endpoint.Address") = Some host →
           env (mkToken (self_db h) "Endpoint.Port") = Some port →
           resolve env url
           = Some ("jdbc:postgresql://" +:+ host +:+ ":" +:+ port +:+ "/sonarqube")).
Proof.
  sonar_triple. eexists _, _. split; [by sonar_observe|].
  split; [apply sonar_service_environment|].
  split_and!; try done. intros env host port. apply jdbc_url_value_resolve.
Qed.

(** C8. The hosts of the compute cluster are configured: after the
    constructor the user data of the cluster's auto-scaling group holds
    the four bootstrap commands of the source, in the order of the source,
    and nothing else. *)
Theorem bootstrap_commands_installed :
  triple (stack_pre scope id) (SonarStack_init scope id kwargs)
    (λ t h t',
       commands_of t' (self_cluster h ++ ["DefaultAutoScalingGroup"])
       = ["sysctl -qw vm.max_map_count=262144"; "sysctl -w fs.file-max=65536";
          "ulimit -n 65536"; "ulimit -u 4096"]).
Proof. sonar_triple. by apply sonar_commands. Qed.

(** C9. The configuration of the service: it runs on the compute
    cluster of the stack the image [sonarqube:8.2-community] with
    container port 9000, 512 CPU units, 2048 MiB of memory, one task and a
    public load balancer; it injects exactly two secrets, the fields
    [username] and [password] of the database secret taken one by one, and
    exactly one environment variable, the JDBC URL. *)
Theorem service_configuration :
  triple (stack_pre scope id) (SonarStack_init scope id kwargs)
    (λ t h t', ∃ props,
       tree_lookup (task_path self) t' = Some (RService props)
       ∧ cluster props = self_cluster h
       ∧ (cpu props, memory_limit_mib props, desired_count props) = (512, 2048, 1)
       ∧ public_load_balancer props = true
       ∧ image (task_image_options props) = FromRegistry "sonarqube:8.2-community"
       ∧ container_port (task_image_options props) = 9000
       ∧ (secrets (task_image_options props) !! "sonar.jdbc.username"
          = Some (FromSecretsManager (self_db_secret h) (Some "username"))
          ∧ secrets (task_image_options props) !! "sonar.jdbc.password"
            = Some (FromSecretsManager (self_db_secret h) (Some "password"))
          ∧ size (secrets (task_image_options props)) = 2%nat)
       ∧ (environment (task_image_options props) !! "sonar.jdbc.url"
          = Some (jdbc_url_value (self_db h))
          ∧ size (environment (task_image_options props)) = 1%nat)).
Proof.
  sonar_triple. eexists. split; [by sonar_observe|].
  cbn [service_props sonar_task_image_options cluster cpu memory_limit_mib
         desired_count public_load_balancer task_image_options image
         container_port secrets environment].
  split_and!; try done;
    first [apply sonar_service_secrets | apply sonar_service_environment].
Qed.

(** C10. The container of the service has exactly one ulimit: the number of
    open files, with soft and hard limit 65536. *)
Theorem container_ulimits :
  triple (stack_pre scope id) (SonarStack_init scope id kwargs)
    (λ t h t',
       ulimits_of t' (scope ++ [id] ++ ["SonarService"; "TaskDef"; "web"])
       = [mkUlimit NOFILE 65536 65536]).
Proof.
  sonar_triple. etrans; [|by apply sonar_ulimits].
  f_equal. unfold_paths. by rewrite <- !app_assoc.
Qed.

(** C25. The dependency edges the constructor adds are exactly the eleven
    edges of [sonar_edges]: security group to network; database to
    parameter group, network, security group and credential; compute
    cluster to network; role to credential; service to compute cluster,
    role, credential and database.  The edges of the tree it started from
    are unchanged. *)
Theorem SonarStack_init_dependencies :
  triple (stack_pre scope id) (SonarStack_init scope id kwargs)
    (λ t h t',
       ∀ p q, depends t' p q ↔ depends t p q ∨ (p, q) ∈ sonar_edges self).
Proof.
  sonar_triple. intros p q. rewrite <- (sonar_depends_edges (kwargs:=kwargs)).
  destruct (decide (p ∈ paths t)) as [Hp|Hp].
  - rewrite depends_app_l by done. split; [by left|].
    intros [?|[r [Hr%mk_is_Some _]]]; [done|]. exfalso.
    apply tree_lookup_is_Some, sonar_graph_below in Hr as [k ->].
    by eapply tree_ok_descendants.
  - rewrite depends_app_r by done. split; [by right|].
    intros [[r [Hr%mk_is_Some _]]|?]; [|done]. by apply tree_lookup_is_Some in Hr.
Qed.

(** The inventory of the stack: the constructor adds to the tree
    exactly one construct of every kind but the application root: one
    stack, network, database secret, security group, parameter group,
    database cluster, compute cluster, auto-scaling group, role, service,
    task definition and container. *)
Theorem SonarStack_init_inventory :
  triple (stack_pre scope id) (SonarStack_init scope id kwargs)
    (λ t h t',
       length t' = (length t + 12)%nat
       ∧ ∀ k, count_kind k t'
              = (count_kind k t + if decide (k = KApp) then 0 else 1)%nat).
Proof.
  sonar_triple. split; [by rewrite length_app|].
  intros k. by rewrite count_kind_app, sonar_graph_count.
Qed.

(** C32. The attributes of the stack object are handles on constructs of
    the tree, each of the kind its name says. *)
Theorem SonarStack_init_handles :
  triple (stack_pre scope id) (SonarStack_init scope id kwargs)
    (λ t h t',
       (λ p, kind_of <$> tree_lookup p t')
         <$> [self_vpc h; self_db_secret h; self_sg h; self_db h; self_cluster h;
              self_task_role h]
       = Some <$> [KVpc; KDatabaseSecret; KSecurityGroup; KDatabaseCluster;
                   KCluster; KRole]).
Proof. sonar_triple. cbn [fmap list_fmap]. by sonar_observe. Qed.

(** C11. Typing: the constructor hands every construct what its signature
    asks for.  From a tree in which every reference leads to a construct
    of a kind the library accepts in that place, it returns such a tree:
    the security group, the database and the cluster are given a network,
    the database a parameter group, security groups and a secret, the role
    is granted a secret, the service is given a cluster, a role, secrets
    and the endpoint of a database; the auto-scaling group sits in a
    cluster, the task definition in a service, the container in a task
    definition. *)
Theorem SonarStack_init_typed :
  triple (λ t, stack_pre scope id t ∧ tree_typed t)
    (SonarStack_init scope id kwargs)
    (λ t h t', tree_typed t').
Proof.
  eapply triple_conseq; [apply SonarStack_init_triple | by intros ? [? ?] |].
  intros t h t' [(Hok & _ & Hf) Ht] [-> ->].
  apply tree_typed_app; [done|]. by apply sonar_graph_typed.
Qed.

(** C30. Frame: the constructor leaves every construct that was declared
    before it as it was, and what it declares is at or below the stack. *)
Theorem SonarStack_init_frame :
  triple (stack_pre scope id) (SonarStack_init scope id kwargs)
    (λ t h t',
       (∀ q, q ∈ paths t → tree_lookup q t' = tree_lookup q t)
       ∧ paths t' = paths t ++ ((self ++.) <$> sonar_suffixes)).
Proof.
  sonar_triple. split.
  - intros q [r Hq]%tree_lookup_is_Some. by rewrite Hq, (tree_lookup_app_l _ _ _ _ Hq).
  - by rewrite paths_app, sonar_graph_paths.
Qed.

(** C22. The keyword arguments of the constructor are passed on to the
    stack unchanged and to nothing else: the stack construct holds them,
    and every other construct of the tree is what it is without keyword
    arguments. *)
Theorem SonarStack_init_kwargs :
  triple (stack_pre scope id) (SonarStack_init scope id kwargs)
    (λ t h t',
       tree_lookup self t' = Some (RStack kwargs)
       ∧ ∀ p, p ≠ self →
              tree_lookup p t' = tree_lookup p (t ++ sonar_graph self ∅)).
Proof.
  sonar_triple. split; [by sonar_observe|].
  intros p Hp. rewrite !tree_lookup_app. destruct (tree_lookup p t); [done|].
  unfold sonar_graph.
  by rewrite (tree_lookup_cons_ne p self (RStack kwargs)),
    (tree_lookup_cons_ne p self (RStack ∅)).
Qed.

(** Running the constructor a second time with the same scope and id
    fails with the duplicate-id error. *)
Theorem SonarStack_init_twice :
  raises (stack_pre scope id)
    (SonarStack_init scope id kwargs ;;; SonarStack_init scope id kwargs)
    (DuplicateId self).
Proof.
  eapply raises_bind_r; [apply SonarStack_init_triple|].
  intros t h t' [[_ [Hs _]] [_ ->]]. unfold SonarStack_init.
  apply bind_err, Stack_duplicate.
  - rewrite paths_app, elem_of_app. by left.
  - rewrite paths_app, elem_of_app. right. apply sonar_graph_self.
Qed.

End properties.

(** The properties, at the run of [app.py]. *)

Lemma SonarStack_init_correct_witness :
  ∃ h t', SonarStack_init [] "sonar" ∅ App = inr (h, t')
    ∧ (h = sonar_handles ([] ++ ["sonar"])
       ∧ t' = App ++ sonar_graph ([] ++ ["sonar"]) ∅ ∧ tree_ok t').
Proof. exact (SonarStack_init_correct [] "sonar" ∅ App App_pre). Defined.

Lemma SonarStack_init_no_dangling_witness :
  ∃ h t', SonarStack_init [] "sonar" ∅ App = inr (h, t')
    ∧ (closed t'
       ∧ ∀ p q, ([] ++ ["sonar"]) `prefix_of` p → depends t' p q
                → ([] ++ ["sonar"]) `prefix_of` q).
Proof. exact (SonarStack_init_no_dangling [] "sonar" ∅ App App_pre). Defined.

Lemma SonarStack_init_acyclic_witness :
  ∃ h t', SonarStack_init [] "sonar" ∅ App = inr (h, t')
    ∧ topo_ordered t' ∧ topo_ordered (scoped t')
    ∧ acyclic t' ∧ acyclic (scoped t').
Proof.
  destruct (SonarStack_init_acyclic [] "sonar" ∅ App App_pre)
    as (h & t' & Hrun & H1 & H2 & H3 & H4).
  exists h, t'. split; [exact Hrun|]. split_and!.
  - apply H1, App_topo.
  - apply H2, App_scoped_topo.
  - apply H3, topo_ordered_acyclic, App_topo.
  - apply H4, topo_ordered_acyclic, App_scoped_topo.
Defined.

Lemma ingress_port_mismatch_witness :
  ∃ h t', SonarStack_init [] "sonar" ∅ App = inr (h, t')
    ∧ (ingress_of t' (self_sg h)
       = [mkIngressRule AnyIpv4 (mkPort TCP 3306 3306) (Some "Aurora")]
       ∧ (∀ n, existsb (rule_admits n) (ingress_of t' (self_sg h)) = true
               ↔ n = 3306)
       ∧ database_port_open t' (self_db h) = false).
Proof. exact (ingress_port_mismatch [] "sonar" ∅ App App_pre). Defined.

Lemma credential_by_reference_witness :
  ∃ h t', SonarStack_init [] "sonar" ∅ App = inr (h, t')
    ∧ (kind_of <$> tree_lookup (self_db_secret h) t' = Some KDatabaseSecret
       ∧ ∀ p r v, ([] ++ ["sonar"]) `prefix_of` p → tree_lookup p t' = Some r →
                  v ∈ secret_values r →
                  v = SecretsManagerRef (self_db_secret h) "password"
                  ∧ is_reference v = true).
Proof. exact (credential_by_reference [] "sonar" ∅ App App_pre). Defined.

Lemma task_role_grants_witness :
  ∃ h t', SonarStack_init [] "sonar" ∅ App = inr (h, t')
    ∧ (statements_of t' (self_task_role h)
       = [mkPolicyStatement
            ["secretsmanager:GetSecretValue"; "secretsmanager:DescribeSecret"]
            [self_db_secret h]]
       ∧ tree_lookup (self_task_role h) t'
         = Some (RRole (mkRoleProps "SonarTaskRole"
                          (ServicePrincipal "ecs-tasks.amazonaws.com")
                          [mkManagedPolicy
                             "service-role/AmazonECSTaskExecutionRolePolicy"])
                   (statements_of t' (self_task_role h)))
       ∧ ∃ props, tree_lookup (task_path ([] ++ ["sonar"])) t'
                  = Some (RService props)
                  ∧ task_role (task_image_options props) = self_task_role h).
Proof. exact (task_role_grants [] "sonar" ∅ App App_pre). Defined.

Lemma jdbc_url_deferred_witness :
  ∃ h t', SonarStack_init [] "sonar" ∅ App = inr (h, t')
    ∧ (∃ props url,
       tree_lookup (task_path ([] ++ ["sonar"])) t' = Some (RService props)
       ∧ environment (task_image_options props) !! "sonar.jdbc.url" = Some url
       ∧ tokens_of url = [mkToken (self_db h) "Endpoint.Address";
                          mkToken (self_db h) "Endpoint.Port"]
       ∧ is_literal url = false
       ∧ resolve unprovisioned url = None
       ∧ ∀ env host port,
           env (mkToken (self_db h) "Endpoint.Address") = Some host →
           env (mkToken (self_db h) "Endpoint.Port") = Some port →
           resolve env url
           = Some ("jdbc:postgresql://" +:+ host +:+ ":" +:+ port +:+ "/sonarqube")).
Proof. exact (jdbc_url_deferred [] "sonar" ∅ App App_pre). Defined.

Lemma bootstrap_commands_installed_witness :
  ∃ h t', SonarStack_init [] "sonar" ∅ App = inr (h, t')
    ∧ (commands_of t' (self_cluster h ++ ["DefaultAutoScalingGroup"])
       = ["sysctl -qw vm.max_map_count=262144"; "sysctl -w fs.file-max=65536";
          "ulimit -n 65536"; "ulimit -u 4096"]).
Proof. exact (bootstrap_commands_installed [] "sonar" ∅ App App_pre). Defined.

Lemma service_configuration_witness :
  ∃ h t', SonarStack_init [] "sonar" ∅ App = inr (h, t')
    ∧ (∃ props,
       tree_lookup (task_path ([] ++ ["sonar"])) t' = Some (RService props)
       ∧ cluster props = self_cluster h
       ∧ (cpu props, memory_limit_mib props, desired_count props) = (512, 2048, 1)
       ∧ public_load_balancer props = true
       ∧ image (task_image_options props) = FromRegistry "sonarqube:8.2-community"
       ∧ container_port (task_image_options props) = 9000
       ∧ (secrets (task_image_options props) !! "sonar.jdbc.username"
          = Some (FromSecretsManager (self_db_secret h) (Some "username"))
          ∧ secrets (task_image_options props) !! "sonar.jdbc.password"
            = Some (FromSecretsManager (self_db_secret h) (Some "password"))
          ∧ size (secrets (task_image_options props)) = 2%nat)
       ∧ (environment (task_image_options props) !! "sonar.jdbc.url"
          = Some (jdbc_url_value (self_db h))
          ∧ size (environment (task_image_options props)) = 1%nat)).
Proof. exact (service_configuration [] "sonar" ∅ App App_pre). Defined.

Lemma container_ulimits_witness :
  ∃ h t', SonarStack_init [] "sonar" ∅ App = inr (h, t')
    ∧ (ulimits_of t' ([] ++ ["sonar"] ++ ["SonarService"; "TaskDef"; "web"])
       = [mkUlimit NOFILE 65536 65536]).
Proof. exact (container_ulimits [] "sonar" ∅ App App_pre). Defined.

Lemma SonarStack_init_dependencies_witness :
  ∃ h t', SonarStack_init [] "sonar" ∅ App = inr (h, t')
    ∧ (∀ p q, depends t' p q
              ↔ depends App p q ∨ (p, q) ∈ sonar_edges ([] ++ ["sonar"])).
Proof. exact (SonarStack_init_dependencies [] "sonar" ∅ App App_pre). Defined.

Lemma SonarStack_init_inventory_witness :
  ∃ h t', SonarStack_init [] "sonar" ∅ App = inr (h, t')
    ∧ (length t' = (length App + 12)%nat
       ∧ ∀ k, count_kind k t'
              = (count_kind k App + if decide (k = KApp) then 0 else 1)%nat).
Proof. exact (SonarStack_init_inventory [] "sonar" ∅ App App_pre). Defined.

Lemma SonarStack_init_handles_witness :
  ∃ h t', SonarStack_init [] "sonar" ∅ App = inr (h, t')
    ∧ ((λ p, kind_of <$> tree_lookup p t')
         <$> [self_vpc h; self_db_secret h; self_sg h; self_db h; self_cluster h;
              self_task_role h]
       = Some <$> [KVpc; KDatabaseSecret; KSecurityGroup; KDatabaseCluster;
                   KCluster; KRole]).
Proof. exact (SonarStack_init_handles [] "sonar" ∅ App App_pre). Defined.

Lemma SonarStack_init_typed_witness :
  ∃ h t', SonarStack_init [] "sonar" ∅ App = inr (h, t') ∧ tree_typed t'.
Proof.
  apply (SonarStack_init_typed [] "sonar" ∅ App). split; [apply App_pre|].
  by repeat constructor.
Defined.

Lemma SonarStack_init_frame_witness :
  ∃ h t', SonarStack_init [] "sonar" ∅ App = inr (h, t')
    ∧ ((∀ q, q ∈ paths App → tree_lookup q t' = tree_lookup q App)
       ∧ paths t' = paths App ++ ((([] ++ ["sonar"]) ++.) <$> sonar_suffixes)).
Proof. exact (SonarStack_init_frame [] "sonar" ∅ App App_pre). Defined.

Lemma SonarStack_init_kwargs_witness :
  ∃ h t', SonarStack_init [] "sonar" {["description" := "SonarQube"]} App = inr (h, t')
    ∧ (tree_lookup ([] ++ ["sonar"]) t' = Some (RStack {["description" := "SonarQube"]})
       ∧ ∀ p, p ≠ [] ++ ["sonar"] →
              tree_lookup p t' = tree_lookup p (App ++ sonar_graph ([] ++ ["sonar"]) ∅)).
Proof.
  exact (SonarStack_init_kwargs [] "sonar" {["description" := "SonarQube"]} App App_pre).
Defined.

Lemma SonarStack_init_twice_witness :
  (SonarStack_init [] "sonar" ∅ ;;; SonarStack_init [] "sonar" ∅) App
  = inl (DuplicateId ([] ++ ["sonar"])).
Proof. exact (SonarStack_init_twice [] "sonar" ∅ App App_pre). Defined.

(** ** When the constructor fails *)

Section failure_properties.
Implicit Types (t : Tree Resource) (scope : Path) (id : string) (kwargs : Kwargs).

(** C28. The failure modes of the constructor: in a well-formed tree it
    succeeds exactly when its scope is declared and the id is free in it. *)
Theorem SonarStack_init_succeeds_iff scope id kwargs t :
  tree_ok t →
  (∃ h t', SonarStack_init scope id kwargs t = inr (h, t'))
  ↔ scope ∈ paths t ∧ scope ++ [id] ∉ paths t.
Proof.
  intros Hok. split.
  - intros (h & t' & Hrun). by eapply SonarStack_init_inv.
  - intros [Hs Hf]. eauto using SonarStack_init_run.
Qed.

Lemma SonarStack_init_succeeds_iff_witness :
  (∃ h t', SonarStack_init [] "sonar" ∅ App = inr (h, t'))
  ↔ [] ∈ paths App ∧ [] ++ ["sonar"] ∉ paths App.
Proof. exact (SonarStack_init_succeeds_iff [] "sonar" ∅ App App_ok). Defined.

(** C29. A second stack under an id that is taken is refused with the
    duplicate-id error of the declaration API, before anything is declared. *)
Theorem SonarStack_init_duplicate scope id kwargs :
  raises (λ t, scope ∈ paths t ∧ scope ++ [id] ∈ paths t)
    (SonarStack_init scope id kwargs) (DuplicateId (scope ++ [id])).
Proof. apply raises_bind_l. intros t [? ?]. by apply Stack_duplicate. Qed.

Lemma SonarStack_init_duplicate_witness :
  SonarStack_init [] "sonar" ∅ (App ++ sonar_graph ["sonar"] ∅)
  = inl (DuplicateId ([] ++ ["sonar"])).
Proof.
  apply (SonarStack_init_duplicate [] "sonar" ∅ (App ++ sonar_graph ["sonar"] ∅)).
  split; apply (bool_decide_unpack _); by vm_compute.
Defined.

(** A stack whose scope is not a construct of the tree is refused. *)
Theorem SonarStack_init_no_scope scope id kwargs :
  raises (λ t, scope ∉ paths t) (SonarStack_init scope id kwargs) (NoSuchConstruct scope).
Proof. apply raises_bind_l. intros t ?. by apply Stack_no_scope. Qed.

Lemma SonarStack_init_no_scope_witness :
  SonarStack_init ["prod"] "sonar" ∅ App = inl (NoSuchConstruct ["prod"]).
Proof.
  apply (SonarStack_init_no_scope ["prod"] "sonar" ∅ App).
  apply (bool_decide_unpack _). by vm_compute.
Defined.

(** C31. Two stacks under different ids of the same scope coexist: the
    second constructor succeeds after the first and each graph is built
    below its own stack. *)
Theorem SonarStack_init_two_stacks scope id1 id2 kwargs t :
  tree_ok t → scope ∈ paths t → id1 ≠ id2 →
  scope ++ [id1] ∉ paths t → scope ++ [id2] ∉ paths t →
  (SonarStack_init scope id1 kwargs ;;; SonarStack_init scope id2 kwargs) t
  = inr (sonar_handles (scope ++ [id2]),
         (t ++ sonar_graph (scope ++ [id1]) kwargs) ++ sonar_graph (scope ++ [id2]) kwargs).
Proof.
  intros Hok Hs Hid Hf1 Hf2. by apply sonar_pair_run.
Qed.

Lemma SonarStack_init_two_stacks_witness :
  (SonarStack_init [] "sonar" ∅ ;;; SonarStack_init [] "sonar2" ∅) App
  = inr (sonar_handles ([] ++ ["sonar2"]),
         (App ++ sonar_graph ([] ++ ["sonar"]) ∅) ++ sonar_graph ([] ++ ["sonar2"]) ∅).
Proof.
  apply (SonarStack_init_two_stacks [] "sonar" "sonar2" ∅ App App_ok root_in_App);
    [discriminate | apply sonar_not_in_App | apply (bool_decide_unpack _); by vm_compute].
Defined.

End failure_properties.

(** ** Properties of the blocks of the constructor *)

Section block_properties.
Implicit Types (t : Tree Resource) (self vpc db_secret cluster task db : Path).


(** C34. A cluster declared without capacity has no auto-scaling group:
    configuring its hosts fails with the missing-attribute error and
    changes nothing. *)
Theorem configure_hosts_no_capacity cluster props :
  capacity props = None →
  raises (λ t, tree_lookup cluster t = Some (RCluster props))
    (configure_hosts cluster) (NoAttribute cluster "autoscaling_group").
Proof.
  intros Hcap. apply raises_bind_l. intros t Hc.
  by eapply autoscaling_group_no_capacity.
Qed.

Lemma configure_hosts_no_capacity_witness :
  configure_hosts ["c"] (App ++ [(["c"], RCluster (mkClusterProps None []))])
  = inl (NoAttribute ["c"] "autoscaling_group").
Proof.
  exact (configure_hosts_no_capacity ["c"] (mkClusterProps None []) eq_refl
           (App ++ [(["c"], RCluster (mkClusterProps None []))]) eq_refl).
Defined.

(** C35. The security group cannot be declared before its network: with a
    handle [vpc] that is not a construct of the tree the block fails with
    the unresolved-reference error of the declaration API. *)
Theorem create_sg_unresolved_vpc self vpc :
  raises (λ t, self ∈ paths t ∧ sg_path self ∉ paths t ∧ vpc ∉ paths t)
    (create_sg self vpc) (UnresolvedReference (sg_path self) vpc).
Proof.
  apply raises_bind_l. intros t (Hs & Hf & Hv).
  apply declare_unresolved; [done..|].
  change (unresolved t [vpc] = Some vpc). cbn [unresolved]. by rewrite decide_False.
Qed.

Lemma create_sg_unresolved_vpc_witness :
  create_sg [] ["SonarVPC"] App = inl (UnresolvedReference (sg_path []) ["SonarVPC"]).
Proof.
  apply (create_sg_unresolved_vpc [] ["SonarVPC"] App).
  split_and!; apply (bool_decide_unpack _); by vm_compute.
Defined.

(** Resolution is all the declaration checks of a reference: given the
    stack where the network is expected, the security-group block returns
    without error, and the tree it returns is not typed. *)
Fact create_sg_wrong_kind_accepted :
  ∃ sg t', create_sg ["sonar"] ["sonar"] (App ++ [(["sonar"], RStack ∅)])
           = inr (sg, t')
           ∧ ¬ tree_typed t'.
Proof.
  eexists _, _. split; [by vm_compute|].
  intros H%(bool_decide_pack _). by vm_compute in H.
Qed.

(** C36. Read access can only be granted on a secret: when the handle
    [db_secret] is a construct of another kind the role block fails with
    the wrong-kind error. *)
Theorem create_task_role_wrong_secret self db_secret r :
  (∀ sprops, r ≠ RDatabaseSecret sprops) →
  raises (λ t, self ∈ paths t ∧ task_role_path self ∉ paths t
               ∧ tree_lookup db_secret t = Some r)
    (create_task_role self db_secret) (WrongKind db_secret).
Proof.
  intros Hk t (Hs & Hf & Hr). unfold create_task_role.
  run_step Role_run by build_side.
  eapply bind_err, grant_read_wrong_secret; [|done]. by apply tree_lookup_app_l.
Qed.

Lemma create_task_role_wrong_secret_witness :
  create_task_role [] [] App = inl (WrongKind []).
Proof.
  apply (create_task_role_wrong_secret [] [] RApp ltac:(done) App).
  split_and!; [apply root_in_App | apply (bool_decide_unpack _); by vm_compute | done].
Defined.

(** C37. The service is not declared when the address of the database
    cannot be taken: with a handle [db] on a construct that is no database
    cluster the service block fails with the wrong-kind error. *)
Theorem create_task_wrong_db self cluster db_secret task_role db r :
  (∀ props, r ≠ RDatabaseCluster props) →
  raises (λ t, tree_lookup db t = Some r)
    (create_task self cluster db_secret task_role db) (WrongKind db).
Proof.
  intros Hk. do 2 apply raises_bind_l. intros t Hr.
  unfold socket_address. run_step read_run.
  destruct r as [| | | | | |props| | | | | |]; try done. by destruct (Hk props).
Qed.

Lemma create_task_wrong_db_witness :
  create_task [] [] [] [] [] App = inl (WrongKind []).
Proof. exact (create_task_wrong_db [] [] [] [] [] RApp ltac:(done) App eq_refl). Defined.

(** The ulimits can only be added to the container of a service that
    is declared: on a tree without the service the block fails and names
    the missing construct. *)
Theorem add_container_ulimits_missing task :
  raises (λ t, task ∉ paths t) (add_container_ulimits task) (NoSuchConstruct task).
Proof. do 2 apply raises_bind_l. intros t ?. by apply read_missing. Qed.

Lemma add_container_ulimits_missing_witness :
  add_container_ulimits ["sonar"; "SonarService"] App
  = inl (NoSuchConstruct ["sonar"; "SonarService"]).
Proof.
  apply (add_container_ulimits_missing ["sonar"; "SonarService"] App).
  apply (bool_decide_unpack _). by vm_compute.
Defined.

(** C38. The template of the URL has exactly one replacement field:
    formatting puts the first argument between the two literal parts, in
    canonical form, and ignores the arguments after it; without an
    argument it fails with the index error of [str.format]. *)
Theorem jdbc_template_format :
  (∀ a args,
     py_format jdbc_template (a :: args)
     = inr (normalize (FLit "jdbc:postgresql://" :: a ++ [FLit "/sonarqube"])))
  ∧ py_format jdbc_template [] = inl IndexOutOfRange.
Proof.
  change jdbc_template with ("jdbc:postgresql://" +:+ "{}" +:+ "/sonarqube").
  split; [|by apply py_format_index_error]. intros a args.
  by erewrite py_format_field; [|done|by apply py_format_literal].
Qed.

(** C39. Formatting commutes with provisioning: on a database cluster the
    URL block returns, without changing the tree, a string whose value
    once the endpoint is known is the value of the template formatted
    with the address written out. *)
Theorem jdbc_url_format_resolve db props t env host port :
  tree_lookup db t = Some (RDatabaseCluster props) →
  env (mkToken db "Endpoint.Address") = Some host →
  env (mkToken db "Endpoint.Port") = Some port →
  ∃ url r,
    jdbc_url db t = inr (url, t)
    ∧ py_format jdbc_template [lit (host +:+ ":" +:+ port)] = inr r
    ∧ is_literal r = true
    ∧ resolve env url = resolve unprovisioned r.
Proof.
  intros Hdb Hh Hp.
  destruct (py_format_resolve env jdbc_template
              [[FTok (mkToken db "Endpoint.Address"); FLit ":";
                FTok (mkToken db "Endpoint.Port")]]
              [host +:+ ":" +:+ port] (jdbc_url_value db)) as (r & Hr & Hlit & Hres).
  - by vm_compute.
  - repeat constructor. cbn [resolve frag_resolve]. rewrite Hh, Hp.
    cbn [mbind option_bind]. by rewrite string_app_nil_r.
  - exists (jdbc_url_value db), r. split; [by eapply jdbc_url_run | done].
Qed.

Lemma jdbc_url_format_resolve_witness :
  ∃ url r,
    jdbc_url ["sonar"; "Database"] (App ++ sonar_graph ["sonar"] ∅)
    = inr (url, App ++ sonar_graph ["sonar"] ∅)
    ∧ py_format jdbc_template [lit ("db.internal" +:+ ":" +:+ "5432")] = inr r
    ∧ is_literal r = true
    ∧ resolve (λ tok, if decide (tok_attr tok = "Endpoint.Port") then Some "5432"
                      else Some "db.internal") url
      = resolve unprovisioned r.
Proof.
  exact (jdbc_url_format_resolve ["sonar"; "Database"] _ (App ++ sonar_graph ["sonar"] ∅)
           (λ tok, if decide (tok_attr tok = "Endpoint.Port") then Some "5432"
                   else Some "db.internal")
           "db.internal" "5432" (sonar_lookup_db_here) eq_refl eq_refl).
Defined.

End block_properties.
