(* ===== verification/OrderFree.v ===== *)
(** * OrderFree: the constructor and the order of earlier declarations

    The constructor is run in a tree that other code has filled: the
    application root, other stacks, whatever was declared before.  It
    reads that tree through the declaration API only, so it cannot depend
    on the order in which those constructs were declared.  Every
    operation of the library the constructor calls is [order_free], every
    block is, and so is the constructor: run in two trees that hold the
    same constructs it raises the same error, or returns the same handles
    and trees that hold the same constructs, which the provisioning
    engine deploys in the same ways. *)

From stdpp Require Import relations gmap.
From S2P Require Import Prelude Tokens Construct Graph Deploy TreeMap Resources.
From S2P Require Import SonarStack.

Local Open Scope build_scope.

(** [order_free_unfold f] proves that [f], defined from the operations of
    the API, is order free. *)
Ltac order_free_unfold f := intros; unfold f; solve_order_free.

(** ** The library *)

Section library.
Implicit Types (scope p : Path) (id : string).

Lemma Stack_order_free scope id kwargs : order_free (Stack scope id kwargs).
Proof. order_free_unfold Stack. Qed.

Lemma Vpc_order_free scope id props : order_free (Vpc scope id props).
Proof. order_free_unfold Vpc. Qed.

Lemma DatabaseSecret_order_free scope id props :
  order_free (DatabaseSecret scope id props).
Proof. order_free_unfold DatabaseSecret. Qed.

Lemma SecurityGroup_order_free scope id props :
  order_free (SecurityGroup scope id props).
Proof. order_free_unfold SecurityGroup. Qed.

Lemma add_ingress_rule_order_free p peer connection descr :
  order_free (add_ingress_rule p peer connection descr).
Proof. order_free_unfold add_ingress_rule. Qed.

Lemma from_parameter_group_name_order_free scope id n :
  order_free (from_parameter_group_name scope id n).
Proof. order_free_unfold from_parameter_group_name. Qed.

Lemma DatabaseCluster_order_free scope id props :
  order_free (DatabaseCluster scope id props).
Proof. order_free_unfold DatabaseCluster. Qed.

Lemma Cluster_order_free scope id props : order_free (Cluster scope id props).
Proof. order_free_unfold Cluster. Qed.

Lemma autoscaling_group_order_free p : order_free (autoscaling_group p).
Proof. order_free_unfold autoscaling_group. Qed.

Lemma user_data_order_free p : order_free (user_data p).
Proof. order_free_unfold user_data. Qed.

Lemma add_commands_order_free p commands : order_free (add_commands p commands).
Proof. order_free_unfold add_commands. Qed.

Lemma Role_order_free scope id props : order_free (Role scope id props).
Proof. order_free_unfold Role. Qed.

Lemma grant_read_order_free secret grantee : order_free (grant_read secret grantee).
Proof. order_free_unfold grant_read. Qed.

Lemma socket_address_order_free p : order_free (socket_address p).
Proof. order_free_unfold socket_address. Qed.

Lemma Service_order_free scope id props :
  order_free (ApplicationLoadBalancedEc2Service scope id props).
Proof. order_free_unfold ApplicationLoadBalancedEc2Service. Qed.

Lemma task_definition_order_free p : order_free (task_definition p).
Proof. order_free_unfold task_definition. Qed.

Lemma default_container_order_free p : order_free (default_container p).
Proof. order_free_unfold default_container. Qed.

Lemma add_ulimits_order_free p uls : order_free (add_ulimits p uls).
Proof. order_free_unfold add_ulimits. Qed.

Lemma format_order_free tpl args : order_free (format tpl args).
Proof. order_free_unfold format. Qed.

End library.

#[export] Hint Resolve Stack_order_free Vpc_order_free DatabaseSecret_order_free
  SecurityGroup_order_free add_ingress_rule_order_free
  from_parameter_group_name_order_free DatabaseCluster_order_free
  Cluster_order_free autoscaling_group_order_free user_data_order_free
  add_commands_order_free Role_order_free grant_read_order_free
  socket_address_order_free Service_order_free task_definition_order_free
  default_container_order_free add_ulimits_order_free format_order_free : build.

(** ** The blocks and the constructor *)

Section constructor.
Implicit Types (self scope vpc db_secret sg pgroup cluster task_role db task : Path)
  (id : string) (kwargs : Kwargs) (t u : Tree Resource).














End constructor.

