(* ===== verification/Runtime.v ===== *)
(** * Runtime: the service when it starts

    What the declarations of the stack are for.  Once the engine has
    created the constructs, the container of the service is started with
    the environment variables of its declaration, their tokens resolved,
    and with its secrets, which are not in the declaration: a secret is a
    handle on a field of a credential that the secret store generated and
    keeps, and it is fetched at start under the identity the service runs
    as, which must have been granted read access.  The database is created
    with the master credential its declaration refers to, fetched from the
    same store.

    The secret store and the identity service are external.  They are
    modelled from the specification, as far as the declarations of the
    stack constrain them: the store holds for every created credential
    the user name of its declaration and a generated password
    ([credentials_stored]); access is denied unless an inline statement
    of the role allows it ([may_read]; managed policies are not looked
    into); a role is assumed by the principals of its trust policy
    ([may_assume]).  The specification knows one identity of the service,
    the role the service is declared with; so does this file.

    The theorems: the service of the stack starts, with the JDBC URL of
    the database and with the credential the database was created with,
    whatever password the store generated; the role of the stack may
    read that credential and nothing else, is assumed by the container
    service only, and with the role as [iam.Role] leaves it, before
    [grant_read], the start is refused. *)

From stdpp Require Import relations gmap pretty.
From S2P Require Import Prelude Tokens Construct Graph Deploy Resources SonarStack.
From S2P Require Import Provision.

Local Open Scope build_scope.

(** ** Definitions *)

(** The outcome of a map of attempts: the values when every attempt
    succeeded, otherwise the error of a failed one. *)
Section collect.
Context {E A : Type}.

Definition failure (x : E + A) : option E :=
  match x with
  | inl e => Some e
  | inr _ => None
  end.

Definition success (x : E + A) : option A :=
  match x with
  | inl _ => None
  | inr a => Some a
  end.

Definition map_collect (m : gmap string (E + A)) : E + gmap string A :=
  match map_to_list (omap failure m) with
  | [] => inr (omap success m)
  | (_, e) :: _ => inl e
  end.

End collect.

(** The documents of the secret store: the fields of each credential, by
    the path of its construct. *)
Abbreviation SecretStore := (gmap Path (gmap string string)).

Inductive RuntimeError :=
| NotAService (p : Path)
| NotADatabase (p : Path)
| AssumeRoleDenied (role : Path) (principal : string)
| AccessDenied (role secret : Path)
| SecretNotFound (secret : Path)
| FieldNotFound (secret : Path) (field : string)
| NoValue (ts : TString)
| Unsupported (p : Path).

#[export] Instance RuntimeError_eq_dec : EqDecision RuntimeError.
Proof. solve_decision. Defined.

(** What the container is started with. *)
Record Started := mkStarted {
  started_environment : gmap string string;
  started_secrets : gmap string string
}.

(** The store holds the credential of every database secret the engine
    has created: the user name of the declaration and a generated
    password. *)
Definition credentials_stored (t : Tree Resource) (d : list Path)
    (store : SecretStore) : Prop :=
  ∀ p props, p ∈ d → tree_lookup p t = Some (RDatabaseSecret props) →
    ∃ doc, store !! p = Some doc
           ∧ doc !! "username" = Some (secret_username props)
           ∧ is_Some (doc !! "password").

(** The credential the store generates for the database secret at [p]. *)
Definition generated_credential (t : Tree Resource) (gen : Path → string) (p : Path)
    : option (Path * gmap string string) :=
  match tree_lookup p t with
  | Some (RDatabaseSecret props) =>
      Some (p, <["password" := gen p]> (<["username" := secret_username props]> ∅))
  | _ => None
  end.

(** The store once the engine has created [d], when the passwords it
    generates are [gen]. *)
Definition generated_store (t : Tree Resource) (d : list Path) (gen : Path → string)
    : SecretStore :=
  list_to_map (omap (generated_credential t gen) d).

(** The principal of the container service. *)
Definition ecs_tasks : string := "ecs-tasks.amazonaws.com".

Definition get_secret_action : string := "secretsmanager:GetSecretValue".

Definition statement_allows (action : string) (q : Path) (s : PolicyStatement) : bool :=
  bool_decide (action ∈ actions s) && bool_decide (q ∈ resources s).

(** May the role read the secret at [q]?  Only by an inline statement. *)
Definition may_read (t : Tree Resource) (role q : Path) : bool :=
  existsb (statement_allows get_secret_action q) (statements_of t role).

(** May the principal assume the role? *)
Definition may_assume (t : Tree Resource) (role : Path) (principal : string) : bool :=
  match tree_lookup role t with
  | Some (RRole props _) =>
      match assumed_by props with
      | ServicePrincipal service => bool_decide (service = principal)
      | AccountRootPrincipal => false
      | AnyPrincipal => true
      end
  | _ => false
  end.

(** The field of a document of the store. *)
Definition stored_field (store : SecretStore) (secret : Path) (field : string)
    : RuntimeError + string :=
  match store !! secret with
  | Some doc =>
      match doc !! field with
      | Some v => inr v
      | None => inl (FieldNotFound secret field)
      end
  | None => inl (SecretNotFound secret)
  end.

(** The secret store serves a field to a role that may read the secret. *)
Definition get_secret_value (t : Tree Resource) (store : SecretStore)
    (role secret : Path) (field : string) : RuntimeError + string :=
  if may_read t role secret then stored_field store secret field
  else inl (AccessDenied role secret).

(** The value of a secret of the container.  Whole documents and
    parameters of the parameter store are not modelled. *)
Definition inject_secret (t : Tree Resource) (store : SecretStore) (role : Path)
    (s : EcsSecret) : RuntimeError + string :=
  match s with
  | FromSecretsManager secret (Some field) => get_secret_value t store role secret field
  | FromSecretsManager secret None => inl (Unsupported secret)
  | FromSsmParameter parameter => inl (Unsupported parameter)
  end.

(** The value of an environment variable once its tokens have values. *)
Definition variable_value (env : Token → option string) (ts : TString)
    : RuntimeError + string :=
  match resolve env ts with
  | Some v => inr v
  | None => inl (NoValue ts)
  end.

(** The start of the container of the service at [svc]: the container
    service assumes the role of the service, the environment is resolved
    and every secret is fetched under the role. *)
Definition container_start (t : Tree Resource) (store : SecretStore)
    (env : Token → option string) (svc : Path) : RuntimeError + Started :=
  match tree_lookup svc t with
  | Some (RService props) =>
      let opts := task_image_options props in
      if may_assume t (task_role opts) ecs_tasks then
        match map_collect (variable_value env <$> environment opts) with
        | inl e => inl e
        | inr vars =>
            map_inr (mkStarted vars)
              (map_collect (inject_secret t store (task_role opts) <$> secrets opts))
        end
      else inl (AssumeRoleDenied (task_role opts) ecs_tasks)
  | _ => inl (NotAService svc)
  end.

(** The master credential the database at [db] is created with: the user
    name of its declaration and the password its declaration refers to.
    A database without password gets a credential the library generates,
    which is not modelled. *)
Definition master_login (t : Tree Resource) (store : SecretStore) (db : Path)
    : RuntimeError + string * string :=
  match tree_lookup db t with
  | Some (RDatabaseCluster props) =>
      match password (master_user props) with
      | Some (PlainText pw) => inr (username (master_user props), pw)
      | Some (SecretsManagerRef secret field) =>
          map_inr (username (master_user props),.) (stored_field store secret field)
      | None => inl (Unsupported db)
      end
  | _ => inl (NotADatabase db)
  end.

(** The secrets the container of the stack is started with when the store
    generated the password [pw]. *)
Definition sonar_secrets (pw : string) : gmap string string :=
  <["sonar.jdbc.password" := pw]> (<["sonar.jdbc.username" := "sonar"]> ∅).

(** The tree with the role at [role] as [iam.Role] leaves it, without
    inline statement. *)
Definition without_grants (role : Path) (t : Tree Resource) : Tree Resource :=
  match tree_lookup role t with
  | Some (RRole props _) => tree_update role (RRole props []) t
  | _ => t
  end.

(** ** Lemmas *)

Section collect_lemmas.
Context {E A : Type}.
Implicit Types (m : gmap string (E + A)) (r : gmap string A).

(** When every attempt succeeded the values are returned. *)
Lemma map_collect_inr r : map_collect (E:=E) (inr <$> r) = inr r.
Proof.
  unfold map_collect.
  replace (omap failure (inr <$> r)) with (∅ : gmap string E).
  - rewrite map_to_list_empty. f_equal. apply map_eq. intros k.
    rewrite lookup_omap, lookup_fmap. by destruct (r !! k).
  - apply map_eq. intros k. rewrite lookup_empty, lookup_omap, lookup_fmap.
    by destruct (r !! k).
Qed.

(** An error that is returned is the error of an attempt. *)
Lemma map_collect_inl m e :
  map_collect m = inl e → ∃ k, m !! k = Some (inl e).
Proof.
  unfold map_collect. destruct (map_to_list (omap failure m)) as [|[k e'] l] eqn:Hl;
    [done|]. intros [= ->]. exists k.
  assert ((k, e) ∈ map_to_list (omap failure m)) as Hk by (rewrite Hl; left).
  apply elem_of_map_to_list in Hk. rewrite lookup_omap in Hk.
  destruct (m !! k) as [[e'|a]|]; by simplify_eq/=.
Qed.

(** When an attempt failed an error is returned. *)
Lemma map_collect_failed m k e :
  m !! k = Some (inl e) → ∃ e', map_collect m = inl e'.
Proof.
  intros Hk. unfold map_collect.
  destruct (map_to_list (omap failure m)) as [|[k' e'] l] eqn:Hl; [|eauto].
  apply map_to_list_empty_iff in Hl.
  assert (omap failure m !! k = Some e) as H by (by rewrite lookup_omap, Hk).
  by rewrite Hl in H.
Qed.

(** When every attempt failed with the same error, that error is
    returned. *)
Lemma map_collect_all_failed m e :
  m ≠ ∅ → (∀ k x, m !! k = Some x → x = inl e) → map_collect m = inl e.
Proof.
  intros (k & x & Hk)%map_choose Hall. rewrite (Hall _ _ Hk) in Hk.
  destruct (map_collect_failed _ _ _ Hk) as [e' He']. rewrite He'.
  apply map_collect_inl in He' as [k' Hk']. by injection (Hall _ _ Hk') as ->.
Qed.

End collect_lemmas.

Section runtime_lemmas.
Implicit Types (t : Tree Resource) (store : SecretStore) (role secret q p : Path)
  (field : string) (d : list Path).

Lemma read_statement_allows secret q :
  statement_allows get_secret_action q (read_statement secret)
  = bool_decide (q = secret).
Proof.
  unfold statement_allows, read_statement. cbn [actions resources].
  rewrite bool_decide_true by (left; done). cbn [andb].
  apply bool_decide_ext. by rewrite list_elem_of_singleton.
Qed.

Lemma may_read_statements t role q :
  may_read t role q = true
  ↔ ∃ s, s ∈ statements_of t role ∧ get_secret_action ∈ actions s ∧ q ∈ resources s.
Proof.
  unfold may_read, statement_allows. rewrite existsb_exists.
  setoid_rewrite andb_true_iff. setoid_rewrite bool_decide_eq_true.
  by setoid_rewrite list_elem_of_In.
Qed.

(** Access is denied to a role without inline statement. *)
Lemma may_read_no_statement t role q :
  statements_of t role = [] → may_read t role q = false.
Proof. unfold may_read. by intros ->. Qed.

Lemma get_secret_value_granted t store role secret field :
  may_read t role secret = true →
  get_secret_value t store role secret field = stored_field store secret field.
Proof. unfold get_secret_value. by intros ->. Qed.

Lemma get_secret_value_denied t store role secret field :
  may_read t role secret = false →
  get_secret_value t store role secret field = inl (AccessDenied role secret).
Proof. unfold get_secret_value. by intros ->. Qed.

Lemma stored_field_Some store secret field doc v :
  store !! secret = Some doc → doc !! field = Some v →
  stored_field store secret field = inr v.
Proof. unfold stored_field. by intros -> ->. Qed.

(** What the store holds of a created credential. *)
Lemma credentials_stored_fields t d store p props :
  credentials_stored t d store → p ∈ d →
  tree_lookup p t = Some (RDatabaseSecret props) →
  ∃ pw, stored_field store p "username" = inr (secret_username props)
        ∧ stored_field store p "password" = inr pw.
Proof.
  intros Hs Hp Hl. destruct (Hs p props Hp Hl) as (doc & Hdoc & Hu & [pw Hpw]).
  exists pw. split; by eapply stored_field_Some.
Qed.

(** The store the engine fills holds the credentials of what it
    created. *)
Lemma generated_store_stored t d gen : credentials_stored t d (generated_store t d gen).
Proof.
  intros p props Hp Hl.
  exists (<["password" := gen p]> (<["username" := secret_username props]> ∅)).
  split_and!; [|by rewrite lookup_insert_ne, lookup_insert_eq
               |by rewrite lookup_insert_eq].
  apply elem_of_list_to_map_1'.
  - intros doc (q & Hq & Hg)%list_elem_of_omap. unfold generated_credential in Hg.
    destruct (tree_lookup q t) as [[]|] eqn:Hlq; try done.
    injection Hg as -> <-. rewrite Hl in Hlq. by injection Hlq as <-.
  - apply list_elem_of_omap. exists p. split; [done|].
    unfold generated_credential. by rewrite Hl.
Qed.

(** *** A role without its grants *)

Lemma without_grants_lookup_ne role t p :
  p ≠ role → tree_lookup p (without_grants role t) = tree_lookup p t.
Proof.
  intros Hp. unfold without_grants.
  destruct (tree_lookup role t) as [[]|]; try done.
  by apply tree_lookup_update_ne.
Qed.

Lemma without_grants_statements role t : statements_of (without_grants role t) role = [].
Proof.
  unfold without_grants, statements_of.
  destruct (tree_lookup role t) as [r|] eqn:Hr; [|by rewrite Hr].
  destruct r; rewrite ?Hr; try done. by erewrite tree_lookup_update.
Qed.

Lemma without_grants_may_read role t q : may_read (without_grants role t) role q = false.
Proof. apply may_read_no_statement, without_grants_statements. Qed.

Lemma without_grants_may_assume role t principal :
  may_assume (without_grants role t) role principal = may_assume t role principal.
Proof.
  unfold without_grants, may_assume.
  destruct (tree_lookup role t) as [r|] eqn:Hr; [|by rewrite Hr].
  destruct r; rewrite ?Hr; try done. by erewrite tree_lookup_update.
Qed.

(** A service that injects fields of one secret under a role without
    grant is refused at start. *)
Lemma container_start_denied t store env svc props role secret vars :
  tree_lookup svc t = Some (RService props) →
  task_role (task_image_options props) = role → svc ≠ role →
  may_assume t role ecs_tasks = true →
  map_collect (variable_value env <$> environment (task_image_options props))
  = inr vars →
  secrets (task_image_options props) ≠ ∅ →
  (∀ k s, secrets (task_image_options props) !! k = Some s →
          ∃ field, s = FromSecretsManager secret (Some field)) →
  container_start (without_grants role t) store env svc
  = inl (AccessDenied role secret).
Proof.
  intros Hsvc Hrole Hne Ha Hvars Hnon Hall. unfold container_start.
  rewrite without_grants_lookup_ne, Hsvc by done. cbn zeta. rewrite Hrole.
  rewrite without_grants_may_assume, Ha, Hvars.
  rewrite (map_collect_all_failed _ (AccessDenied role secret)); [done|..].
  - by intros ?%fmap_empty_inv.
  - intros k x (s & <- & Hs)%lookup_fmap_Some.
    destruct (Hall _ _ Hs) as [field ->]. cbn [inject_secret].
    apply get_secret_value_denied, without_grants_may_read.
Qed.

End runtime_lemmas.

(** ** The library and the identity service *)

Section grants.
Implicit Types (t : Tree Resource) (scope secret grantee q : Path) (id : string).

(** A role as [iam.Role] declares it may read nothing. *)
Lemma Role_may_read scope id props :
  triple (λ t, scope ∈ paths t ∧ scope ++ [id] ∉ paths t)
    (Role scope id props)
    (λ t role t', ∀ q, may_read t' role q = false).
Proof.
  intros t [Hs Hf]. eexists _, _. split; [by apply Role_run|].
  intros q. apply may_read_no_statement. unfold statements_of.
  by rewrite tree_lookup_app_r, tree_lookup_cons_eq.
Qed.

(** [grant_read] gives the grantee read access to the secret, and to
    nothing it could not read before. *)
Lemma grant_read_may_read secret grantee sprops props statements :
  triple (λ t, tree_ok t
               ∧ tree_lookup secret t = Some (RDatabaseSecret sprops)
               ∧ tree_lookup grantee t = Some (RRole props statements))
    (grant_read secret grantee)
    (λ t _ t', ∀ q, may_read t' grantee q
                    = may_read t grantee q || bool_decide (q = secret)).
Proof.
  intros t (Hok & Hs & Hg). eexists _, _. split.
  { eapply grant_read_run; [done..|]. apply Forall_forall. intros q Hq.
    eapply (ok_closed _ Hok); [by apply tree_lookup_Some_elem|done]. }
  intros q. unfold may_read, statements_of.
  erewrite tree_lookup_update by done. rewrite Hg, existsb_app.
  cbn [existsb]. by rewrite read_statement_allows, orb_false_r.
Qed.

End grants.

(** ** The service of the stack *)

Section service.
Context (scope : Path) (id : string) (kwargs : Kwargs).
Local Abbreviation self := (scope ++ [id]).

Lemma sonar_may_read t q :
  tree_ok t → self ∉ paths t →
  may_read (t ++ sonar_graph self kwargs) (task_role_path self) q
  = bool_decide (q = db_secret_path self).
Proof.
  intros Hok Hf. unfold may_read. rewrite sonar_statements by done.
  cbn [existsb]. by rewrite read_statement_allows, orb_false_r.
Qed.

Lemma sonar_may_assume t principal :
  tree_ok t → self ∉ paths t →
  may_assume (t ++ sonar_graph self kwargs) (task_role_path self) principal
  = bool_decide (ecs_tasks = principal).
Proof. intros Hok Hf. unfold may_assume. by sonar_observe. Qed.

Lemma sonar_inject_secrets t store pw :
  tree_ok t → self ∉ paths t →
  stored_field store (db_secret_path self) "username" = inr "sonar" →
  stored_field store (db_secret_path self) "password" = inr pw →
  inject_secret (t ++ sonar_graph self kwargs) store (task_role_path self)
    <$> task_secrets (db_secret_path self)
  = inr <$> sonar_secrets pw.
Proof.
  intros Hok Hf Hu Hp. unfold task_secrets, sonar_secrets, from_secrets_manager.
  rewrite !fmap_insert, !fmap_empty. cbn [inject_secret].
  rewrite !get_secret_value_granted
    by (rewrite sonar_may_read by done; by apply bool_decide_eq_true).
  by rewrite Hu, Hp.
Qed.

(** The environment of the service once the database has its endpoint. *)
Lemma sonar_variables env host port :
  env (mkToken (db_path self) "Endpoint.Address") = Some host →
  env (mkToken (db_path self) "Endpoint.Port") = Some port →
  variable_value env <$> task_environment (sonar_url self)
  = inr <$> <["sonar.jdbc.url" := "jdbc:postgresql://" +:+ host +:+ ":" +:+ port
                                   +:+ "/sonarqube"]> ∅.
Proof.
  intros Hh Hp. unfold task_environment, variable_value, sonar_url.
  rewrite !fmap_insert, !fmap_empty.
  by rewrite (jdbc_url_value_resolve env _ host port).
Qed.

(** The service does not start before the address of the database has a
    value. *)
Lemma sonar_container_blocked t store env :
  tree_ok t → self ∉ paths t →
  env (mkToken (db_path self) "Endpoint.Address") = None →
  container_start (t ++ sonar_graph self kwargs) store env (task_path self)
  = inl (NoValue (jdbc_url_value (db_path self))).
Proof.
  intros Hok Hf Hnone. unfold container_start. sonar_observe.
  cbn [task_image_options service_props sonar_task_image_options task_role
         environment secrets].
  rewrite sonar_may_assume, bool_decide_true by done.
  unfold task_environment, variable_value, sonar_url.
  rewrite !fmap_insert, !fmap_empty.
  rewrite (resolve_token_None env _ (mkToken (db_path self) "Endpoint.Address"))
    by (done || by left).
  by rewrite (map_collect_all_failed _ (NoValue (jdbc_url_value (db_path self))))
    by (by apply insert_non_empty || by intros k x [[_ <-]|[_ ?]]%lookup_insert_Some).
Qed.

(** The start of the service of the stack, from the values of the
    endpoint and the fields of the credential. *)
Lemma sonar_container_start t store env host port pw :
  tree_ok t → self ∉ paths t →
  env (mkToken (db_path self) "Endpoint.Address") = Some host →
  env (mkToken (db_path self) "Endpoint.Port") = Some port →
  stored_field store (db_secret_path self) "username" = inr "sonar" →
  stored_field store (db_secret_path self) "password" = inr pw →
  container_start (t ++ sonar_graph self kwargs) store env (task_path self)
  = inr {| started_environment :=
             <["sonar.jdbc.url" := "jdbc:postgresql://" +:+ host +:+ ":" +:+ port
                                   +:+ "/sonarqube"]> ∅;
           started_secrets := sonar_secrets pw |}.
Proof.
  intros Hok Hf Hh Hp Hu Hpw. unfold container_start. sonar_observe.
  cbn [task_image_options service_props sonar_task_image_options task_role
         environment secrets].
  rewrite sonar_may_assume, bool_decide_true by done.
  rewrite (sonar_variables env host port), map_collect_inr by done.
  by rewrite (sonar_inject_secrets t store pw), map_collect_inr.
Qed.

(** C15. The service starts with the credential of the database: in every
    deployment of the tree the constructor returns, the service cannot
    start as long as the database is not created, for its URL has no
    value; and once the service is created, whatever password the secret
    store generated for the credential, the database is created with the
    master user [sonar] and that password, and the container of the
    service starts, under the role of the stack, with the JDBC URL of the
    database in its environment and with exactly two secrets, the same
    user name and the same password. *)
Theorem sonar_service_credentials :
  triple (stack_pre scope id) (SonarStack_init scope id kwargs)
    (λ t h t', ∀ store out d host,
       deployment (scoped t') d →
       out (self_db h) "Endpoint.Address" = Some host →
       endpoint_ports t' out →
       (self_db h ∉ d →
        container_start t' store (env_of out d) (task_path self)
        = inl (NoValue (jdbc_url_value (self_db h))))
       ∧ (task_path self ∈ d → credentials_stored t' d store →
          ∃ pw,
            master_login t' store (self_db h) = inr ("sonar", pw)
            ∧ container_start t' store (env_of out d) (task_path self)
              = inr {| started_environment :=
                         <["sonar.jdbc.url" := "jdbc:postgresql://" +:+ host
                                               +:+ ":5432/sonarqube"]> ∅;
                       started_secrets :=
                         <["sonar.jdbc.password" := pw]>
                           (<["sonar.jdbc.username" := "sonar"]> ∅) |})).
Proof.
  sonar_triple. intros store out d host Hd%deployment_ok Hh Hports.
  split; [intros Hdb; by apply sonar_container_blocked, env_of_missing|].
  intros Htask Hstore.
  assert (db_secret_path self ∈ d ∧ db_path self ∈ d) as [Hsec Hdb].
  { split; (eapply (sonar_edge_created (kwargs:=kwargs)); [done..| |exact Htask]);
      unfold sonar_edges; elem_of_list. }
  destruct (credentials_stored_fields _ _ _ _ db_secret_props Hstore Hsec)
    as (pw & Hu & Hp); [by sonar_observe|].
  exists pw. split.
  - unfold master_login. sonar_observe.
    cbn [password master_user database_props db_master_user
           secret_value_from_json username]. by rewrite Hp.
  - apply (sonar_container_start _ _ _ host "5432"); try done.
    + by rewrite env_of_created.
    + rewrite env_of_created by done. cbn [tok_target tok_attr].
      by erewrite Hports by (by sonar_observe).
Qed.

(** C17. The role of the stack and the grant of line 79: in the tree the
    constructor returns the role may read the credential of the database
    and no other construct, and the container service and no other
    principal may assume it; and the grant is needed: with the role as
    [iam.Role] declares it, without the statement [grant_read] adds, the
    start of the service is refused with the access error of the
    credential, in every deployment and whatever the store holds. *)
Theorem sonar_role_access :
  triple (stack_pre scope id) (SonarStack_init scope id kwargs)
    (λ t h t',
       (∀ q, may_read t' (self_task_role h) q = true ↔ q = self_db_secret h)
       ∧ (∀ principal, may_assume t' (self_task_role h) principal = true
                       ↔ principal = "ecs-tasks.amazonaws.com")
       ∧ ∀ store out d host,
           deployment (scoped t') d → task_path self ∈ d →
           out (self_db h) "Endpoint.Address" = Some host →
           endpoint_ports t' out →
           container_start (without_grants (self_task_role h) t') store
             (env_of out d) (task_path self)
           = inl (AccessDenied (self_task_role h) (self_db_secret h))).
Proof.
  sonar_triple. split_and!.
  - intros q. by rewrite sonar_may_read, bool_decide_eq_true.
  - intros principal. rewrite sonar_may_assume, bool_decide_eq_true by done.
    by split.
  - intros store out d host Hd%deployment_ok Htask Hh Hports.
    assert (db_path self ∈ d) as Hdb.
    { eapply (sonar_edge_created (kwargs:=kwargs)); [done..| |exact Htask].
      unfold sonar_edges. elem_of_list. }
    eapply container_start_denied; [by sonar_observe|done| | | | |].
    + unfold_paths. by intros ?%app_inv_head.
    + by rewrite sonar_may_assume, bool_decide_true.
    + cbn [task_image_options service_props sonar_task_image_options environment].
      rewrite (sonar_variables (env_of out d) host "5432"); [apply map_collect_inr| |].
      * by rewrite env_of_created.
      * rewrite env_of_created by done. cbn [tok_target tok_attr].
        by erewrite Hports by (by sonar_observe).
    + done.
    + intros k s. cbn [task_image_options service_props sonar_task_image_options
                         secrets]. unfold task_secrets, from_secrets_manager.
      intros [[_ <-]|[_ [[_ <-]|[_ ?]]%lookup_insert_Some]]%lookup_insert_Some;
        eauto. done.
Qed.

End service.

(** The properties, at the run of [app.py]. *)

Lemma sonar_service_credentials_witness :
  ∃ h t', SonarStack_init [] "sonar" ∅ App = inr (h, t')
    ∧ ∀ store out d host,
       deployment (scoped t') d →
       out (self_db h) "Endpoint.Address" = Some host →
       endpoint_ports t' out →
       (self_db h ∉ d →
        container_start t' store (env_of out d) (task_path ([] ++ ["sonar"]))
        = inl (NoValue (jdbc_url_value (self_db h))))
       ∧ (task_path ([] ++ ["sonar"]) ∈ d → credentials_stored t' d store →
          ∃ pw,
            master_login t' store (self_db h) = inr ("sonar", pw)
            ∧ container_start t' store (env_of out d) (task_path ([] ++ ["sonar"]))
              = inr {| started_environment :=
                         <["sonar.jdbc.url" := "jdbc:postgresql://" +:+ host
                                               +:+ ":5432/sonarqube"]> ∅;
                       started_secrets :=
                         <["sonar.jdbc.password" := pw]>
                           (<["sonar.jdbc.username" := "sonar"]> ∅) |}).
Proof. exact (sonar_service_credentials [] "sonar" ∅ App App_pre). Defined.

Lemma sonar_role_access_witness :
  ∃ h t', SonarStack_init [] "sonar" ∅ App = inr (h, t')
    ∧ (∀ q, may_read t' (self_task_role h) q = true ↔ q = self_db_secret h)
    ∧ (∀ principal, may_assume t' (self_task_role h) principal = true
                    ↔ principal = "ecs-tasks.amazonaws.com")
    ∧ ∀ store out d host,
        deployment (scoped t') d → task_path ([] ++ ["sonar"]) ∈ d →
        out (self_db h) "Endpoint.Address" = Some host →
        endpoint_ports t' out →
        container_start (without_grants (self_task_role h) t') store
          (env_of out d) (task_path ([] ++ ["sonar"]))
        = inl (AccessDenied (self_task_role h) (self_db_secret h)).
Proof. exact (sonar_role_access [] "sonar" ∅ App App_pre). Defined.
