(* ===== verification/App.v ===== *)
(** * App: the entry point [app.py]

    The program creates the application root, instantiates the stack below
    it under the id ["sonar"] and synthesises the application.  Synthesis
    hands every stack with the constructs below it to the provisioning
    engine; the serialisation itself belongs to the engine and is not
    modelled.  The theorems are about this one run: the tree it leaves,
    the scenario of the specification, the template of the stack, the
    deployment of the tree by the two schedulers and the start of the
    service on a concrete engine and secret store. *)

From S2P Require Import Prelude Tokens Construct Graph Deploy Scheduler Resources.
From S2P Require Import Typing SonarStack Provision Runtime.

Local Open Scope build_scope.

(** ** Definitions *)

Definition stack_id : string := "sonar".

(** [app = core.App(); SonarStack(app, "sonar")] *)
Definition main : BuildError + (SonarStack * Tree Resource) :=
  SonarStack_init [] stack_id ∅ App.

Definition is_stack (r : Resource) : bool :=
  match r with
  | RStack _ => true
  | _ => false
  end.

(** The constructs strictly below the stack at [s], in declaration order. *)
Definition stack_template (t : Tree Resource) (s : Path) : Tree Resource :=
  filter (λ pr, s `prefix_of` pr.1 ∧ pr.1 ≠ s) t.

(** [app.synth()]: every stack with its template. *)
Definition synth (t : Tree Resource) : list (Path * Tree Resource) :=
  (λ pr, (pr.1, stack_template t pr.1)) <$> filter (λ pr, is_stack pr.2 = true) t.

(** [app.py] as a whole. *)
Definition synth_main : BuildError + list (Path * Tree Resource) :=
  map_inr (λ ht, synth ht.2) main.

(** ** Lemmas *)

Section app_lemmas.
Implicit Types (t : Tree Resource) (s self : Path).
Context {kwargs : Kwargs}.

Lemma stack_template_fresh t s : tree_ok t → s ∉ paths t → stack_template t s = [].
Proof.
  intros Hok Hs. apply filter_none, Forall_forall.
  intros [p r] Hin [[k Hk] _]. cbn [fst] in Hk. subst p.
  eapply tree_ok_descendants; [done..|]. apply elem_of_paths. eauto.
Qed.

Lemma stack_template_graph self :
  stack_template (sonar_graph self kwargs) self = tail (sonar_graph self kwargs).
Proof.
  unfold stack_template, sonar_graph.
  rewrite filter_cons_False by (by intros [_ ?]). cbn [tail]. apply filter_all.
  repeat (apply Forall_cons; split;
          [cbv beta; cbn [fst]; split; [solve_prefix | unfold_paths; path_neq]|]).
  apply Forall_nil_2.
Qed.

Lemma main_run : main = inr (sonar_handles ["sonar"], App ++ sonar_graph ["sonar"] ∅).
Proof. apply sonar_app_run. Qed.

End app_lemmas.

(** ** Properties of the program *)

Section app_properties.
Implicit Types (t : Tree Resource) (scope : Path) (id : string).

(** C27. The program runs without error and leaves a well-formed tree: the
    application root and below it the stack ["sonar"] with its eleven
    constructs, in the order of their declaration; no reference dangles,
    no chain of references is a cycle, every reference leads to a
    construct of the kind the library asks for, and the executable checks
    of the graph accept the tree, with and without the scopes as
    dependencies. *)
Theorem main_sound :
  ∃ h t, main = inr (h, t)
         ∧ tree_ok t ∧ closed t ∧ acyclic t ∧ tree_typed t
         ∧ closedb t = true ∧ topo_orderedb t = true
         ∧ topo_orderedb (scoped t) = true
         ∧ paths t
           = [[]; ["sonar"]; ["sonar"; "SonarVPC"]; ["sonar"; "/app/sonarDBUser"];
              ["sonar"; "SonarQubeSG"]; ["sonar"; "SonarDBParamGroup"];
              ["sonar"; "Database"]; ["sonar"; "SonarCluster"];
              ["sonar"; "SonarCluster"; "DefaultAutoScalingGroup"];
              ["sonar"; "SonarTaskRole"]; ["sonar"; "SonarService"];
              ["sonar"; "SonarService"; "TaskDef"];
              ["sonar"; "SonarService"; "TaskDef"; "web"]].
Proof.
  eexists _, _. split; [apply main_run|].
  assert (tree_ok (App ++ sonar_graph ["sonar"] ∅)) as Hok.
  { eapply SonarStack_init_preserving; [apply App_ok | apply sonar_app_run]. }
  split_and!; [done | by apply tree_ok_closed | | | by vm_compute..].
  - apply topo_ordered_acyclic, sonar_graph_extends_topo, App_topo.
  - apply (bool_decide_unpack _). by vm_compute.
Qed.

(** C26. The end-to-end scenario: the program declares exactly one network,
    one credential, one security group, one database cluster, one compute
    cluster whose hosts run the four bootstrap commands in the order of
    the source, one role with two grants (a managed policy and the read
    access to the credential) and one service with two injected secrets,
    one environment variable and the open-files limit 65536, soft and
    hard. *)
Theorem main_scenario :
  ∃ h t role_props statements service,
    main = inr (h, t)
    ∧ (λ k, count_kind k t)
        <$> [KVpc; KDatabaseSecret; KSecurityGroup; KDatabaseCluster; KCluster;
             KRole; KService]
      = [1; 1; 1; 1; 1; 1; 1]
    ∧ commands_of t (self_cluster h ++ ["DefaultAutoScalingGroup"])
      = ["sysctl -qw vm.max_map_count=262144"; "sysctl -w fs.file-max=65536";
         "ulimit -n 65536"; "ulimit -u 4096"]
    ∧ tree_lookup (self_task_role h) t = Some (RRole role_props statements)
    ∧ length (managed_policies role_props) + length statements = 2
    ∧ tree_lookup ["sonar"; "SonarService"] t = Some (RService service)
    ∧ size (secrets (task_image_options service)) = 2
    ∧ size (environment (task_image_options service)) = 1
    ∧ ulimits_of t ["sonar"; "SonarService"; "TaskDef"; "web"]
      = [mkUlimit NOFILE 65536 65536].
Proof.
  eexists _, _, _, _, _. split; [apply main_run|].
  split_and!; by vm_compute.
Qed.

(** The template of a stack: after the constructor the constructs
    strictly below the stack are the eleven constructs of [sonar_graph]
    after the stack itself, in their order, whatever the tree held. *)
Theorem stack_template_sonar scope id kwargs :
  triple (stack_pre scope id) (SonarStack_init scope id kwargs)
    (λ t h t',
       stack_template t' (scope ++ [id]) = tail (sonar_graph (scope ++ [id]) kwargs)
       ∧ length (stack_template t' (scope ++ [id])) = 11).
Proof.
  sonar_triple. unfold stack_template. rewrite filter_app.
  fold (stack_template t (scope ++ [id])).
  fold (stack_template (sonar_graph (scope ++ [id]) kwargs) (scope ++ [id])).
  by rewrite stack_template_fresh, stack_template_graph.
Qed.

Lemma stack_template_sonar_witness :
  ∃ h t', SonarStack_init [] "sonar" ∅ App = inr (h, t')
    ∧ stack_template t' ([] ++ ["sonar"]) = tail (sonar_graph ([] ++ ["sonar"]) ∅)
    ∧ length (stack_template t' ([] ++ ["sonar"])) = 11.
Proof. exact (stack_template_sonar [] "sonar" ∅ App App_pre). Defined.

(** C40. Synthesis of the program yields one template, that of the stack
    ["sonar"], which holds the eleven constructs of the stack. *)
Theorem synth_main_result :
  synth_main = inr [(["sonar"], tail (sonar_graph ["sonar"] ∅))].
Proof. unfold synth_main. rewrite main_run. by vm_compute. Qed.



End app_properties.
